(** * simple_calculator.cpp: tokens, environment, evaluator and persistence

    A shallow embedding of the expression calculator: the token stream
    with its push-back queue, the table of names, the recursive-descent
    evaluator that computes while it parses, the precision setting, and
    the text format in which the table is saved and loaded.

    - A [double] is an IEEE binary64 number ([PrimFloat]); [+ - * /], unary
      minus and [==] are the primitive operations.  The routines of
      <cmath> are parameters.  A [float] has a single NaN: the sign bit of
      a NaN, which shows only when it is printed, is given where a value
      is written.
    - [names] is a finite map from strings to [Value]s; iterating it
      visits the keys in ascending order, as [std::map] does.
    - The globals are threaded through every call as a [State]; a call
      yields an [outcome] and the state it leaves, also when it throws.
    - Standard input is seen through its readers: the scanner delivers
      tokens (or throws), the menus deliver the integers typed as
      answers.  A file is its text.  What is written to [cout] and [cerr]
      changes no state and is left out.  The scanner itself is [scan], on
      the characters of [cin]; [scans] lists what it delivers.
    - The mutually recursive evaluator and the search for a fresh name
      run on a budget of steps; the properties say how much is enough. *)

From Stdlib Require Import ZArith Floats Ascii String List.
From stdpp Require Import base decidable option list gmap strings pretty sorting.

Local Open Scope Z_scope.
#[local] Set Warnings "-inexact-float".

(** ** <cmath>

    The calculator calls the C mathematics library through function
    pointers stored in tokens and through direct calls to [pow] and [fmod].
    The library is not part of the program: its entry points are the
    fields of a class, and every result below holds for each instance. *)

Inductive function_t :=
  c_sin | c_cos | c_tan | c_asin | c_acos | c_atan | c_exp | c_log | c_log10 | c_log2.

Class cmath := {
  sin : float -> float;
  cos : float -> float;
  tan : float -> float;
  asin : float -> float;
  acos : float -> float;
  atan : float -> float;
  exp : float -> float;
  log : float -> float;
  log10 : float -> float;
  log2 : float -> float;
  pow : float -> float -> float;
  fmod : float -> float -> float
}.

(** Calling through a non-null [function_t*]. *)
Definition call `{cmath} (f : function_t) : float -> float :=
  match f with
  | c_sin => sin | c_cos => cos | c_tan => tan
  | c_asin => asin | c_acos => acos | c_atan => atan
  | c_exp => exp | c_log => log | c_log10 => log10 | c_log2 => log2
  end.

(** ** Tokens *)

Module Token.

Inductive id :=
  | none | quit | print | number | name_token | const_token | char_token
  | help_token | function_token | precision_token | set_precision_token
  | show_env_token | save_env_token | load_env_token.

#[global] Instance id_eq_dec : EqDecision id.
Proof. solve_decision. Defined.

(** [function] is the pointer member: [None] is [nullptr]. *)
Record t := mk {
  kind : id;
  symbol : ascii;
  value : float;
  name : string;
  function : option function_t
}.

(** The six constructors of the struct. *)
Definition default : t := mk none zero 0%float "" None.
Definition of_id (tk : id) : t := mk tk zero 0%float "" None.
Definition of_char (ch : ascii) : t := mk char_token ch 0%float "" None.
Definition of_double (val : float) : t := mk number zero val "" None.
Definition of_name (str : string) : t := mk name_token zero 0%float str None.
Definition of_function (str : string) (the_function : option function_t) : t :=
  mk function_token zero 0%float str the_function.

Definition is_symbol (tok : t) (c : ascii) : bool :=
  bool_decide (kind tok = char_token) && bool_decide (symbol tok = c).
Definition is_number (tok : t) (v : float) : bool :=
  bool_decide (kind tok = number) && PrimFloat.eqb (value tok) v.
Definition is_name (tok : t) (str : string) : bool :=
  bool_decide (kind tok = name_token) && bool_decide (name tok = str).
Definition is_function (tok : t) : bool :=
  bool_decide (kind tok = function_token).

End Token.

(** ** The table of names *)

Module Value.

Record t := mk {
  name : string;
  value : float;
  is_const : bool
}.

Definition default : t := mk "" 0%float false.

End Value.

(** ** Program state and outcomes

    The globals [ts], [names] and [current_precision], together with what
    is still to come on standard input.  The evaluator reads standard
    input only through the scanner of [Token_stream::get], one token per
    call, so the unread input is kept as the sequence of results those
    calls will have: a token, or the [runtime_error] the scanner throws. *)

Inductive Scan :=
  | Scanned (tok : Token.t)
  | Rejected (what : string).

Record State := mkState {
  buffer : list Token.t;
  input : list Scan;
  names : gmap string Value.t;
  current_precision : Z
}.

Definition with_buffer (b : list Token.t) (st : State) : State :=
  mkState b (input st) (names st) (current_precision st).
Definition with_input (i : list Scan) (st : State) : State :=
  mkState (buffer st) i (names st) (current_precision st).
Definition with_names (n : gmap string Value.t) (st : State) : State :=
  mkState (buffer st) (input st) n (current_precision st).
Definition with_precision (p : Z) (st : State) : State :=
  mkState (buffer st) (input st) (names st) p.

(** How a call ends: it returns, it throws [runtime_error(what)], it has
    no defined behaviour (reading past the end of input, converting a
    number that does not fit [int], using a variable that was never
    written), or the recursion budget of the embedding ran out. *)
Inductive outcome (A : Type) :=
  | Ret (a : A)
  | Throw (what : string)
  | Undefined
  | OutOfFuel.
Arguments Ret {A} a.
Arguments Throw {A} what.
Arguments Undefined {A}.
Arguments OutOfFuel {A}.

Definition M (A : Type) : Type := State -> outcome A * State.

Definition ret {A} (a : A) : M A := fun st => (Ret a, st).

Definition bind {A B} (m : M A) (k : A -> M B) : M B := fun st =>
  match m st with
  | (Ret a, st') => k a st'
  | (Throw what, st') => (Throw what, st')
  | (Undefined, st') => (Undefined, st')
  | (OutOfFuel, st') => (OutOfFuel, st')
  end.

Declare Scope calc_scope.
Delimit Scope calc_scope with calc.
Notation "x <- c1 ;; c2" := (bind c1 (fun x => c2))
  (at level 100, c1 at next level, right associativity) : calc_scope.
Notation "c1 ;; c2" := (bind c1 (fun _ => c2))
  (at level 100, c2 at level 200, right associativity) : calc_scope.
Local Open Scope calc_scope.

(** [error(s)] and [error(s, s2)]. *)
Definition error {A} (s : string) : M A := fun st => (Throw s, st).
Definition error2 {A} (s s2 : string) : M A := error (s +:+ s2).

Definition undefined {A} : M A := fun st => (Undefined, st).
Definition out_of_fuel {A} : M A := fun st => (OutOfFuel, st).

(** [if (c) error(...)] followed by the rest of the body. *)
Definition when (c : bool) (m : M unit) : M unit := if c then m else ret tt.

(** ** Token_stream *)

Definition unget (tok : Token.t) : M unit := fun st =>
  (Ret tt, with_buffer (buffer st ++ [tok]) st).

Definition get : M Token.t := fun st =>
  match buffer st with
  | tok :: b => (Ret tok, with_buffer b st)
  | [] =>
      match input st with
      | Scanned tok :: i => (Ret tok, with_input i st)
      | Rejected what :: i => (Throw what, with_input i st)
      | [] => (Undefined, st)
      end
  end.

(** ** Reading and writing the table of names *)

Definition get_value (s : string) : M float := fun st =>
  match names st !! s with
  | Some v => (Ret (Value.value v), st)
  | None => error2 "get: undefined name " s st
  end.

(** The body has no [return] after the store: control always reaches the
    final [error]. *)
Definition set_value (s : string) (d : float) : M unit :=
  (fun st =>
     match names st !! s with
     | Some v =>
         if Value.is_const v then error2 "set: const name " s st
         else (Ret tt,
               with_names
                 (<[s := Value.mk (Value.name v) d (Value.is_const v)]> (names st))
                 st)
     | None => (Ret tt, st)
     end) ;;
  error2 "set: undefined name " s.

Definition is_constant (s : string) : M bool := fun st =>
  (Ret match names st !! s with
       | Some v => Value.is_const v
       | None => false
       end, st).

Definition is_declared (s : string) : M bool := fun st =>
  (Ret (bool_decide (is_Some (names st !! s))), st).

Definition define_name (s : string) (d : float) (constant : bool) : M unit :=
  fun st => (Ret tt, with_names (<[s := Value.mk s d constant]> (names st)) st).

(** ** The evaluator

    [expression], [term], [primary] and [function_name] call each other;
    the two [while (true)] loops are [expression_loop] and [term_loop],
    carrying the local [left].  All six recurse on a budget of nested
    calls and loop rounds. *)

Section Evaluator.
Context `{cmath}.

Fixpoint expression (fuel : nat) : M float :=
  match fuel with
  | O => out_of_fuel
  | S n => left <- term n ;; expression_loop n left
  end
with expression_loop (fuel : nat) (left : float) : M float :=
  match fuel with
  | O => out_of_fuel
  | S n =>
      t <- get ;;
      if Token.is_symbol t "+" then
        v <- term n ;; expression_loop n (left + v)%float
      else if Token.is_symbol t "-" then
        v <- term n ;; expression_loop n (left - v)%float
      else unget t ;; ret left
  end
with term (fuel : nat) : M float :=
  match fuel with
  | O => out_of_fuel
  | S n => left <- primary n ;; term_loop n left
  end
with term_loop (fuel : nat) (left : float) : M float :=
  match fuel with
  | O => out_of_fuel
  | S n =>
      t <- get ;;
      if Token.is_symbol t "*" then
        v <- primary n ;; term_loop n (left * v)%float
      else if Token.is_symbol t "/" then
        d <- primary n ;;
        when (d =? 0)%float (error "divide by zero") ;;
        term_loop n (left / d)%float
      else if Token.is_symbol t "%" then
        d <- primary n ;;
        when (d =? 0)%float (error "divide by zero") ;;
        term_loop n (fmod left d)
      else unget t ;; ret left
  end
with primary (fuel : nat) : M float :=
  match fuel with
  | O => out_of_fuel
  | S n =>
      t <- get ;;
      if Token.is_function t then unget t ;; function_name n
      else if bool_decide (Token.kind t = Token.char_token) then
        if Token.is_symbol t "(" then
          d <- expression n ;;
          t <- get ;;
          when (negb (Token.is_symbol t ")")) (error "'(' expected") ;;
          ret d
        else if Token.is_symbol t "-" then
          v <- primary n ;; ret (- v)%float
        else if Token.is_symbol t "+" then primary n
        else error "primary expected"
      else if bool_decide (Token.kind t = Token.number) then
        ret (Token.value t)
      else if bool_decide (Token.kind t = Token.name_token) then
        get_value (Token.name t)
      else error "primary expected"
  end
with function_name (fuel : nat) : M float :=
  match fuel with
  | O => out_of_fuel
  | S n =>
      t <- get ;;
      when (negb (Token.is_function t)) (error "function name expected") ;;
      tt <- get ;;
      when (negb (Token.is_symbol tt "(")) (error "'(' expected") ;;
      d <- expression n ;;
      tt <- get ;;
      if Token.is_symbol tt ")" then
        match Token.function t with
        | Some f => ret (call f d)
        | None => error2 (Token.name t) " needs two arguments"
        end
      else
        when (negb (Token.is_symbol tt ",")) (error "')' expected") ;;
        dd <- expression n ;;
        tt <- get ;;
        if Token.is_symbol tt ")" then
          if bool_decide (Token.name t = "pow") then ret (pow d dd)
          else error2 (Token.name t) " needs only one argument"
        else error "')' expected"
  end.

Definition assign (fuel : nat) : M float :=
  t <- get ;;
  when (negb (bool_decide (Token.kind t = Token.name_token)))
    (error "name expected in assign") ;;
  let name := Token.name t in
  c <- is_constant name ;;
  when c (error2 name " constant cannot be modified") ;;
  t <- get ;;
  when (negb (Token.is_symbol t "=")) (error2 "= missing in assign of " name) ;;
  d <- expression fuel ;;
  declared <- is_declared name ;;
  (if declared then set_value name d else define_name name d false) ;;
  ret d.

Definition constant_assign (fuel : nat) : M float :=
  t <- get ;;
  when (negb (bool_decide (Token.kind t = Token.name_token)))
    (error "name expected in const assign") ;;
  let name := Token.name t in
  declared <- is_declared name ;;
  when declared (error2 name " has already been defined") ;;
  t <- get ;;
  when (negb (Token.is_symbol t "=")) (error2 "= missing in assign of " name) ;;
  d <- expression fuel ;;
  define_name name d true ;;
  ret d.

Definition statement (fuel : nat) : M float :=
  t <- get ;;
  match Token.kind t with
  | Token.const_token => constant_assign fuel
  | Token.name_token =>
      tt <- get ;;
      if Token.is_symbol tt "=" then unget t ;; unget tt ;; assign fuel
      else unget t ;; unget tt ;; expression fuel
  | _ => unget t ;; expression fuel
  end.

End Evaluator.

(** ** Precision

    [static_cast<int>] truncates toward zero and is defined only when the
    truncated value fits [int]. *)
Definition static_cast_int (x : float) : option Z :=
  match Prim2SF x with
  | S754_zero _ => Some 0
  | S754_finite s m e =>
      let magnitude :=
        if 0 <=? e then Z.pos m * 2 ^ e else Z.pos m / 2 ^ (- e) in
      let z := if s then - magnitude else magnitude in
      if (-2147483648 <=? z) && (z <=? 2147483647) then Some z else None
  | S754_infinity _ | S754_nan => None
  end.

Definition out_of_range (digits : Z) : bool := (digits <? 0) || (20 <? digits).

(** [set_precision()], the command. *)
Definition set_precision : M unit :=
  t <- get ;;
  when (negb (bool_decide (Token.kind t = Token.number)))
    (error "Expected a number after 'set precision'") ;;
  match static_cast_int (Token.value t) with
  | None => undefined
  | Some digits =>
      when (out_of_range digits) (error "Precision must be between 0 and 20") ;;
      fun st => (Ret tt, with_precision digits st)
  end.

(** [set_precision(int digits)], used by [load_env]. *)
Definition set_precision_int (digits : Z) : M unit :=
  when (out_of_range digits) (error "Precision must be between 0 and 20") ;;
  fun st => (Ret tt, with_precision digits st).

(** ** Text

    The characters the program tests for, the newline written by [endl],
    and the decimal images produced by [to_string] and [operator<<]. *)

Definition nl : string := String "010" "".

Definition isspace (c : ascii) : bool :=
  let n := N_of_ascii c in ((n =? 32) || ((9 <=? n) && (n <=? 13)))%N.

Definition isdigit (c : ascii) : bool :=
  let n := N_of_ascii c in ((48 <=? n) && (n <=? 57))%N.

Fixpoint all_chars (p : ascii -> bool) (s : string) : bool :=
  match s with
  | EmptyString => true
  | String c s' => p c && all_chars p s'
  end.

(** [to_string(int)], and [operator<<] for [int]. *)
Definition to_string (n : Z) : string := pretty n.

(** The last [width] decimal digits of [n], most significant first. *)
Fixpoint zero_padded (width : nat) (n : Z) : string :=
  match width with
  | O => ""
  | S w => zero_padded w (n / 10) +:+ String (pretty_N_char (Z.to_N (n mod 10))) ""
  end.

(** [n / d] rounded to the nearest integer, ties to the even one. *)
Definition round_half_even (n d : Z) : Z :=
  let q := n / d in
  let r := n mod d in
  if 2 * r <? d then q
  else if d <? 2 * r then q + 1
  else if Z.even q then q else q + 1.

(** [operator<<] for [double] on a stream with [ios::fixed] set and
    [precision(p)]: the exact value rounded to [p] decimals, ties to even;
    no point is written when [p] is 0.  A [double] that is a NaN has a sign
    bit, which is printed like any other sign, while a [float] has a single
    NaN: [negative] is the sign bit of [x] when [x] is a NaN, and is not
    looked at otherwise. *)
Definition fixed (p : Z) (negative : bool) (x : float) : string :=
  let sign (s : bool) := if s then "-" else "" in
  let image (scaled : Z) :=
    to_string (scaled / 10 ^ p)
    +:+ (if p =? 0 then ""
         else "." +:+ zero_padded (Z.to_nat p) (scaled mod 10 ^ p)) in
  match Prim2SF x with
  | S754_nan => sign negative +:+ "nan"
  | S754_infinity s => sign s +:+ "inf"
  | S754_zero s => sign s +:+ image 0
  | S754_finite s m e =>
      sign s +:+ image (if 0 <=? e then Z.pos m * 2 ^ e * 10 ^ p
                       else round_half_even (Z.pos m * 10 ^ p) (2 ^ (- e)))
  end.

Definition is_finite (x : float) : bool :=
  match Prim2SF x with
  | S754_zero _ | S754_finite _ _ _ => true
  | S754_infinity _ | S754_nan => false
  end.

Definition isnan (x : float) : bool :=
  match Prim2SF x with
  | S754_nan => true
  | _ => false
  end.

(** ** Saving the environment *)

(** Iterating a [std::map<string, Value>] visits the keys in ascending
    order. *)
Definition key_le (a b : string * Value.t) : Prop := (a.1 ≤ b.1)%string.

#[global] Instance key_le_dec : RelDecision key_le.
Proof. intros a b. unfold key_le. apply _. Defined.

Definition iterate (m : gmap string Value.t) : list (string * Value.t) :=
  merge_sort key_le (map_to_list m).

(** The menus read [cin >> option] until the value is one of the offered
    choices.  [answers] lists the values [option] takes, one per round;
    when they run out the program has no defined behaviour. *)
Fixpoint select_save_precision (answers : list Z) : option Z :=
  match answers with
  | [] => None
  | option :: rest =>
      if option =? 1 then Some 6
      else if option =? 2 then Some 12
      else if option =? 3 then Some 19
      else select_save_precision rest
  end.

(** [out << key << " = " << val.value << " is_const = " << val.is_const],
    and the same followed by [endl].  [signs] gives, by name, the sign bits
    of the values of the table that are NaNs. *)
Definition entry_text (signs : string -> bool) (save_precision : Z)
    (entry : string * Value.t) : string :=
  entry.1 +:+ " = "
  +:+ fixed save_precision (signs entry.1) (Value.value entry.2)
  +:+ " is_const = " +:+ (if Value.is_const entry.2 then "1" else "0").

Definition entry_line (signs : string -> bool) (save_precision : Z)
    (entry : string * Value.t) : string :=
  entry_text signs save_precision entry +:+ nl.

(** What is written to [out] once it is open. *)
Definition write_env (signs : string -> bool) (save_precision : Z)
    (m : gmap string Value.t) : string :=
  "Precision = " +:+ to_string save_precision +:+ nl
  +:+ String.concat "" (entry_line signs save_precision <$> iterate m).

(** [save_env()].  [opened] tells whether [ofstream out(current_filename)]
    succeeds; the result is the text written to that file, in which the
    NaNs have the sign bits [signs]. *)
Definition save_env (signs : string -> bool) (answers : list Z) (opened : bool)
    : M string := fun st =>
  if bool_decide (size (names st) = 0%nat) then
    error (nl +:+ "save env: No variables or constants to save." +:+ nl) st
  else
    match select_save_precision answers with
    | None => undefined st
    | Some save_precision =>
        if opened then (Ret (write_env signs save_precision (names st)), st)
        else error (nl +:+ "save env: Could not open file for writing" +:+ nl) st
    end.

(** ** Loading the environment *)

(** [getline(in, line)] repeated to the end of the file. *)
Fixpoint getlines (text : string) : list string :=
  match text with
  | EmptyString => []
  | String c text' =>
      if Ascii.eqb c "010" then "" :: getlines text'
      else match getlines text' with
           | [] => [String c ""]
           | line :: lines => String c line :: lines
           end
  end.

(** An [istringstream]: the characters not yet read and [failbit]. *)
Record istringstream := mkStream {
  unread : string;
  failbit : bool
}.

Fixpoint skipws (s : string) : string :=
  match s with
  | EmptyString => ""
  | String c s' => if isspace c then skipws s' else s
  end.

(** The longest prefix without white space, and what follows it. *)
Fixpoint word (s : string) : string * string :=
  match s with
  | EmptyString => ("", "")
  | String c s' =>
      if isspace c then ("", s)
      else let '(w, r) := word s' in (String c w, r)
  end.

(** [stream >> var] for a [string]: a failed stream is left alone and so
    is [var]; at the end of the line the extraction fails. *)
Definition extract_string (var : string) (s : istringstream) : string * istringstream :=
  if failbit s then (var, s)
  else match skipws (unread s) with
       | EmptyString => (var, mkStream "" true)
       | rest => let '(w, r) := word rest in (w, mkStream r false)
       end.

(** The conversion [std::num_get] performs on the characters after the
    white space: a value and the characters left, or a failure together
    with the value that is stored all the same. *)
Inductive conversion (A : Type) :=
  | Converted (v : A) (rest : string)
  | NotConverted (stored : A).
Arguments Converted {A} v rest.
Arguments NotConverted {A} stored.

Class num_get := {
  get_double : string -> conversion float;
  get_int : string -> conversion Z
}.

(** [stream >> var] for a number.  [var] is [None] while the variable has
    never been written. *)
Definition extract_number {A} (get : string -> conversion A) (var : option A)
    (s : istringstream) : option A * istringstream :=
  if failbit s then (var, s)
  else match skipws (unread s) with
       | EmptyString => (var, mkStream "" true)
       | rest =>
           match get rest with
           | Converted v r => (Some v, mkStream r false)
           | NotConverted v => (Some v, mkStream rest true)
           end
       end.

Section Load.
Context `{num_get}.

(** [header >> label >> eq >> file_precision]. *)
Definition read_header (line : string) : option Z :=
  let s := mkStream line false in
  let '(label, s) := extract_string "" s in
  let '(eq, s) := extract_string "" s in
  let '(file_precision, s) := extract_number get_int None s in
  file_precision.

(** [stream >> name >> eq >> value >> is_const_str >> eq >> is_const]. *)
Definition read_entry (line : string) : string * option float * option Z :=
  let s := mkStream line false in
  let '(name, s) := extract_string "" s in
  let '(eq, s) := extract_string "" s in
  let '(value, s) := extract_number get_double None s in
  let '(is_const_str, s) := extract_string "" s in
  let '(eq, s) := extract_string eq s in
  let '(is_const, s) := extract_number get_int None s in
  (name, value, is_const).

(** The menu after the header line; it returns the answers left. *)
Fixpoint apply_file_precision (file_precision : Z) (answers : list Z) : M (list Z) :=
  match answers with
  | [] => undefined
  | option :: rest =>
      if option =? 1 then set_precision_int file_precision ;; ret rest
      else if option =? 2 then ret rest
      else apply_file_precision file_precision rest
  end.

(** The [do ... while (is_declared(new_name))] loop of the third choice. *)
Fixpoint fresh_file_name (fuel : nat) (name : string) (rename_attempts : Z) : M string :=
  match fuel with
  | O => out_of_fuel
  | S n =>
      let new_name :=
        name +:+ "_file"
        +:+ (if 0 <? rename_attempts then to_string rename_attempts else "") in
      declared <- is_declared new_name ;;
      if declared then fresh_file_name n name (rename_attempts + 1) else ret new_name
  end.

(** The menu shown for a name that is already declared. *)
Fixpoint resolve_conflict (fuel : nat) (name : string) (value : float)
    (is_const : Z) (answers : list Z) : M (list Z) :=
  match answers with
  | [] => undefined
  | option :: rest =>
      if option =? 1 then ret rest
      else if option =? 2 then
        (fun st =>
           (Ret tt,
            with_names
              (<[name := Value.mk name value (negb (is_const =? 0))]> (names st)) st)) ;;
        ret rest
      else if option =? 3 then
        new_name <- fresh_file_name fuel name 0 ;;
        define_name new_name value (negb (is_const =? 0)) ;;
        ret rest
      else resolve_conflict fuel name value is_const rest
  end.

(** One round of [while (getline(in, line))]. *)
Definition load_line (fuel : nat) (line : string) (answers : list Z) : M (list Z) :=
  let '(name, value, is_const) := read_entry line in
  if bool_decide (name = "") then ret answers
  else
    match value, is_const with
    | Some value, Some is_const =>
        declared <- is_declared name ;;
        if negb declared then
          define_name name value (negb (is_const =? 0)) ;; ret answers
        else resolve_conflict fuel name value is_const answers
    | _, _ => undefined
    end.

Fixpoint load_lines (fuel : nat) (lines : list string) (answers : list Z) : M unit :=
  match lines with
  | [] => ret tt
  | line :: rest =>
      answers' <- load_line fuel line answers ;;
      load_lines fuel rest answers'
  end.

(** [load_env()].  [file] is the text of [current_filename], [None] when
    it cannot be opened. *)
Definition load_env (fuel : nat) (file : option string) (answers : list Z) : M unit :=
  match file with
  | None => error (nl +:+ "load env: Could not open file for reading" +:+ nl)
  | Some text =>
      match getlines text with
      | [] => ret tt
      | header :: lines =>
          match read_header header with
          | None => undefined
          | Some file_precision =>
              answers' <- apply_file_precision file_precision answers ;;
              load_lines fuel lines answers'
          end
      end
  end.

End Load.

(** ** Library instances for the closed examples

    The theorems below hold for every [cmath] and every [num_get].  The
    examples that run the program on a given input need one of each. *)

(** [n / d], [0 <= n], [0 < d], rounded to the nearest binary64 number,
    ties to even. *)
Definition nearest_double (n d : Z) : float :=
  if n =? 0 then 0%float
  else
    let e1 := Z.log2 n - Z.log2 d - 52 in
    let q1 := if 0 <=? e1 then n / (d * 2 ^ e1) else (n * 2 ^ (- e1)) / d in
    let e := Z.max (if q1 <? 2 ^ 52 then e1 - 1 else e1) (-1074) in
    let q := if 0 <=? e then round_half_even n (d * 2 ^ e)
             else round_half_even (n * 2 ^ (- e)) d in
    match q with
    | Z.pos m => SF2Prim (S754_finite false m e)
    | _ => 0%float
    end.

(** The value and the number of leading decimal digits of [s], and the
    characters after them. *)
Fixpoint leading_digits (s : string) (acc : Z) (count : nat) : Z * nat * string :=
  match s with
  | String c s' =>
      if isdigit c then leading_digits s' (10 * acc + (Z.of_N (N_of_ascii c) - 48)) (S count)
      else (acc, count, s)
  | EmptyString => (acc, count, "")
  end.

Definition leading_sign (s : string) : bool * string :=
  match s with
  | String "-" s' => (true, s')
  | String "+" s' => (false, s')
  | _ => (false, s)
  end.

(** Decimal integers: an optional sign and at least one digit; a value
    outside [int] is stored clamped and the extraction fails. *)
Definition decimal_int (s : string) : conversion Z :=
  let '(neg, s1) := leading_sign s in
  let '(v, count, rest) := leading_digits s1 0 0 in
  if bool_decide (count = 0%nat) then NotConverted 0
  else
    let z := if neg then - v else v in
    if z <? -2147483648 then NotConverted (-2147483648)
    else if 2147483647 <? z then NotConverted 2147483647
    else Converted z rest.

(** Decimal floating literals: sign, digits with an optional point, and
    an optional exponent; the value is the nearest binary64 number. *)
Definition decimal_double (s : string) : conversion float :=
  let '(neg, s1) := leading_sign s in
  let '(int_part, int_count, s2) := leading_digits s1 0 0 in
  let '(mantissa, frac_count, s3) :=
    match s2 with
    | String "." s2' => leading_digits s2' int_part 0
    | _ => (int_part, 0%nat, s2)
    end in
  if bool_decide ((int_count + frac_count)%nat = 0%nat) then NotConverted 0%float
  else
    let finish (e10 : Z) (rest : string) :=
      let magnitude :=
        if 0 <=? e10 then nearest_double (mantissa * 10 ^ e10) 1
        else nearest_double mantissa (10 ^ (- e10)) in
      Converted (if neg then (- magnitude)%float else magnitude) rest in
    match s3 with
    | String c s4 =>
        if bool_decide (c = "e"%char) || bool_decide (c = "E"%char) then
          let '(eneg, s5) := leading_sign s4 in
          let '(ev, ecount, s6) := leading_digits s5 0 0 in
          if bool_decide (ecount = 0%nat) then NotConverted 0%float
          else finish ((if eneg then - ev else ev) - Z.of_nat frac_count) s6
        else finish (- Z.of_nat frac_count) s3
    | EmptyString => finish (- Z.of_nat frac_count) s3
    end.

Definition decimal_num_get : num_get :=
  {| get_double := decimal_double; get_int := decimal_int |}.

(** [fmod] is exact: the remainder of the magnitudes, with the sign of
    the dividend. *)
Definition exact_fmod (x y : float) : float :=
  match Prim2SF x, Prim2SF y with
  | S754_nan, _ | _, S754_nan => nan
  | S754_infinity _, _ | _, S754_zero _ => nan
  | S754_zero _, _ | _, S754_infinity _ => x
  | S754_finite sx mx ex, S754_finite _ my ey =>
      let e := Z.min ex ey in
      let r := (Z.pos mx * 2 ^ (ex - e)) mod (Z.pos my * 2 ^ (ey - e)) in
      match r with
      | Z.pos m => SF2Prim (S754_finite sx m e)
      | _ => SF2Prim (S754_zero sx)
      end
  end.

(** [pow] for a whole exponent between 0 and 1023, by repeated
    multiplication, which is exact while the products are. *)
Definition whole_pow (x y : float) : float :=
  match static_cast_int y with
  | Some n =>
      if (0 <=? n) && (n <? 1024) && (PrimFloat.of_uint63 (Uint63.of_Z n) =? y)%float
      then Nat.iter (Z.to_nat n) (fun acc => (acc * x)%float) 1%float
      else nan
  | None => nan
  end.

(** The transcendental entries are never called by the examples. *)
Definition sample_cmath : cmath :=
  {| sin := fun _ => nan; cos := fun _ => nan; tan := fun _ => nan;
     asin := fun _ => nan; acos := fun _ => nan; atan := fun _ => nan;
     exp := fun _ => nan; log := fun _ => nan; log10 := fun _ => nan;
     log2 := fun _ => nan; pow := whole_pow; fmod := exact_fmod |}.

(** ** The scanner's table of function names

    The function tokens [Token_stream::get] builds: every name comes with
    the library routine it points to, except [pow], whose pointer is
    null. *)
Definition function_table : list (string * option function_t) :=
  [ ("sin", Some c_sin); ("cos", Some c_cos); ("tan", Some c_tan);
    ("asin", Some c_asin); ("acos", Some c_acos); ("atan", Some c_atan);
    ("exp", Some c_exp); ("pow", None); ("ln", Some c_log);
    ("log10", Some c_log10); ("log2", Some c_log2) ].

(** ** Arithmetic expressions as the grammar derives them

    Expression: Term (('+' | '-') Term)*,
    Term: Primary (('*' | '/' | '%') Primary)*,
    Primary: Number | '(' Expression ')' | '-' Primary | '+' Primary.
    A derivation lists its tokens, and has the value of ordinary
    floating-point arithmetic: operands of one level are combined from
    left to right, factors before terms.  A zero divisor gives no value. *)

Inductive mulop := Times | Divide | Modulo.
Inductive addop := Plus | Minus.

Inductive Primary : Type :=
  | Literal (v : float)
  | Parens (e : Expression)
  | Negative (p : Primary)
  | Positive (p : Primary)
with Factors : Type :=
  | NoFactor
  | Factor (op : mulop) (p : Primary) (more : Factors)
with Term : Type :=
  | MkTerm (p : Primary) (fs : Factors)
with Terms : Type :=
  | NoTerm
  | AddTerm (op : addop) (t : Term) (more : Terms)
with Expression : Type :=
  | MkExpression (t : Term) (ts : Terms).

Definition mulop_symbol (op : mulop) : ascii :=
  match op with Times => "*" | Divide => "/" | Modulo => "%" end.
Definition addop_symbol (op : addop) : ascii :=
  match op with Plus => "+" | Minus => "-" end.

Fixpoint tokens_of_primary (p : Primary) : list Token.t :=
  match p with
  | Literal v => [Token.of_double v]
  | Parens e => Token.of_char "(" :: tokens_of_expression e ++ [Token.of_char ")"]
  | Negative p => Token.of_char "-" :: tokens_of_primary p
  | Positive p => Token.of_char "+" :: tokens_of_primary p
  end
with tokens_of_factors (fs : Factors) : list Token.t :=
  match fs with
  | NoFactor => []
  | Factor op p more =>
      Token.of_char (mulop_symbol op) :: tokens_of_primary p ++ tokens_of_factors more
  end
with tokens_of_term (t : Term) : list Token.t :=
  match t with
  | MkTerm p fs => tokens_of_primary p ++ tokens_of_factors fs
  end
with tokens_of_terms (ts : Terms) : list Token.t :=
  match ts with
  | NoTerm => []
  | AddTerm op t more =>
      Token.of_char (addop_symbol op) :: tokens_of_term t ++ tokens_of_terms more
  end
with tokens_of_expression (e : Expression) : list Token.t :=
  match e with
  | MkExpression t ts => tokens_of_term t ++ tokens_of_terms ts
  end.

Section Arithmetic.
Context `{cmath}.

Definition apply_mulop (op : mulop) (left d : float) : option float :=
  match op with
  | Times => Some (left * d)%float
  | Divide => if (d =? 0)%float then None else Some (left / d)%float
  | Modulo => if (d =? 0)%float then None else Some (fmod left d)
  end.

Definition apply_addop (op : addop) (left v : float) : float :=
  match op with
  | Plus => (left + v)%float
  | Minus => (left - v)%float
  end.

Fixpoint value_of_primary (p : Primary) : option float :=
  match p with
  | Literal v => Some v
  | Parens e => value_of_expression e
  | Negative p => v ← value_of_primary p; Some (- v)%float
  | Positive p => value_of_primary p
  end
with value_of_factors (left : float) (fs : Factors) : option float :=
  match fs with
  | NoFactor => Some left
  | Factor op p more =>
      d ← value_of_primary p;
      left' ← apply_mulop op left d;
      value_of_factors left' more
  end
with value_of_term (t : Term) : option float :=
  match t with
  | MkTerm p fs => left ← value_of_primary p; value_of_factors left fs
  end
with value_of_terms (left : float) (ts : Terms) : option float :=
  match ts with
  | NoTerm => Some left
  | AddTerm op t more =>
      v ← value_of_term t; value_of_terms (apply_addop op left v) more
  end
with value_of_expression (e : Expression) : option float :=
  match e with
  | MkExpression t ts => left ← value_of_term t; value_of_terms left ts
  end.

End Arithmetic.

(** Nested calls and loop rounds the evaluator spends on a derivation. *)
Fixpoint depth_of_primary (p : Primary) : nat :=
  match p with
  | Literal _ => 1
  | Parens e => S (depth_of_expression e)
  | Negative p => S (depth_of_primary p)
  | Positive p => S (depth_of_primary p)
  end
with depth_of_factors (fs : Factors) : nat :=
  match fs with
  | NoFactor => 1
  | Factor _ p more => S (depth_of_primary p + depth_of_factors more)
  end
with depth_of_term (t : Term) : nat :=
  match t with
  | MkTerm p fs => S (depth_of_primary p + depth_of_factors fs)
  end
with depth_of_terms (ts : Terms) : nat :=
  match ts with
  | NoTerm => 1
  | AddTerm _ t more => S (depth_of_term t + depth_of_terms more)
  end
with depth_of_expression (e : Expression) : nat :=
  match e with
  | MkExpression t ts => S (depth_of_term t + depth_of_terms ts)
  end.

(** Induction over the five kinds of derivation at once. *)
Scheme Primary_mut := Induction for Primary Sort Prop
  with Factors_mut := Induction for Factors Sort Prop
  with Term_mut := Induction for Term Sort Prop
  with Terms_mut := Induction for Terms Sort Prop
  with Expression_mut := Induction for Expression Sort Prop.
Combined Scheme derivation_ind
  from Primary_mut, Factors_mut, Term_mut, Terms_mut, Expression_mut.

(** A token that continues neither a term nor an expression. *)
Definition ends_expression (tok : Token.t) : Prop :=
  forall c, c ∈ ["+"; "-"; "*"; "/"; "%"]%char -> Token.is_symbol tok c = false.

(** The tokens [get] will deliver, in order. *)
Definition pending (st : State) : list Scan :=
  (Scanned <$> buffer st) ++ input st.

Definition resume (i : list Scan) (st : State) : State :=
  mkState [] i (names st) (current_precision st).

Definition lookahead (tok : Token.t) (i : list Scan) (st : State) : State :=
  mkState [tok] i (names st) (current_precision st).

(** What the evaluator has to do on the tokens of a derivation: return
    its value, or throw when the derivation has none, having consumed
    exactly those tokens (and peeked at the one that follows a term or an
    expression). *)
Section Specifications.
Context `{cmath}.

Definition evaluates {A} (m : M A) (st : State) (value : option A) (st' : State) : Prop :=
  match value with
  | Some v => m st = (Ret v, st')
  | None => (m st).1 = Throw "divide by zero"
  end.

Definition primary_spec (p : Primary) : Prop :=
  forall fuel st rest,
    (length (buffer st) <= 1)%nat ->
    pending st = (Scanned <$> tokens_of_primary p) ++ rest ->
    (depth_of_primary p <= fuel)%nat ->
    evaluates (primary fuel) st (value_of_primary p) (resume rest st).

Definition factors_spec (fs : Factors) : Prop :=
  forall fuel left st tok rest,
    (length (buffer st) <= 1)%nat ->
    pending st = (Scanned <$> tokens_of_factors fs) ++ Scanned tok :: rest ->
    (forall c, c ∈ ["*"; "/"; "%"]%char -> Token.is_symbol tok c = false) ->
    (depth_of_factors fs <= fuel)%nat ->
    evaluates (term_loop fuel left) st (value_of_factors left fs)
      (lookahead tok rest st).

Definition term_spec (t : Term) : Prop :=
  forall fuel st tok rest,
    (length (buffer st) <= 1)%nat ->
    pending st = (Scanned <$> tokens_of_term t) ++ Scanned tok :: rest ->
    (forall c, c ∈ ["*"; "/"; "%"]%char -> Token.is_symbol tok c = false) ->
    (depth_of_term t <= fuel)%nat ->
    evaluates (term fuel) st (value_of_term t) (lookahead tok rest st).

Definition terms_spec (ts : Terms) : Prop :=
  forall fuel left st tok rest,
    (length (buffer st) <= 1)%nat ->
    pending st = (Scanned <$> tokens_of_terms ts) ++ Scanned tok :: rest ->
    ends_expression tok ->
    (depth_of_terms ts <= fuel)%nat ->
    evaluates (expression_loop fuel left) st (value_of_terms left ts)
      (lookahead tok rest st).

Definition expression_spec (e : Expression) : Prop :=
  forall fuel st tok rest,
    (length (buffer st) <= 1)%nat ->
    pending st = (Scanned <$> tokens_of_expression e) ++ Scanned tok :: rest ->
    ends_expression tok ->
    (depth_of_expression e <= fuel)%nat ->
    evaluates (expression fuel) st (value_of_expression e) (lookahead tok rest st).

End Specifications.

(** The candidates of the third choice, in the order they are tried. *)
Definition file_name (name : string) (attempt : Z) : string :=
  name +:+ "_file" +:+ (if 0 <? attempt then to_string attempt else "").

(** Characters other than the newline. *)
Definition not_newline (c : ascii) : bool := negb (Ascii.eqb c "010").

(** Fixed-point notation with [p] decimals: an optional minus sign, at
    least one digit, a point and exactly [p] digits. *)
Definition fixed_point_notation (p : nat) (s : string) : Prop :=
  exists sign whole decimals,
    s = sign +:+ whole +:+ "." +:+ decimals
    /\ (sign = "" \/ sign = "-")
    /\ whole <> "" /\ all_chars isdigit whole = true
    /\ String.length decimals = p /\ all_chars isdigit decimals = true.

(** Tokens and states for the examples. *)
Definition semicolon : Token.t := Token.of_id Token.print.
Definition pow_token : Token.t := Token.of_function "pow" None.
Definition sin_token : Token.t := Token.of_function "sin" (Some c_sin).

Definition from_tokens (toks : list Token.t) : State :=
  mkState [] (Scanned <$> toks) ∅ 6.

(** ** Notions used by the properties *)

(** Evaluating an expression reads no more than the token stream: the
    table of names and the precision come out as they went in, whether
    the call returns or throws. *)
Definition keeps_globals {A} (m : M A) : Prop :=
  forall st, names (m st).2 = names st
             /\ current_precision (m st).2 = current_precision st.

(** Once a call ends otherwise than by exhausting its budget, a larger
    budget changes nothing. *)
Definition settled {A} (m m' : M A) : Prop :=
  forall st, (m st).1 <> OutOfFuel -> m' st = m st.

(** [m] leaves the entry [n ↦ v] in place, however it ends. *)
Definition keeps_entry (n : string) (v : Value.t) {A} (m : M A) : Prop :=
  forall st, names st !! n = Some v -> names (m st).2 !! n = Some v.

(** ** The scanner

    Below the queue [Token_stream::get] reads [cin] character by
    character; [scan] is that part of it.  [cin] is a stream like the
    ones above, the characters not yet read and [failbit], and it comes
    with the global [current_filename], which the scanner assigns. *)

Definition isalpha (c : ascii) : bool :=
  let n := N_of_ascii c in
  (((65 <=? n) && (n <=? 90)) || ((97 <=? n) && (n <=? 122)))%N.

Definition isalnum (c : ascii) : bool := isalpha c || isdigit c.

(** The longest prefix of characters that satisfy [p], and what follows. *)
Fixpoint span (p : ascii -> bool) (s : string) : string * string :=
  match s with
  | EmptyString => ("", "")
  | String c s' =>
      if p c then let '(w, r) := span p s' in (String c w, r) else ("", s)
  end.

(** [while (cin.get(ch) && p(ch)) w += ch; cin.unget();] on a stream in
    good state.  The character that ends the run is put back; when the
    run reaches the end of input the last [get] fails, [failbit] is set
    and [unget] does nothing. *)
Definition read_while (p : ascii -> bool) (s : string) : string * istringstream :=
  let '(w, r) := span p s in (w, mkStream r (bool_decide (r = ""))).

Record Console := mkConsole {
  cin : istringstream;
  current_filename : string
}.

(** Sequencing for the readers of [cin]. *)
Definition and_then {A B S} (r : outcome A * S) (k : A -> S -> outcome B * S)
    : outcome B * S :=
  match r with
  | (Ret a, s) => k a s
  | (Throw what, s) => (Throw what, s)
  | (Undefined, s) => (Undefined, s)
  | (OutOfFuel, s) => (OutOfFuel, s)
  end.

(** [read_word_after_keyword].  When not a single character can be read
    the local [ch] is tested without ever having been written. *)
Definition read_word_after_keyword (keyword : string) (s : istringstream)
    : outcome string * istringstream :=
  if failbit s then (Undefined, s)
  else if bool_decide (unread s = "") then (Undefined, mkStream "" true)
  else
    let '(next, s') :=
      match skipws (unread s) with
      | EmptyString => ("", mkStream "" true)
      | String ch rest =>
          if isalpha ch then
            let '(w, s') := read_while isalpha rest in (String ch w, s')
          else ("", mkStream (String ch rest) false)
      end in
    if bool_decide (next = "env") then (Ret next, s')
    else (Throw (nl +:+ "Expected 'env' after '" +:+ keyword +:+ "'" +:+ nl), s').

Definition filename_char (c : ascii) : bool :=
  isalpha c || isdigit c || bool_decide (c = "_"%char)
  || bool_decide (c = "."%char) || bool_decide (c = "-"%char).

(** [read_filename].  A first character that is not a letter stays
    consumed. *)
Definition read_filename (command : string) (s : istringstream)
    : outcome string * istringstream :=
  let expected := nl +:+ "Expected filename after '" +:+ command +:+ "'" +:+ nl in
  if failbit s then (Undefined, s)
  else if bool_decide (unread s = "") then (Undefined, mkStream "" true)
  else
    match skipws (unread s) with
    | EmptyString => (Throw expected, mkStream "" true)
    | String ch rest =>
        if isalpha ch then
          let '(w, s') := read_while filename_char rest in (Ret (String ch w), s')
        else (Throw expected, mkStream rest false)
    end.

(** The characters returned as they are. *)
Definition symbols : list ascii := ["("; ")"; "+"; "-"; "*"; "/"; "%"; "="; ","]%char.

Section Scanner.
Context `{num_get}.

(** The word [s] has been read and the stream is [s1]. *)
Definition scan_word (s : string) (s1 : istringstream) (filename : string)
    : outcome Token.t * Console :=
  let at_stream (s' : istringstream) := mkConsole s' filename in
  if bool_decide (s = "quit") then (Ret (Token.of_id Token.quit), at_stream s1)
  else if bool_decide (s = "const") then (Ret (Token.of_id Token.const_token), at_stream s1)
  else if bool_decide (s = "help") then (Ret (Token.of_id Token.help_token), at_stream s1)
  else if bool_decide (s = "precision") then
    (Ret (Token.of_id Token.precision_token), at_stream s1)
  else if bool_decide (s = "set") then
    let '(next, s2) := extract_string "" s1 in
    if bool_decide (next = "precision") then
      (Ret (Token.of_id Token.set_precision_token), at_stream s2)
    else (Throw "Expected 'precision' after 'set'", at_stream s2)
  else if bool_decide (s = "show") then
    let '(r, s2) := and_then (read_word_after_keyword "show" s1)
                      (fun _ s2 => (Ret (Token.of_id Token.show_env_token), s2)) in
    (r, at_stream s2)
  else if bool_decide (s = "save") then
    match and_then (read_word_after_keyword "save" s1)
            (fun _ s2 => read_filename "save" s2) with
    | (Ret name, s3) => (Ret (Token.of_id Token.save_env_token), mkConsole s3 name)
    | (Throw what, s3) => (Throw what, at_stream s3)
    | (Undefined, s3) => (Undefined, at_stream s3)
    | (OutOfFuel, s3) => (OutOfFuel, at_stream s3)
    end
  else if bool_decide (s = "load") then
    match and_then (read_word_after_keyword "load" s1)
            (fun _ s2 => read_filename "load" s2) with
    | (Ret name, s3) => (Ret (Token.of_id Token.load_env_token), mkConsole s3 name)
    | (Throw what, s3) => (Throw what, at_stream s3)
    | (Undefined, s3) => (Undefined, at_stream s3)
    | (OutOfFuel, s3) => (OutOfFuel, at_stream s3)
    end
  else if bool_decide (s = "sin") then (Ret (Token.of_function s (Some c_sin)), at_stream s1)
  else if bool_decide (s = "cos") then (Ret (Token.of_function s (Some c_cos)), at_stream s1)
  else if bool_decide (s = "tan") then (Ret (Token.of_function s (Some c_tan)), at_stream s1)
  else if bool_decide (s = "asin") then (Ret (Token.of_function s (Some c_asin)), at_stream s1)
  else if bool_decide (s = "acos") then (Ret (Token.of_function s (Some c_acos)), at_stream s1)
  else if bool_decide (s = "atan") then (Ret (Token.of_function s (Some c_atan)), at_stream s1)
  else if bool_decide (s = "exp") then (Ret (Token.of_function s (Some c_exp)), at_stream s1)
  else if bool_decide (s = "pow") then (Ret (Token.of_function s None), at_stream s1)
  else if bool_decide (s = "ln") then (Ret (Token.of_function s (Some c_log)), at_stream s1)
  else if bool_decide (s = "log10") then (Ret (Token.of_function s (Some c_log10)), at_stream s1)
  else if bool_decide (s = "log2") then (Ret (Token.of_function s (Some c_log2)), at_stream s1)
  else (Ret (Token.of_name s), at_stream s1).

(** [Token_stream::get] with an empty queue.  At the end of input the
    [do ... while (isspace(ch))] loop tests a character that was never
    read, or goes round for ever on the last blank: no token comes out.
    A number is read by [cin >> val] from its first character on. *)
Definition scan (c : Console) : outcome Token.t * Console :=
  if failbit (cin c) then (Undefined, c)
  else
    match skipws (unread (cin c)) with
    | EmptyString => (Undefined, c)
    | String ch rest =>
        let after := mkConsole (mkStream rest false) (current_filename c) in
        if bool_decide (ch ∈ symbols) then (Ret (Token.of_char ch), after)
        else if bool_decide (ch = ";"%char) then (Ret (Token.of_id Token.print), after)
        else if bool_decide (ch = "."%char) || isdigit ch then
          match get_double (String ch rest) with
          | Converted val r =>
              (Ret (Token.of_double val),
               mkConsole (mkStream r false) (current_filename c))
          | NotConverted val =>
              (Ret (Token.of_double val),
               mkConsole (mkStream (String ch rest) true) (current_filename c))
          end
        else if isalpha ch then
          let '(w, s1) := read_while isalnum rest in
          scan_word (String ch w) s1 (current_filename c)
        else (Throw "Bad token", after)
    end.

(** The results of [rounds] successive calls on an empty queue, up to the
    first that throws or yields nothing: what the [input] of a [State]
    stands for. *)
Fixpoint scans (rounds : nat) (c : Console) : list Scan :=
  match rounds with
  | O => []
  | S n =>
      match scan c with
      | (Ret tok, c') => Scanned tok :: scans n c'
      | (Throw what, _) => [Rejected what]
      | _ => []
      end
  end.

End Scanner.

(** [Token_stream::ignore]: the queue is emptied up to a [quit] token; if
    there was none, input is discarded up to the next [';'].  [cin >> ch]
    delivers the characters that are not white space, one per round. *)
Fixpoint drain (buffer : list Token.t) : bool * list Token.t :=
  match buffer with
  | [] => (false, [])
  | t :: b =>
      if bool_decide (Token.kind t = Token.quit) then (true, b) else drain b
  end.

Fixpoint skip_statement (s : string) : istringstream :=
  match s with
  | EmptyString => mkStream "" true
  | String ch s' =>
      if bool_decide (ch = ";"%char) then mkStream s' false else skip_statement s'
  end.

Definition ignore (buffer : list Token.t) (s : istringstream)
    : list Token.t * istringstream :=
  match drain buffer with
  | (true, b) => (b, s)
  | (false, _) => ([], if failbit s then s else skip_statement (unread s))
  end.

(** ** Words and runs of characters *)

(** A string that is empty or starts with a character outside [p]: it
    ends a run of characters of [p]. *)
Definition stops (p : ascii -> bool) (rest : string) : Prop :=
  match rest with
  | EmptyString => True
  | String c _ => p c = false
  end.

Definition blank (s : string) : Prop := all_chars isspace s = true.

Definition nonblank (c : ascii) : bool := negb (isspace c).

Definition not_semicolon (c : ascii) : bool := negb (bool_decide (c = ";"%char)).

(** A letter followed by letters and digits. *)
Definition identifier (s : string) : Prop :=
  match s with
  | EmptyString => False
  | String c w => isalpha c = true /\ all_chars isalnum w = true
  end.

(** The words the scanner does not return as names. *)
Definition keywords : list string :=
  ["quit"; "const"; "help"; "precision"; "set"; "show"; "save"; "load"].

Definition reserved (s : string) : Prop :=
  s ∈ keywords \/ s ∈ function_table.*1.

(** A file name as [read_filename] accepts it. *)
Definition is_filename (s : string) : Prop :=
  match s with
  | EmptyString => False
  | String c w => isalpha c = true /\ all_chars filename_char w = true
  end.

(** A key that a line of a saved file can carry: a word without white
    space. *)
Definition is_word (s : string) : Prop := s <> "" /\ all_chars nonblank s = true.

Definition not_quit (t : Token.t) : Prop := Token.kind t <> Token.quit.

(** ** Reading back what was saved *)

(** An answer the menu after the header does not offer. *)
Definition not_offered (option : Z) : Prop := option <> 1 /\ option <> 2.

(** The flag written for [is_const]. *)
Definition flag (v : Value.t) : string := if Value.is_const v then "1" else "0".

(** The entry a line of [save env] is read back as, [reread] being what
    the number reader makes of a written value. *)
Definition read_back (reread : float -> float) (entry : string * Value.t)
    : string * Value.t :=
  (entry.1, Value.mk entry.1 (reread (Value.value entry.2)) (Value.is_const entry.2)).

(** The number reader converts the value of [v] as [save env] writes it
    with precision [P], and stops at the blank that follows. *)
Definition converts_back `{num_get} (P : Z) (negative : bool)
    (reread : float -> float) (v : Value.t) : Prop :=
  get_double (fixed P negative (Value.value v) +:+ " is_const = " +:+ flag v)
  = Converted (reread (Value.value v)) (" is_const = " +:+ flag v).

(** ** Names replaced by their values *)

(** The number token a declared name stands for; any other token is
    left as it is. *)
Definition value_token (m : gmap string Value.t) (t : Token.t) : Token.t :=
  if bool_decide (Token.kind t = Token.name_token) then
    match m !! Token.name t with
    | Some v => Token.of_double (Value.value v)
    | None => t
    end
  else t.

Definition value_scan (m : gmap string Value.t) (s : Scan) : Scan :=
  match s with
  | Scanned t => Scanned (value_token m t)
  | Rejected what => Rejected what
  end.

(** The state in which every declared name still to be read has been
    replaced by its value. *)
Definition with_values (st : State) : State :=
  mkState (value_token (names st) <$> buffer st)
          (value_scan (names st) <$> input st)
          (names st) (current_precision st).

(** On a table [m0], [m'] does on the state with values what [m] does on
    the state with names. *)
Definition mirrors (m0 : gmap string Value.t) {A} (m m' : M A) : Prop :=
  forall st, names st = m0 ->
    m' (with_values st) = ((m st).1, with_values (m st).2)
    /\ names (m st).2 = m0.

(** ** Relations between the state before and after a command *)

(** [m] takes every state to one that [R] relates to it, however it
    ends. *)
Definition advances (R : State -> State -> Prop) {A} (m : M A) : Prop :=
  forall st, R st (m st).2.

(** The names declared in [st] are declared in [st']. *)
Definition declared_stay (st st' : State) : Prop :=
  forall n, is_Some (names st !! n) -> is_Some (names st' !! n).

Definition same_precision (st st' : State) : Prop :=
  current_precision st' = current_precision st.

Definition precision_in_range (st : State) : Prop :=
  0 <= current_precision st <= 20.

Definition range_is_kept (st st' : State) : Prop :=
  precision_in_range st -> precision_in_range st'.

(** * Properties *)

(** ** Sequencing *)

Lemma bind_Ret {A B} (m : M A) (k : A -> M B) st a st' :
  m st = (Ret a, st') -> bind m k st = k a st'.
Proof. unfold bind. by intros ->. Qed.

Lemma ret_bind {A B} (a : A) (k : A -> M B) : bind (ret a) k = k a.
Proof. done. Qed.

(** ** The token stream *)

Lemma get_keeps_globals st r st' :
  get st = (r, st') ->
  names st' = names st /\ current_precision st' = current_precision st.
Proof.
  unfold get. intros Hg.
  destruct (buffer st); [destruct (input st) as [|[]]|]; by simplify_eq.
Qed.




(** ** Precision *)

(** What [set_precision()] does with the token it reads.  Anything but a
    number is refused.  For a number, let [N] be the integer its value
    converts to: when [N] lies outside [0, 20] the command throws and the
    precision in force stays what it was; when [N] lies inside, the
    precision becomes [N]. *)
Lemma set_precision_on_token (st st1 : State) (t : Token.t) :
  get st = (Ret t, st1) ->
  (Token.kind t <> Token.number ->
     set_precision st = (Throw "Expected a number after 'set precision'", st1))
  /\ (Token.kind t = Token.number ->
      forall N, static_cast_int (Token.value t) = Some N ->
        (N < 0 \/ 20 < N ->
           set_precision st = (Throw "Precision must be between 0 and 20", st1))
        /\ (0 <= N <= 20 ->
           set_precision st = (Ret tt, with_precision N st1)))
  /\ current_precision st1 = current_precision st.
Proof.
  intros Hget. unfold set_precision.
  rewrite (bind_Ret _ _ _ _ _ Hget).
  split; [|split; [|by apply (get_keeps_globals _ _ _ Hget)]].
  - intros Hkind. by rewrite bool_decide_eq_false_2.
  - intros Hkind N Hcast. rewrite Hkind. simpl.
    unfold bind at 1. simpl. rewrite Hcast.
    split.
    + intros Hout.
      assert (out_of_range N = true) as ->; [|done].
      unfold out_of_range. apply orb_true_iff.
      destruct Hout; [left; by apply Z.ltb_lt|right; by apply Z.ltb_lt].
    + intros [Hlo Hhi].
      assert (out_of_range N = false) as ->; [|done].
      unfold out_of_range. apply orb_false_iff.
      split; apply Z.ltb_ge; lia.
Qed.

(** ** Globals and fuel *)

Lemma keeps_bind {A B} (m : M A) (k : A -> M B) :
  keeps_globals m -> (forall a, keeps_globals (k a)) -> keeps_globals (bind m k).
Proof.
  intros Hm Hk st. unfold bind. specialize (Hm st).
  destruct (m st) as [[a| | |] st1]; simpl in *; try done.
  destruct (Hk a st1) as [-> ->]. done.
Qed.

Lemma keeps_ret {A} (a : A) : keeps_globals (ret a).
Proof. done. Qed.

Lemma keeps_error {A} s : keeps_globals (@error A s).
Proof. done. Qed.

Lemma keeps_error2 {A} s s2 : keeps_globals (@error2 A s s2).
Proof. done. Qed.

Lemma keeps_out_of_fuel {A} : keeps_globals (@out_of_fuel A).
Proof. done. Qed.

Lemma keeps_when c m : keeps_globals m -> keeps_globals (when c m).
Proof. by destruct c. Qed.

Lemma keeps_get : keeps_globals get.
Proof.
  intros st. destruct (get st) as [r st'] eqn:Hg.
  by apply get_keeps_globals in Hg.
Qed.

Lemma keeps_unget tok : keeps_globals (unget tok).
Proof. done. Qed.

Lemma keeps_get_value s : keeps_globals (get_value s).
Proof. intros st. unfold get_value. by destruct (names st !! s). Qed.

Lemma keeps_is_constant s : keeps_globals (is_constant s).
Proof. done. Qed.

Lemma keeps_is_declared s : keeps_globals (is_declared s).
Proof. done. Qed.

Ltac keeps_step :=
  first
    [ apply keeps_ret | apply keeps_error | apply keeps_error2
    | apply keeps_out_of_fuel | apply keeps_get | apply keeps_unget
    | apply keeps_get_value | apply keeps_is_constant | apply keeps_is_declared
    | apply keeps_when
    | apply keeps_bind; [|intros ?]
    | match goal with
      | |- keeps_globals (if ?b then _ else _) => destruct b
      | |- keeps_globals (match ?x with _ => _ end) => destruct x
      end
    | match goal with IH : _ |- _ => apply IH end ].

Lemma settled_refl {A} (m : M A) : settled m m.
Proof. done. Qed.

Lemma settled_trans {A} (m1 m2 m3 : M A) :
  settled m1 m2 -> settled m2 m3 -> settled m1 m3.
Proof.
  intros H12 H23 st Hst. rewrite <- (H12 st Hst). apply H23.
  by rewrite (H12 st Hst).
Qed.

Lemma settled_bind {A B} (m m' : M A) (k k' : A -> M B) :
  settled m m' -> (forall a, settled (k a) (k' a)) ->
  settled (bind m k) (bind m' k').
Proof.
  intros Hm Hk st. unfold bind. intros Hst.
  rewrite (Hm st); [|by destruct (m st) as [[]]].
  destruct (m st) as [[a| | |] st1]; try done.
  by apply Hk.
Qed.

Lemma settled_out_of_fuel {A} (m : M A) : settled out_of_fuel m.
Proof. by intros st []. Qed.

Ltac settled_step :=
  first
    [ apply settled_out_of_fuel
    | match goal with IH : _ |- _ => apply IH end
    | apply settled_bind; [|intros ?]
    | match goal with
      | |- settled (if ?b then _ else _) (if ?b then _ else _) => destruct b
      | |- settled (match ?x with _ => _ end) (match ?x with _ => _ end) =>
          destruct x
      end
    | apply settled_refl ].

(** ** The evaluator: unfolding, globals and fuel *)

Section EvaluatorFacts.
Context `{cmath}.

Lemma expression_S n :
  expression (S n) = (left <- term n ;; expression_loop n left).
Proof. done. Qed.

Lemma expression_loop_S n left :
  expression_loop (S n) left =
  (t <- get ;;
   if Token.is_symbol t "+" then
     v <- term n ;; expression_loop n (left + v)%float
   else if Token.is_symbol t "-" then
     v <- term n ;; expression_loop n (left - v)%float
   else unget t ;; ret left).
Proof. done. Qed.

Lemma term_S n : term (S n) = (left <- primary n ;; term_loop n left).
Proof. done. Qed.

Lemma term_loop_S n left :
  term_loop (S n) left =
  (t <- get ;;
   if Token.is_symbol t "*" then
     v <- primary n ;; term_loop n (left * v)%float
   else if Token.is_symbol t "/" then
     d <- primary n ;;
     when (d =? 0)%float (error "divide by zero") ;;
     term_loop n (left / d)%float
   else if Token.is_symbol t "%" then
     d <- primary n ;;
     when (d =? 0)%float (error "divide by zero") ;;
     term_loop n (fmod left d)
   else unget t ;; ret left).
Proof. done. Qed.

Lemma primary_S n :
  primary (S n) =
  (t <- get ;;
   if Token.is_function t then unget t ;; function_name n
   else if bool_decide (Token.kind t = Token.char_token) then
     if Token.is_symbol t "(" then
       d <- expression n ;;
       t <- get ;;
       when (negb (Token.is_symbol t ")")) (error "'(' expected") ;;
       ret d
     else if Token.is_symbol t "-" then
       v <- primary n ;; ret (- v)%float
     else if Token.is_symbol t "+" then primary n
     else error "primary expected"
   else if bool_decide (Token.kind t = Token.number) then
     ret (Token.value t)
   else if bool_decide (Token.kind t = Token.name_token) then
     get_value (Token.name t)
   else error "primary expected").
Proof. done. Qed.

Lemma function_name_S n :
  function_name (S n) =
  (t <- get ;;
   when (negb (Token.is_function t)) (error "function name expected") ;;
   tt <- get ;;
   when (negb (Token.is_symbol tt "(")) (error "'(' expected") ;;
   d <- expression n ;;
   tt <- get ;;
   if Token.is_symbol tt ")" then
     match Token.function t with
     | Some f => ret (call f d)
     | None => error2 (Token.name t) " needs two arguments"
     end
   else
     when (negb (Token.is_symbol tt ",")) (error "')' expected") ;;
     dd <- expression n ;;
     tt <- get ;;
     if Token.is_symbol tt ")" then
       if bool_decide (Token.name t = "pow") then ret (pow d dd)
       else error2 (Token.name t) " needs only one argument"
     else error "')' expected").
Proof. done. Qed.

Lemma evaluator_keeps_globals fuel :
  keeps_globals (expression fuel)
  /\ (forall left, keeps_globals (expression_loop fuel left))
  /\ keeps_globals (term fuel)
  /\ (forall left, keeps_globals (term_loop fuel left))
  /\ keeps_globals (primary fuel)
  /\ keeps_globals (function_name fuel).
Proof.
  induction fuel as [|n (IHe & IHel & IHt & IHtl & IHp & IHf)].
  { repeat split; intros; apply keeps_out_of_fuel. }
  repeat split; intros;
    rewrite ?expression_S, ?expression_loop_S, ?term_S, ?term_loop_S,
      ?primary_S, ?function_name_S;
    repeat keeps_step.
Qed.

Lemma expression_keeps_globals fuel : keeps_globals (expression fuel).
Proof. apply evaluator_keeps_globals. Qed.

Lemma evaluator_fuel_step fuel :
  settled (expression fuel) (expression (S fuel))
  /\ (forall left, settled (expression_loop fuel left) (expression_loop (S fuel) left))
  /\ settled (term fuel) (term (S fuel))
  /\ (forall left, settled (term_loop fuel left) (term_loop (S fuel) left))
  /\ settled (primary fuel) (primary (S fuel))
  /\ settled (function_name fuel) (function_name (S fuel)).
Proof.
  induction fuel as [|n (IHe & IHel & IHt & IHtl & IHp & IHf)].
  { repeat split; intros; apply settled_out_of_fuel. }
  repeat split; intros.
  - rewrite (expression_S (S n)), (expression_S n). repeat settled_step.
  - rewrite (expression_loop_S (S n)), (expression_loop_S n). repeat settled_step.
  - rewrite (term_S (S n)), (term_S n). repeat settled_step.
  - rewrite (term_loop_S (S n)), (term_loop_S n). repeat settled_step.
  - rewrite (primary_S (S n)), (primary_S n). repeat settled_step.
  - rewrite (function_name_S (S n)), (function_name_S n). repeat settled_step.
Qed.

Lemma expression_fuel_mono n m :
  (n <= m)%nat -> settled (expression n) (expression m).
Proof.
  induction 1 as [|m _ IH]; [apply settled_refl|].
  eapply settled_trans; [apply IH|apply evaluator_fuel_step].
Qed.

Lemma primary_fuel_mono n m :
  (n <= m)%nat -> settled (primary n) (primary m).
Proof.
  induction 1 as [|m _ IH]; [apply settled_refl|].
  eapply settled_trans; [apply IH|apply evaluator_fuel_step].
Qed.

End EvaluatorFacts.

(** ** Statements *)

Section StatementFacts.
Context `{cmath}.

Lemma settled_if {A} (b : bool) (m1 m1' m2 m2' : M A) :
  settled m1 m1' -> settled m2 m2' ->
  settled (if b then m1 else m2) (if b then m1' else m2').
Proof. by destruct b. Qed.

Lemma assign_fuel_mono n m :
  (n <= m)%nat -> settled (assign n) (assign m).
Proof.
  intros Hnm. unfold assign.
  repeat (apply settled_bind; [try apply settled_refl|intros ?]).
  - by apply expression_fuel_mono.
  - apply settled_refl.
Qed.

Lemma constant_assign_fuel_mono n m :
  (n <= m)%nat -> settled (constant_assign n) (constant_assign m).
Proof.
  intros Hnm. unfold constant_assign.
  repeat (apply settled_bind; [try apply settled_refl|intros ?]).
  - by apply expression_fuel_mono.
  - apply settled_refl.
Qed.

Lemma statement_fuel_mono n m :
  (n <= m)%nat -> settled (statement n) (statement m).
Proof.
  intros Hnm. unfold statement.
  apply settled_bind; [apply settled_refl|intros t].
  destruct (Token.kind t);
    repeat first
      [ by apply constant_assign_fuel_mono
      | by apply assign_fuel_mono
      | by apply expression_fuel_mono
      | apply settled_if
      | apply settled_bind; [apply settled_refl|intros ?] ].
Qed.

(** A statement whose evaluation ended within a budget of [n] ends the
    same way within any budget [n + k]. *)
Lemma statement_enough_fuel n k st r :
  statement n st = r -> r.1 <> OutOfFuel -> statement (n + k) st = r.
Proof.
  intros <- Hr. apply (statement_fuel_mono n (n + k)); [lia|done].
Qed.

End StatementFacts.

(** ** Assignment *)

(** Assigning to a declared name that is not const stores the value of
    the expression and then throws. *)
Lemma assign_declared_throws `{cmath} fuel st st1 st2 st3 name v d :
  get st = (Ret (Token.of_name name), st1) ->
  names st !! name = Some v ->
  Value.is_const v = false ->
  get st1 = (Ret (Token.of_char "="), st2) ->
  expression fuel st2 = (Ret d, st3) ->
  assign fuel st
  = (Throw ("set: undefined name " +:+ name),
     with_names (<[name := Value.mk (Value.name v) d false]> (names st3)) st3).
Proof.
  intros Hname Hv Hconst Heq Hd.
  assert (names st3 = names st) as Hnames.
  { destruct (get_keeps_globals _ _ _ Hname) as [H1 _].
    destruct (get_keeps_globals _ _ _ Heq) as [H2 _].
    destruct (expression_keeps_globals fuel st2) as [H3 _].
    rewrite Hd in H3. simpl in H3. congruence. }
  assert (names st1 = names st) as Hnames1
    by apply (get_keeps_globals _ _ _ Hname).
  unfold assign.
  rewrite (bind_Ret _ _ _ _ _ Hname). simpl.
  unfold bind at 1; simpl. unfold bind at 1. unfold is_constant at 1.
  rewrite Hnames1, Hv, Hconst. simpl. rewrite ret_bind.
  rewrite (bind_Ret _ _ _ _ _ Heq). simpl. rewrite ret_bind.
  rewrite (bind_Ret _ _ _ _ _ Hd).
  unfold bind at 1. unfold is_declared at 1.
  rewrite Hnames, Hv. rewrite bool_decide_eq_true_2 by done.
  unfold bind at 1. unfold set_value, bind at 1.
  rewrite Hnames, Hv, Hconst. simpl. reflexivity.
Qed.

(** [C1] fails on the code.  [set_value] never returns: after storing the
    new value of a declared, non-const name it falls through to
    [error("set: undefined name ", s)].  So with [x] declared as 3, the
    statement [x = 5;] stores 5 and then throws
    "set: undefined name x" instead of returning 5. *)
Theorem assignment_to_declared_name_throws `{cmath} :
  (forall s d st, exists what st', set_value s d st = (Throw what, st'))
  /\ forall k,
       statement (4 + k)
         (mkState []
            (Scanned <$> [Token.of_name "x"; Token.of_char "=";
                          Token.of_double 5%float; semicolon])
            {["x" := Value.mk "x" 3%float false]} 6)
       = (Throw "set: undefined name x",
          mkState [semicolon] [] {["x" := Value.mk "x" 5%float false]} 6).
Proof.
  split.
  - intros s d st. unfold set_value, bind.
    destruct (names st !! s) as [v|]; [destruct (Value.is_const v)|];
      simpl; eauto.
  - intros k. apply statement_enough_fuel; [|discriminate].
    vm_compute. reflexivity.
Qed.

(** ** Function calls *)

Lemma function_table_pointer fname f :
  (fname, f) ∈ function_table ->
  if bool_decide (fname = "pow") then f = None else exists g, f = Some g.
Proof.
  unfold function_table. rewrite !elem_of_cons, elem_of_nil.
  intros Hin. repeat destruct Hin as [Hin|Hin]; try done;
    simplify_eq; simpl; eauto.
Qed.

Section FunctionCalls.
Context `{cmath}.

Lemma function_name_one_argument fname f fuel st st1 st2 st3 st4 d :
  get st = (Ret (Token.of_function fname f), st1) ->
  get st1 = (Ret (Token.of_char "("), st2) ->
  expression fuel st2 = (Ret d, st3) ->
  get st3 = (Ret (Token.of_char ")"), st4) ->
  function_name (S fuel) st
  = match f with
    | Some g => (Ret (call g d), st4)
    | None => (Throw (fname +:+ " needs two arguments"), st4)
    end.
Proof.
  intros Ht Hopen Hd Hclose.
  rewrite function_name_S.
  rewrite (bind_Ret _ _ _ _ _ Ht). simpl.
  unfold bind at 1; simpl.
  rewrite (bind_Ret _ _ _ _ _ Hopen). simpl.
  unfold bind at 1; simpl.
  rewrite (bind_Ret _ _ _ _ _ Hd), (bind_Ret _ _ _ _ _ Hclose). simpl.
  by destruct f.
Qed.

Lemma function_name_two_arguments fname f fuel st st1 st2 st3 st4 st5 st6 d dd :
  get st = (Ret (Token.of_function fname f), st1) ->
  get st1 = (Ret (Token.of_char "("), st2) ->
  expression fuel st2 = (Ret d, st3) ->
  get st3 = (Ret (Token.of_char ","), st4) ->
  expression fuel st4 = (Ret dd, st5) ->
  get st5 = (Ret (Token.of_char ")"), st6) ->
  function_name (S fuel) st
  = if bool_decide (fname = "pow") then (Ret (pow d dd), st6)
    else (Throw (fname +:+ " needs only one argument"), st6).
Proof.
  intros Ht Hopen Hd Hcomma Hdd Hclose.
  rewrite function_name_S.
  rewrite (bind_Ret _ _ _ _ _ Ht). simpl.
  unfold bind at 1; simpl.
  rewrite (bind_Ret _ _ _ _ _ Hopen). simpl.
  unfold bind at 1; simpl.
  rewrite (bind_Ret _ _ _ _ _ Hd), (bind_Ret _ _ _ _ _ Hcomma). simpl.
  unfold bind at 1; simpl.
  rewrite (bind_Ret _ _ _ _ _ Hdd), (bind_Ret _ _ _ _ _ Hclose). simpl.
  by case_bool_decide.
Qed.

End FunctionCalls.

(** [C5].  For every function token of the scanner: called with one
    argument, [pow] throws "pow needs two arguments" and any other
    function returns its library routine applied to the argument; called
    with two arguments, [pow] returns the library's [pow] of the two and
    any other function [f] throws "f needs only one argument".  With a
    library in which [pow(2, 10)] is 1024, [pow(2,10)] evaluates to 1024;
    [pow(2)] and [sin(0,1)] throw the two messages. *)
Theorem function_call_arity `{cmath} :
  (forall fname f fuel st st1 st2 st3 st4 d,
     (fname, f) ∈ function_table ->
     get st = (Ret (Token.of_function fname f), st1) ->
     get st1 = (Ret (Token.of_char "("), st2) ->
     expression fuel st2 = (Ret d, st3) ->
     get st3 = (Ret (Token.of_char ")"), st4) ->
     (fname = "pow" ->
        function_name (S fuel) st = (Throw "pow needs two arguments", st4))
     /\ (fname <> "pow" ->
        exists g, f = Some g
                  /\ function_name (S fuel) st = (Ret (call g d), st4)))
  /\ (forall fname f fuel st st1 st2 st3 st4 st5 st6 d dd,
     (fname, f) ∈ function_table ->
     get st = (Ret (Token.of_function fname f), st1) ->
     get st1 = (Ret (Token.of_char "("), st2) ->
     expression fuel st2 = (Ret d, st3) ->
     get st3 = (Ret (Token.of_char ","), st4) ->
     expression fuel st4 = (Ret dd, st5) ->
     get st5 = (Ret (Token.of_char ")"), st6) ->
     (fname = "pow" -> function_name (S fuel) st = (Ret (pow d dd), st6))
     /\ (fname <> "pow" ->
        function_name (S fuel) st
        = (Throw (fname +:+ " needs only one argument"), st6)))
  /\ (pow 2%float 10%float = 1024%float ->
      forall k,
        (statement (10 + k)
           (from_tokens [pow_token; Token.of_char "("; Token.of_double 2%float;
                         Token.of_char ","; Token.of_double 10%float;
                         Token.of_char ")"; semicolon])).1
        = Ret 1024%float)
  /\ (forall k,
        (statement (10 + k)
           (from_tokens [pow_token; Token.of_char "("; Token.of_double 2%float;
                         Token.of_char ")"; semicolon])).1
        = Throw "pow needs two arguments")
  /\ (forall k,
        (statement (10 + k)
           (from_tokens [sin_token; Token.of_char "("; Token.of_double 0%float;
                         Token.of_char ","; Token.of_double 1%float;
                         Token.of_char ")"; semicolon])).1
        = Throw "sin needs only one argument").
Proof.
  split; [|split; [|split; [|split]]].
  - intros fname f fuel st st1 st2 st3 st4 d Hin Ht Hopen Hd Hclose.
    apply function_table_pointer in Hin.
    rewrite (function_name_one_argument _ _ _ _ _ _ _ _ _ Ht Hopen Hd Hclose).
    split.
    + intros ->. simpl in Hin. by subst f.
    + intros Hne. rewrite bool_decide_eq_false_2 in Hin by done.
      destruct Hin as [g ->]. by exists g.
  - intros fname f fuel st st1 st2 st3 st4 st5 st6 d dd
      Hin Ht Hopen Hd Hcomma Hdd Hclose.
    rewrite (function_name_two_arguments _ _ _ _ _ _ _ _ _ _ _ _
               Ht Hopen Hd Hcomma Hdd Hclose).
    split.
    + by intros ->.
    + intros Hne. by rewrite bool_decide_eq_false_2.
  - intros Hpow k.
    rewrite (statement_enough_fuel 10 k _ _ eq_refl); [|vm_compute; discriminate].
    vm_compute. f_equal. exact Hpow.
  - intros k.
    rewrite (statement_enough_fuel 10 k _ _ eq_refl); [|vm_compute; discriminate].
    vm_compute. reflexivity.
  - intros k.
    rewrite (statement_enough_fuel 10 k _ _ eq_refl); [|vm_compute; discriminate].
    vm_compute. reflexivity.
Qed.

Lemma function_call_arity_witness :
  let st := from_tokens [pow_token; Token.of_char "("; Token.of_double 2%float;
                         Token.of_char ","; Token.of_double 10%float;
                         Token.of_char ")"; semicolon] in
  (@pow sample_cmath 2%float 10%float = 1024%float
   /\ (@statement sample_cmath 10 st).1 = Ret 1024%float)
  /\ (("pow", None) ∈ function_table
      /\ @function_name sample_cmath 6 st
         = (Ret 1024%float, mkState [] [Scanned semicolon] ∅ 6)).
Proof.
  split.
  - split; [reflexivity|].
    apply (proj1 (proj2 (proj2 (@function_call_arity sample_cmath))) eq_refl 0%nat).
  - assert (("pow", @None function_t) ∈ function_table) as Hin
      by (unfold function_table; repeat constructor).
    split; [exact Hin|].
    edestruct (proj1 (proj2 (@function_call_arity sample_cmath))
                 "pow" None 5%nat
                 (from_tokens [pow_token; Token.of_char "("; Token.of_double 2%float;
                               Token.of_char ","; Token.of_double 10%float;
                               Token.of_char ")"; semicolon]))
      as [Hpow _]; [exact Hin|reflexivity..|].
    exact (Hpow eq_refl).
Defined.

(** ** Division and remainder *)

Section Division.
Context `{cmath}.

Lemma when_false_bind {A} (m : M unit) (k : M A) st :
  (when false m ;; k) st = k st.
Proof. done. Qed.

Lemma primary_enough_fuel n k st r :
  primary n st = r -> r.1 <> OutOfFuel -> primary (k + n) st = r.
Proof.
  intros <- Hr. apply (primary_fuel_mono n (k + n)); [lia|done].
Qed.

Lemma term_divides fuel st l st1 op st2 d st3 tok st4 :
  primary fuel st = (Ret l, st1) ->
  get st1 = (Ret (Token.of_char op), st2) ->
  op = "/"%char \/ op = "%"%char ->
  primary fuel st2 = (Ret d, st3) ->
  get st3 = (Ret tok, st4) ->
  (forall c, c ∈ ["*"; "/"; "%"]%char -> Token.is_symbol tok c = false) ->
  term (3 + fuel) st
  = if (d =? 0)%float then (Throw "divide by zero", st3)
    else (Ret (if bool_decide (op = "/"%char) then (l / d)%float else fmod l d),
          (unget tok st4).2).
Proof.
  intros Hl Hop Hsym Hd Htok Hend.
  change (3 + fuel)%nat with (S (S (S fuel))).
  rewrite term_S.
  rewrite (bind_Ret _ _ _ _ _ (primary_enough_fuel _ 2 _ _ Hl ltac:(done))).
  rewrite term_loop_S, (bind_Ret _ _ _ _ _ Hop).
  assert (forall (k : float -> float) ,
    (d0 <- primary (S fuel) ;;
     when (d0 =? 0)%float (error "divide by zero") ;;
     term_loop (S fuel) (k d0)) st2
    = if (d =? 0)%float then (Throw "divide by zero", st3)
      else (Ret (k d), (unget tok st4).2)) as Hstep.
  { intros k.
    rewrite (bind_Ret _ _ _ _ _ (primary_enough_fuel _ 1 _ _ Hd ltac:(done))).
    destruct (d =? 0)%float; [done|].
    rewrite when_false_bind.
    rewrite term_loop_S, (bind_Ret _ _ _ _ _ Htok).
    rewrite !Hend by (rewrite !elem_of_cons; auto).
    done. }
  destruct Hsym as [-> | ->]; simpl.
  - apply (Hstep (fun d0 => (l / d0)%float)).
  - apply (Hstep (fun d0 => fmod l d0)).
Qed.

End Division.

(** [C6].  With the left operand evaluating to [l] and the right operand
    to [d], a division or a remainder throws "divide by zero" when
    [d == 0] and returns [l / d], respectively [fmod(l, d)], otherwise:
    the outcome is decided by [d] alone.  [5 / 0;] throws and [0 / 5;]
    evaluates to 0. *)
Theorem division_by_zero `{cmath} :
  (forall fuel st l st1 op st2 d st3 tok st4,
     primary fuel st = (Ret l, st1) ->
     get st1 = (Ret (Token.of_char op), st2) ->
     op = "/"%char \/ op = "%"%char ->
     primary fuel st2 = (Ret d, st3) ->
     get st3 = (Ret tok, st4) ->
     (forall c, c ∈ ["*"; "/"; "%"]%char -> Token.is_symbol tok c = false) ->
     ((d =? 0)%float = true <-> (term (3 + fuel) st).1 = Throw "divide by zero")
     /\ ((d =? 0)%float = false ->
         (term (3 + fuel) st).1
         = Ret (if bool_decide (op = "/"%char) then (l / d)%float else fmod l d)))
  /\ (forall k,
        (statement (10 + k)
           (from_tokens [Token.of_double 5%float; Token.of_char "/";
                         Token.of_double 0%float; semicolon])).1
        = Throw "divide by zero")
  /\ (forall k,
        (statement (10 + k)
           (from_tokens [Token.of_double 5%float; Token.of_char "%";
                         Token.of_double 0%float; semicolon])).1
        = Throw "divide by zero")
  /\ (forall k,
        (statement (10 + k)
           (from_tokens [Token.of_double 0%float; Token.of_char "/";
                         Token.of_double 5%float; semicolon])).1
        = Ret 0%float).
Proof.
  split; [|split; [|split]].
  - intros fuel st l st1 op st2 d st3 tok st4 Hl Hop Hsym Hd Htok Hend.
    rewrite (term_divides _ _ _ _ _ _ _ _ _ _ Hl Hop Hsym Hd Htok Hend).
    destruct (d =? 0)%float; simpl; split; done.
  - intros k.
    rewrite (statement_enough_fuel 10 k _ _ eq_refl); [|vm_compute; discriminate].
    vm_compute. reflexivity.
  - intros k.
    rewrite (statement_enough_fuel 10 k _ _ eq_refl); [|vm_compute; discriminate].
    vm_compute. reflexivity.
  - intros k.
    rewrite (statement_enough_fuel 10 k _ _ eq_refl); [|vm_compute; discriminate].
    vm_compute. reflexivity.
Qed.

Lemma division_by_zero_witness :
  let st := from_tokens [Token.of_double 7%float; Token.of_char "%";
                         Token.of_double 2%float; semicolon] in
  @primary sample_cmath 1 st
    = (Ret 7%float, mkState [] (Scanned <$> [Token.of_char "%";
                         Token.of_double 2%float; semicolon]) ∅ 6)
  /\ (2 =? 0)%float = false
  /\ (@term sample_cmath 4 st).1 = Ret 1%float.
Proof.
  split; [reflexivity|]. split; [reflexivity|].
  edestruct (proj1 (@division_by_zero sample_cmath) 1%nat
               (from_tokens [Token.of_double 7%float; Token.of_char "%";
                             Token.of_double 2%float; semicolon]))
    as [_ Hnonzero]; [reflexivity| reflexivity | right; reflexivity
                      | reflexivity | reflexivity | | ].
  - intros c Hc. rewrite !elem_of_cons, elem_of_nil in Hc.
    destruct Hc as [-> | [-> | [-> | []]]]; reflexivity.
  - exact (Hnonzero eq_refl).
Defined.

(** ** Constants *)

Section Constants.
Context `{cmath}.
Variables (n : string) (v : Value.t).
Hypothesis v_const : Value.is_const v = true.

#[local] Abbreviation keeps_entry := (keeps_entry n v).

Lemma keeps_entry_globals {A} (m : M A) : keeps_globals m -> keeps_entry m.
Proof. intros Hm st Hst. by destruct (Hm st) as [-> _]. Qed.

Lemma keeps_entry_bind {A B} (m : M A) (k : A -> M B) :
  keeps_entry m -> (forall a, keeps_entry (k a)) -> keeps_entry (bind m k).
Proof.
  intros Hm Hk st Hst. unfold bind. specialize (Hm st Hst).
  destruct (m st) as [[a| | |] st1]; simpl in *; try done.
  by apply Hk.
Qed.

Lemma set_value_keeps_entry s d : keeps_entry (set_value s d).
Proof.
  intros st Hst. unfold set_value, bind.
  destruct (names st !! s) as [w|] eqn:Hs; simpl; [|done].
  destruct (Value.is_const w) eqn:Hw; simpl; [done|].
  rewrite lookup_insert_ne; [done|].
  intros ->. rewrite Hst in Hs. simplify_eq. congruence.
Qed.

Lemma store_keeps_entry s d :
  keeps_entry
    (declared <- is_declared s ;;
     (if declared then set_value s d else define_name s d false) ;;
     ret d).
Proof.
  intros st Hst. unfold bind at 1. unfold is_declared at 1.
  case_bool_decide as Hs.
  - apply (keeps_entry_bind (set_value s d) (fun _ => ret d)); [| |done].
    + apply set_value_keeps_entry.
    + intros _ st' Hst'. done.
  - simpl. rewrite lookup_insert_ne; [done|].
    intros ->. apply Hs. by rewrite Hst.
Qed.

Lemma assign_keeps_entry fuel : keeps_entry (assign fuel).
Proof.
  unfold assign.
  repeat first
    [ apply store_keeps_entry
    | apply keeps_entry_bind; [apply keeps_entry_globals|intros ?] ];
    repeat first [ apply expression_keeps_globals | keeps_step ].
Qed.

(** Up to its last step a declaration only reads the stream, so what was
    known about the table when the name was found undeclared still holds
    when the name is defined. *)
Lemma bind_globals_names {A B} (P Q : gmap string Value.t -> Prop)
    (m : M A) (k : A -> M B) :
  keeps_globals m -> (forall x, P x -> Q x) ->
  (forall a st, P (names st) -> Q (names (k a st).2)) ->
  forall st, P (names st) -> Q (names (bind m k st).2).
Proof.
  intros Hm HPQ Hk st Hst. unfold bind.
  destruct (Hm st) as [Hn _].
  destruct (m st) as [[a| | |] st1]; simpl in *;
    try (apply HPQ; congruence).
  apply Hk. congruence.
Qed.

Lemma constant_assign_keeps_entry fuel : keeps_entry (constant_assign fuel).
Proof.
  unfold constant_assign.
  apply keeps_entry_bind; [apply keeps_entry_globals, keeps_get|intros t].
  apply keeps_entry_bind; [apply keeps_entry_globals; repeat keeps_step|intros _].
  intros st Hst. unfold bind at 1. unfold is_declared at 1.
  case_bool_decide as Hs; [done|].
  rewrite when_false_bind.
  set (P := fun x : gmap string Value.t =>
              x !! n = Some v /\ x !! Token.name t = None).
  set (Q := fun x : gmap string Value.t => x !! n = Some v).
  assert (forall x, P x -> Q x) as HPQ by (unfold P, Q; tauto).
  change (Q (names
    ((t0 <- get ;;
      when (negb (Token.is_symbol t0 "=")) (error2 "= missing in assign of " (Token.name t)) ;;
      d <- expression fuel ;; define_name (Token.name t) d true ;; ret d) st).2)).
  apply (bind_globals_names P Q); [apply keeps_get|done| |].
  2:{ split; [done|]. by destruct (names st !! Token.name t); [destruct Hs|]. }
  intros t1.
  apply (bind_globals_names P Q); [repeat keeps_step|done|].
  intros _.
  apply (bind_globals_names P Q); [apply expression_keeps_globals|done|].
  intros d st1 [Hn Hname]. unfold Q. simpl.
  rewrite lookup_insert_ne; [done|]. congruence.
Qed.

Lemma statement_keeps_entry fuel : keeps_entry (statement fuel).
Proof.
  unfold statement.
  apply keeps_entry_bind; [apply keeps_entry_globals, keeps_get|intros t].
  destruct (Token.kind t);
    repeat first
      [ apply constant_assign_keeps_entry
      | apply assign_keeps_entry
      | apply keeps_entry_globals, expression_keeps_globals
      | apply keeps_entry_globals, keeps_unget
      | apply keeps_entry_globals, keeps_get
      | apply keeps_entry_bind; [|intros ?]
      | match goal with |- keeps_entry (if ?b then _ else _) => destruct b end ].
Qed.

End Constants.

(** [C7].  Whatever statement is evaluated (a declaration, an assignment
    or an expression) and however it ends, an entry that is const keeps
    its stored value.  After [const pi = 3.14;] the statement [pi = 1;]
    throws "pi constant cannot be modified" and [pi] still maps to 3.14.
    (The commands that load a file are not statements; their overwrite
    choice replaces entries through [names[name] = Value(...)].) *)
Theorem const_entries_survive_statements `{cmath} :
  (forall fuel st n v,
     names st !! n = Some v -> Value.is_const v = true ->
     names (statement fuel st).2 !! n = Some v)
  /\ (forall k,
        let declared :=
          statement (10 + k)
            (from_tokens [Token.of_id Token.const_token; Token.of_name "pi";
                          Token.of_char "="; Token.of_double 3.14%float;
                          semicolon]) in
        declared.1 = Ret 3.14%float
        /\ names declared.2 = {["pi" := Value.mk "pi" 3.14%float true]}
        /\ let assigned :=
             statement (10 + k)
               (mkState []
                  (Scanned <$> [Token.of_name "pi"; Token.of_char "=";
                                Token.of_double 1%float; semicolon])
                  (names declared.2) 6) in
           assigned.1 = Throw "pi constant cannot be modified"
           /\ names assigned.2 !! "pi" = Some (Value.mk "pi" 3.14%float true)).
Proof.
  split.
  - intros fuel st n v Hn Hv. by apply statement_keeps_entry.
  - intros k.
    rewrite (statement_enough_fuel 10 k _ _ eq_refl); [|vm_compute; discriminate].
    cbv zeta.
    split; [vm_compute; reflexivity|].
    split; [vm_compute; reflexivity|].
    rewrite (statement_enough_fuel 10 k _ _ eq_refl); [|vm_compute; discriminate].
    split; vm_compute; reflexivity.
Qed.

Lemma const_entries_survive_statements_witness :
  let pi := Value.mk "pi" 3.14%float true in
  let st := mkState []
              (Scanned <$> [Token.of_name "pi"; Token.of_char "=";
                            Token.of_double 1%float; semicolon])
              {["pi" := pi]} 6 in
  names st !! "pi" = Some pi
  /\ Value.is_const pi = true
  /\ names (@statement sample_cmath 10 st).2 !! "pi" = Some pi.
Proof.
  split; [reflexivity|]. split; [reflexivity|].
  apply (proj1 (@const_entries_survive_statements sample_cmath));
    reflexivity.
Defined.

(** ** Arithmetic expressions *)

Lemma get_pending st tok rest :
  (length (buffer st) <= 1)%nat ->
  pending st = Scanned tok :: rest ->
  get st = (Ret tok, resume rest st).
Proof.
  unfold pending, get, resume. destruct st as [b i nm pr]; simpl.
  destruct b as [|t [|t' b]]; simpl; intros Hlen Hp; [| |lia].
  - by subst i.
  - by simplify_eq.
Qed.

Lemma lookahead_resume tok i j st :
  lookahead tok i (resume j st) = lookahead tok i st.
Proof. done. Qed.

Lemma lookahead_lookahead tok i tok' j st :
  lookahead tok i (lookahead tok' j st) = lookahead tok i st.
Proof. done. Qed.

Lemma bind_fst_Throw {A B} (m : M A) (k : A -> M B) st what :
  (m st).1 = Throw what -> (bind m k st).1 = Throw what.
Proof.
  unfold bind. destruct (m st) as [[] ?]; simpl; intros; by simplify_eq.
Qed.

Lemma ends_expression_not_mulop tok :
  ends_expression tok ->
  forall c, c ∈ ["*"; "/"; "%"]%char -> Token.is_symbol tok c = false.
Proof.
  intros Hend c Hc. apply Hend.
  rewrite !elem_of_cons in *. tauto.
Qed.

Lemma addop_not_mulop op c :
  c ∈ ["*"; "/"; "%"]%char ->
  Token.is_symbol (Token.of_char (addop_symbol op)) c = false.
Proof.
  rewrite !elem_of_cons, elem_of_nil.
  intros [-> | [-> | [-> | []]]]; by destruct op.
Qed.

(** What follows the terms of an expression starts with a token that
    does not continue a term. *)
Lemma after_term ts tok rest :
  ends_expression tok ->
  exists tok' rest',
    (Scanned <$> tokens_of_terms ts) ++ Scanned tok :: rest = Scanned tok' :: rest'
    /\ forall c, c ∈ ["*"; "/"; "%"]%char -> Token.is_symbol tok' c = false.
Proof.
  intros Hend. destruct ts as [|op t more]; simpl.
  - exists tok, rest. split; [done|]. by apply ends_expression_not_mulop.
  - eexists _, _. split; [done|]. apply addop_not_mulop.
Qed.

Ltac side := try done; try (simpl; lia).

Section Derivations.
Context `{cmath}.

Lemma evaluates_bind {A B} (m : M A) (k : A -> M B) st (a : option A) st1
    (f : A -> option B) st2 :
  evaluates m st a st1 ->
  (forall x, a = Some x -> evaluates (k x) st1 (f x) st2) ->
  evaluates (bind m k) st (a ≫= f) st2.
Proof.
  intros Hm Hk. destruct a as [x|]; simpl in *.
  - unfold evaluates in *. specialize (Hk x eq_refl).
    rewrite (bind_Ret _ _ _ _ _ Hm). done.
  - by apply bind_fst_Throw.
Qed.

Lemma derivations_evaluate :
  (forall p, primary_spec p) /\ (forall fs, factors_spec fs)
  /\ (forall t, term_spec t) /\ (forall ts, terms_spec ts)
  /\ (forall e, expression_spec e).
Proof.
  apply derivation_ind.
  - (* Literal *)
    intros v [|n] st rest Hb Hp Hfuel; simpl in Hfuel; [lia|].
    simpl in Hp. unfold evaluates; simpl value_of_primary.
    rewrite primary_S, (bind_Ret _ _ _ _ _ (get_pending _ _ _ Hb Hp)). done.
  - (* Parens *)
    intros e IHe [|n] st rest Hb Hp Hfuel; simpl in Hfuel; [lia|].
    simpl in Hp. rewrite fmap_app, <- app_assoc in Hp. simpl in Hp.
    rewrite primary_S.
    eapply (evaluates_bind _ _ _ (Some _) _ (fun _ => value_of_expression e)).
    { apply (get_pending _ _ _ Hb Hp). }
    intros t [= <-]. simpl.
    replace (value_of_expression e)
      with (value_of_expression e ≫= (fun d => Some d))
      by (by destruct (value_of_expression e)).
    eapply evaluates_bind.
    { apply (IHe n (resume _ st) (Token.of_char ")") rest); side.
      intros c Hc. rewrite !elem_of_cons, elem_of_nil in Hc.
      by repeat destruct Hc as [->|Hc]. }
    intros d _. unfold evaluates.
    rewrite lookahead_resume.
    rewrite (bind_Ret _ _ _ _ _
               (get_pending (lookahead (Token.of_char ")") rest st) _ rest
                  ltac:(done) eq_refl)).
    done.
  - (* Negative *)
    intros p IHp [|n] st rest Hb Hp Hfuel; simpl in Hfuel; [lia|].
    simpl in Hp. rewrite primary_S.
    eapply (evaluates_bind _ _ _ (Some _) _
              (fun _ => value_of_primary (Negative p))).
    { apply (get_pending _ _ _ Hb Hp). }
    intros t [= <-]. simpl.
    eapply evaluates_bind.
    { apply (IHp n (resume _ st) rest); side. }
    intros v _. done.
  - (* Positive *)
    intros p IHp [|n] st rest Hb Hp Hfuel; simpl in Hfuel; [lia|].
    simpl in Hp. rewrite primary_S.
    eapply (evaluates_bind _ _ _ (Some _) _
              (fun _ => value_of_primary (Positive p))).
    { apply (get_pending _ _ _ Hb Hp). }
    intros t [= <-]. simpl.
    apply (IHp n (resume _ st) rest); side.
  - (* NoFactor *)
    intros [|n] left st tok rest Hb Hp Hend Hfuel; simpl in Hfuel; [lia|].
    simpl in Hp. unfold evaluates; simpl value_of_factors.
    rewrite term_loop_S, (bind_Ret _ _ _ _ _ (get_pending _ _ _ Hb Hp)).
    rewrite !Hend by (rewrite !elem_of_cons; auto).
    done.
  - (* Factor *)
    intros op p IHp more IHmore [|n] left st tok rest Hb Hp Hend Hfuel;
      simpl in Hfuel; [lia|].
    simpl in Hp. rewrite fmap_app, <- app_assoc in Hp.
    rewrite term_loop_S.
    eapply (evaluates_bind _ _ _ (Some _) _
              (fun _ => value_of_factors left (Factor op p more))).
    { apply (get_pending _ _ _ Hb Hp). }
    intros t [= <-].
    destruct op; simpl.
    + eapply evaluates_bind.
      { apply (IHp n (resume _ st)); side. }
      intros d _. simpl.
      rewrite <- (lookahead_resume tok rest
                    ((Scanned <$> tokens_of_factors more) ++ Scanned tok :: rest) st).
      apply IHmore; side.
    + eapply evaluates_bind.
      { apply (IHp n (resume _ st)); side. }
      intros d _. simpl. unfold apply_mulop.
      destruct (d =? 0)%float; simpl; [done|].
      rewrite ret_bind.
      rewrite <- (lookahead_resume tok rest
                    ((Scanned <$> tokens_of_factors more) ++ Scanned tok :: rest) st).
      apply IHmore; side.
    + eapply evaluates_bind.
      { apply (IHp n (resume _ st)); side. }
      intros d _. simpl. unfold apply_mulop.
      destruct (d =? 0)%float; simpl; [done|].
      rewrite ret_bind.
      rewrite <- (lookahead_resume tok rest
                    ((Scanned <$> tokens_of_factors more) ++ Scanned tok :: rest) st).
      apply IHmore; side.
  - (* MkTerm *)
    intros p IHp fs IHfs [|n] st tok rest Hb Hp Hend Hfuel;
      simpl in Hfuel; [lia|].
    simpl in Hp. rewrite fmap_app, <- app_assoc in Hp.
    rewrite term_S. simpl.
    eapply evaluates_bind.
    { apply (IHp n st); side. }
    intros left _.
    rewrite <- (lookahead_resume tok rest
                  ((Scanned <$> tokens_of_factors fs) ++ Scanned tok :: rest) st).
    apply IHfs; side.
  - (* NoTerm *)
    intros [|n] left st tok rest Hb Hp Hend Hfuel; simpl in Hfuel; [lia|].
    simpl in Hp. unfold evaluates; simpl value_of_terms.
    rewrite expression_loop_S, (bind_Ret _ _ _ _ _ (get_pending _ _ _ Hb Hp)).
    rewrite !Hend by (rewrite !elem_of_cons; auto).
    done.
  - (* AddTerm *)
    intros op t IHt more IHmore [|n] left st tok rest Hb Hp Hend Hfuel;
      simpl in Hfuel; [lia|].
    simpl in Hp. rewrite fmap_app, <- app_assoc in Hp.
    destruct (after_term more tok rest Hend) as (tok' & rest' & Hnext & Hnot).
    rewrite Hnext in Hp.
    rewrite expression_loop_S.
    eapply (evaluates_bind _ _ _ (Some _) _
              (fun _ => value_of_terms left (AddTerm op t more))).
    { apply (get_pending _ _ _ Hb Hp). }
    intros t0 [= <-].
    destruct op; simpl.
    + eapply evaluates_bind.
      { apply (IHt n (resume _ st) tok' rest'); side. }
      intros v _. rewrite lookahead_resume.
      rewrite <- (lookahead_lookahead tok rest tok' rest' st).
      apply IHmore; [side|by rewrite Hnext|side..].
    + eapply evaluates_bind.
      { apply (IHt n (resume _ st) tok' rest'); side. }
      intros v _. rewrite lookahead_resume.
      rewrite <- (lookahead_lookahead tok rest tok' rest' st).
      apply IHmore; [side|by rewrite Hnext|side..].
  - (* MkExpression *)
    intros t IHt ts IHts [|n] st tok rest Hb Hp Hend Hfuel;
      simpl in Hfuel; [lia|].
    simpl in Hp. rewrite fmap_app, <- app_assoc in Hp.
    destruct (after_term ts tok rest Hend) as (tok' & rest' & Hnext & Hnot).
    rewrite Hnext in Hp.
    rewrite expression_S. simpl.
    eapply evaluates_bind.
    { apply (IHt n st tok' rest'); side. }
    intros left _.
    rewrite <- (lookahead_lookahead tok rest tok' rest' st).
    apply IHts; [side|by rewrite Hnext|side..].
Qed.

End Derivations.

(** [C8], as amended.  For every derivation of an expression from
    literals, parentheses, unary signs and the operators [+ - * / %],
    followed by a token that is none of these operators, [expression()]
    consumes exactly the tokens of the derivation; when no divisor in it
    evaluates to zero it returns the value of floating-point arithmetic,
    factors combined before terms and operands of one level from left to
    right, and when one does it throws "divide by zero".  [2 + 3 * 4;]
    evaluates to 14, [(2 + 3) * 4;] to 20 and [8 - 3 - 2;] to 3. *)
Theorem expressions_follow_arithmetic `{cmath} :
  (forall e fuel st tok rest,
     (length (buffer st) <= 1)%nat ->
     pending st = (Scanned <$> tokens_of_expression e) ++ Scanned tok :: rest ->
     ends_expression tok ->
     (depth_of_expression e <= fuel)%nat ->
     match value_of_expression e with
     | Some v => expression fuel st = (Ret v, lookahead tok rest st)
     | None => (expression fuel st).1 = Throw "divide by zero"
     end)
  /\ (forall k,
        (statement (10 + k)
           (from_tokens [Token.of_double 2%float; Token.of_char "+";
                         Token.of_double 3%float; Token.of_char "*";
                         Token.of_double 4%float; semicolon])).1
        = Ret 14%float)
  /\ (forall k,
        (statement (10 + k)
           (from_tokens [Token.of_char "("; Token.of_double 2%float;
                         Token.of_char "+"; Token.of_double 3%float;
                         Token.of_char ")"; Token.of_char "*";
                         Token.of_double 4%float; semicolon])).1
        = Ret 20%float)
  /\ (forall k,
        (statement (10 + k)
           (from_tokens [Token.of_double 8%float; Token.of_char "-";
                         Token.of_double 3%float; Token.of_char "-";
                         Token.of_double 2%float; semicolon])).1
        = Ret 3%float).
Proof.
  split; [|split; [|split]].
  - intros e fuel st tok rest Hb Hp Hend Hfuel.
    destruct derivations_evaluate as (_ & _ & _ & _ & He).
    apply (He e fuel st tok rest Hb Hp Hend Hfuel).
  - intros k.
    rewrite (statement_enough_fuel 10 k _ _ eq_refl); [|vm_compute; discriminate].
    vm_compute. reflexivity.
  - intros k.
    rewrite (statement_enough_fuel 10 k _ _ eq_refl); [|vm_compute; discriminate].
    vm_compute. reflexivity.
  - intros k.
    rewrite (statement_enough_fuel 10 k _ _ eq_refl); [|vm_compute; discriminate].
    vm_compute. reflexivity.
Qed.

(** [C8] as stated fails on [5 / 0], a well-formed expression: in
    floating-point arithmetic the quotient is infinity, while the
    evaluator throws. *)
Lemma zero_divisor_throws :
  let e :=
    MkExpression (MkTerm (Literal 5%float) (Factor Divide (Literal 0%float) NoFactor))
      NoTerm in
  tokens_of_expression e
  = [Token.of_double 5%float; Token.of_char "/"; Token.of_double 0%float]
  /\ (5 / 0)%float = infinity
  /\ (@expression sample_cmath 10 (from_tokens (tokens_of_expression e ++ [semicolon]))).1
     = Throw "divide by zero".
Proof. cbv zeta. split; [reflexivity|]. split; reflexivity. Qed.

Lemma expressions_follow_arithmetic_witness :
  let e :=
    MkExpression (MkTerm (Literal 2%float) NoFactor)
      (AddTerm Plus
         (MkTerm (Literal 3%float) (Factor Times (Literal 4%float) NoFactor))
         NoTerm) in
  let st := from_tokens (tokens_of_expression e ++ [semicolon]) in
  (length (buffer st) <= 1)%nat
  /\ pending st = (Scanned <$> tokens_of_expression e) ++ Scanned semicolon :: []
  /\ ends_expression semicolon
  /\ (depth_of_expression e <= 11)%nat
  /\ @expression sample_cmath 11 st = (Ret 14%float, lookahead semicolon [] st).
Proof.
  assert (ends_expression semicolon) as Hend by (intros c _; reflexivity).
  cbv zeta.
  split; [unfold from_tokens; simpl; lia|]. split; [reflexivity|].
  split; [exact Hend|]. split; [simpl; lia|].
  apply (proj1 (@expressions_follow_arithmetic sample_cmath)
           (MkExpression (MkTerm (Literal 2%float) NoFactor)
              (AddTerm Plus
                 (MkTerm (Literal 3%float)
                    (Factor Times (Literal 4%float) NoFactor))
                 NoTerm))
           11%nat _ semicolon []);
    [unfold from_tokens; simpl; lia|reflexivity|exact Hend|simpl; lia].
Defined.

(** ** Decimal images *)

Lemma all_chars_app p s1 s2 :
  all_chars p (s1 +:+ s2) = all_chars p s1 && all_chars p s2.
Proof.
  induction s1 as [|c s1 IH]; simpl; [done|].
  by rewrite IH, andb_assoc.
Qed.

Lemma length_app s1 s2 :
  String.length (s1 +:+ s2) = (String.length s1 + String.length s2)%nat.
Proof. induction s1 as [|c s1 IH]; simpl; [done|]. by rewrite IH. Qed.

Lemma pretty_N_char_digit d : isdigit (pretty_N_char d) = true.
Proof. unfold pretty_N_char. by repeat case_match. Qed.

Lemma pretty_N_go_digits x s :
  all_chars isdigit s = true -> all_chars isdigit (pretty_N_go x s) = true.
Proof.
  revert s. induction (N.lt_wf_0 x) as [x _ IH]; intros s Hs.
  assert (x = 0 \/ 0 < x)%N as [->|Hx] by lia.
  - by rewrite pretty_N_go_0.
  - rewrite pretty_N_go_step by done.
    apply IH; [by apply N.div_lt|].
    simpl. by rewrite pretty_N_char_digit.
Qed.

Lemma pretty_N_go_length x s :
  (String.length s <= String.length (pretty_N_go x s))%nat.
Proof.
  revert s. induction (N.lt_wf_0 x) as [x _ IH]; intros s.
  assert (x = 0 \/ 0 < x)%N as [->|Hx] by lia.
  - by rewrite pretty_N_go_0.
  - rewrite pretty_N_go_step by done.
    etrans; [|apply IH; by apply N.div_lt]. simpl. lia.
Qed.

Lemma to_string_digits n :
  0 <= n -> all_chars isdigit (to_string n) = true /\ to_string n <> "".
Proof.
  intros Hn. destruct n as [|q|q]; [done| |lia].
  unfold to_string, pretty, pretty_Z, pretty, pretty_positive, pretty, pretty_N.
  rewrite decide_False by done. split.
  - by apply pretty_N_go_digits.
  - rewrite pretty_N_go_step by done.
    intros Hempty.
    pose proof (pretty_N_go_length (N.pos q `div` 10)
                  (String (pretty_N_char (N.pos q `mod` 10)) "")) as Hlen.
    rewrite Hempty in Hlen. simpl in Hlen. lia.
Qed.

Lemma zero_padded_length width n : String.length (zero_padded width n) = width.
Proof.
  revert n. induction width as [|w IH]; intros n; simpl; [done|].
  rewrite length_app, IH. simpl. lia.
Qed.

Lemma zero_padded_digits width n : all_chars isdigit (zero_padded width n) = true.
Proof.
  revert n. induction width as [|w IH]; intros n; simpl; [done|].
  rewrite all_chars_app, IH. simpl. by rewrite pretty_N_char_digit.
Qed.

Lemma round_half_even_nonneg n d : 0 <= n -> 0 < d -> 0 <= round_half_even n d.
Proof.
  intros Hn Hd. unfold round_half_even.
  assert (0 <= n / d) by (apply Z.div_pos; lia).
  repeat case_match; lia.
Qed.

(** A finite value is written in fixed-point notation with exactly [p]
    decimals. *)
Lemma fixed_is_fixed_point p negative x :
  0 < p -> is_finite x = true ->
  fixed_point_notation (Z.to_nat p) (fixed p negative x).
Proof.
  intros Hp. unfold is_finite, fixed.
  rewrite (proj2 (Z.eqb_neq p 0)) by lia.
  assert (forall s scaled, 0 <= scaled ->
    fixed_point_notation (Z.to_nat p)
      ((if s : bool then "-" else "")
       +:+ to_string (scaled / 10 ^ p) +:+ "."
       +:+ zero_padded (Z.to_nat p) (scaled `mod` 10 ^ p))) as Himage.
  { intros s scaled Hs.
    assert (0 <= scaled / 10 ^ p) as Hwhole by (apply Z.div_pos; lia).
    destruct (to_string_digits _ Hwhole) as [Hdig Hne].
    exists (if s then "-" else ""), (to_string (scaled / 10 ^ p)),
      (zero_padded (Z.to_nat p) (scaled `mod` 10 ^ p)).
    split; [done|]. split; [destruct s; auto|].
    split; [done|]. split; [done|].
    split; [apply zero_padded_length|apply zero_padded_digits]. }
  destruct (Prim2SF x) as [s|s| |s m e]; try done; intros _.
  - by apply Himage.
  - apply Himage. case_match.
    + assert (0 <= 2 ^ e) by (apply Z.pow_nonneg; lia).
      assert (0 <= 10 ^ p) by (apply Z.pow_nonneg; lia). nia.
    + apply round_half_even_nonneg.
      * assert (0 <= 10 ^ p) by (apply Z.pow_nonneg; lia). nia.
      * apply Z.pow_pos_nonneg; lia.
Qed.

(** ** Saving *)

#[global] Instance key_le_total : Total key_le.
Proof. intros a b. unfold key_le. apply String.le_total. Qed.

#[global] Instance key_le_trans : Transitive key_le.
Proof. intros a b c. unfold key_le. apply transitivity. Qed.

Lemma iterate_entries m : iterate m ≡ₚ map_to_list m.
Proof. apply merge_sort_Permutation. Qed.

Lemma iterate_sorted m : StronglySorted key_le (iterate m).
Proof. apply StronglySorted_merge_sort; apply _. Qed.

Lemma iterate_lookup m k v : (k, v) ∈ iterate m <-> m !! k = Some v.
Proof. rewrite iterate_entries. apply elem_of_map_to_list. Qed.

Lemma iterate_length m : length (iterate m) = size m.
Proof. rewrite iterate_entries. apply length_map_to_list. Qed.

Lemma iterate_keys_once m : NoDup (iterate m).*1.
Proof. rewrite iterate_entries. apply NoDup_fst_map_to_list. Qed.

Lemma select_save_precision_presets answers P :
  select_save_precision answers = Some P -> P = 6 \/ P = 12 \/ P = 19.
Proof.
  induction answers as [|o rest IH]; simpl; [done|].
  repeat case_match; intros; simplify_eq; auto.
Qed.

Lemma isdigit_not_newline c : isdigit c = true -> not_newline c = true.
Proof.
  unfold isdigit, not_newline. intros Hd.
  destruct (Ascii.eqb_spec c "010") as [->|]; [done|done].
Qed.

Lemma all_chars_impl (p q : ascii -> bool) s :
  (forall c, p c = true -> q c = true) ->
  all_chars p s = true -> all_chars q s = true.
Proof.
  intros Hpq. induction s as [|c s IH]; simpl; [done|].
  rewrite !andb_true_iff. intros [Hc Hs]. auto.
Qed.

Lemma to_string_not_newline n : all_chars not_newline (to_string n) = true.
Proof.
  destruct n as [|q|q].
  - done.
  - apply (all_chars_impl isdigit); [apply isdigit_not_newline|].
    by apply (to_string_digits (Z.pos q)).
  - change (to_string (Z.neg q)) with ("-" +:+ to_string (Z.pos q)).
    rewrite all_chars_app. simpl.
    apply (all_chars_impl isdigit); [apply isdigit_not_newline|].
    by apply (to_string_digits (Z.pos q)).
Qed.

Lemma zero_padded_not_newline width n :
  all_chars not_newline (zero_padded width n) = true.
Proof.
  apply (all_chars_impl isdigit); [apply isdigit_not_newline|].
  apply zero_padded_digits.
Qed.

Lemma fixed_not_newline p negative x :
  all_chars not_newline (fixed p negative x) = true.
Proof.
  unfold fixed.
  assert (forall s : bool, all_chars not_newline (if s then "-" else "") = true)
    as Hsign by (by intros []).
  destruct (Prim2SF x) as [s|s| |s m e]; destruct (p =? 0);
    rewrite ?all_chars_app, ?Hsign, ?to_string_not_newline,
      ?zero_padded_not_newline; done.
Qed.

Lemma getlines_line s rest :
  all_chars not_newline s = true ->
  getlines (s +:+ nl +:+ rest) = s :: getlines rest.
Proof.
  induction s as [|c s IH]; simpl; [done|].
  rewrite andb_true_iff. intros [Hc Hs].
  unfold not_newline in Hc. apply negb_true_iff in Hc. rewrite Hc.
  by rewrite (IH Hs).
Qed.

Lemma app_assoc_string s1 s2 s3 : (s1 +:+ s2) +:+ s3 = s1 +:+ s2 +:+ s3.
Proof.
  induction s1 as [|c s1 IH]; [done|].
  change (String c ((s1 +:+ s2) +:+ s3) = String c (s1 +:+ s2 +:+ s3)).
  by rewrite IH.
Qed.

Lemma getlines_lines (texts : list string) :
  Forall (fun s => all_chars not_newline s = true) texts ->
  getlines (String.concat "" ((fun s => s +:+ nl) <$> texts)) = texts.
Proof.
  induction 1 as [|s texts Hs _ IH]; [done|].
  destruct texts as [|s' texts].
  - exact (getlines_line s "" Hs).
  - change (String.concat "" ((fun s => s +:+ nl) <$> s :: s' :: texts))
      with ((s +:+ nl) +:+ "" +:+
            String.concat "" ((fun s => s +:+ nl) <$> s' :: texts)).
    rewrite app_assoc_string, (getlines_line _ _ Hs).
    f_equal. exact IH.
Qed.

Lemma entry_text_not_newline signs P e :
  all_chars not_newline e.1 = true ->
  all_chars not_newline (entry_text signs P e) = true.
Proof.
  intros Hk. unfold entry_text.
  rewrite !all_chars_app, Hk, fixed_not_newline. by destruct (Value.is_const e.2).
Qed.

(** The sign bit matters for a NaN only. *)
Lemma fixed_of_number p negative negative' x :
  isnan x = false -> fixed p negative x = fixed p negative' x.
Proof. unfold isnan, fixed. by destruct (Prim2SF x). Qed.

Lemma write_env_of_numbers signs signs' P (m : gmap string Value.t) :
  (forall k v, m !! k = Some v -> isnan (Value.value v) = false) ->
  write_env signs' P m = write_env signs P m.
Proof.
  intros Hnum. unfold write_env. do 4 f_equal.
  apply list_fmap_ext. intros _ [k v] Hin%list_elem_of_lookup_2.
  apply iterate_lookup in Hin.
  unfold entry_line, entry_text. simpl.
  by rewrite (fixed_of_number P (signs' k) (signs k)) by by eapply Hnum.
Qed.

(** [C9], as amended.  For a table that is not empty and a menu answer
    that selects the precision [P] (6, 12 or 19), [save_env] writes the
    header [Precision = P] and then, for each entry once and in ascending
    order of the keys, the key, [" = "], the value, [" is_const = "] and
    0 or 1, every line ended by [endl].  A finite value is written in
    fixed-point notation with exactly [P] decimals, an infinite one as
    [inf] or [-inf], and a NaN as [nan], or [-nan] when its sign bit is
    set; unless the table holds a NaN, the text depends on no sign bit. *)
Theorem save_env_format (signs : string -> bool) (st : State)
    (answers : list Z) (P : Z) :
  size (names st) <> 0%nat ->
  select_save_precision answers = Some P ->
  let text := write_env signs P (names st) in
  let entries := iterate (names st) in
  save_env signs answers true st = (Ret text, st)
  /\ ((forall k, is_Some (names st !! k) -> all_chars not_newline k = true) ->
      getlines text
      = ("Precision = " +:+ to_string P) :: (entry_text signs P <$> entries))
  /\ length entries = size (names st)
  /\ (forall k v, (k, v) ∈ entries <-> names st !! k = Some v)
  /\ NoDup entries.*1
  /\ StronglySorted key_le entries
  /\ (forall k v,
        (k, v) ∈ entries ->
        let x := Value.value v in
        let written := fixed P (signs k) x in
        entry_text signs P (k, v)
        = k +:+ " = " +:+ written +:+ " is_const = "
          +:+ (if Value.is_const v then "1" else "0")
        /\ (is_finite x = true -> fixed_point_notation (Z.to_nat P) written)
        /\ (forall s, Prim2SF x = S754_infinity s ->
              written = if s then "-inf" else "inf")
        /\ (isnan x = true -> written = if signs k then "-nan" else "nan"))
  /\ ((forall k v, names st !! k = Some v -> isnan (Value.value v) = false) ->
      forall signs', write_env signs' P (names st) = text).
Proof.
  intros Hsize Hsel text entries.
  split; [|split; [|split; [|split; [|split; [|split; [|split]]]]]].
  - unfold save_env. rewrite bool_decide_eq_false_2 by done. by rewrite Hsel.
  - intros Hkeys. unfold text, write_env.
    rewrite <- (app_assoc_string "Precision = " (to_string P)).
    rewrite getlines_line
      by (rewrite all_chars_app; apply to_string_not_newline).
    f_equal. unfold entry_line.
    rewrite <- (getlines_lines (entry_text signs P <$> entries)).
    + by rewrite <- list_fmap_compose.
    + apply Forall_fmap, Forall_forall. intros [k v] Hin.
      apply entry_text_not_newline, Hkeys. simpl.
      apply iterate_lookup in Hin. by rewrite Hin.
  - apply iterate_length.
  - apply iterate_lookup.
  - apply iterate_keys_once.
  - apply iterate_sorted.
  - intros k v _ x written. split; [done|]. split; [|split].
    + apply fixed_is_fixed_point.
      destruct (select_save_precision_presets _ _ Hsel) as [->|[->| ->]]; lia.
    + intros s Hx. unfold written, fixed. rewrite Hx. by destruct s.
    + unfold isnan, written, fixed.
      destruct (Prim2SF x); try done. by destruct (signs k).
  - intros Hnum signs'. by apply write_env_of_numbers.
Qed.

Lemma save_env_format_witness :
  let st :=
    mkState [] []
      (<["x" := Value.mk "x" 3%float false]>
         (<["pi" := Value.mk "pi" 3.14%float true]> ∅)) 6 in
  size (names st) <> 0%nat
  /\ select_save_precision [7; 2] = Some 12
  /\ save_env (fun _ => true) [7; 2] true st
     = (Ret ("Precision = 12" +:+ nl
             +:+ "pi = 3.140000000000 is_const = 1" +:+ nl
             +:+ "x = 3.000000000000 is_const = 0" +:+ nl), st).
Proof.
  cbv zeta. split; [done|]. split; [reflexivity|].
  refine (eq_trans
            (proj1 (save_env_format (fun _ => true) _ [7; 2] 12 _ eq_refl)) _);
    [done|].
  vm_compute. reflexivity.
Defined.

(** [C9] as stated fails on two inputs.  An empty table is refused: the
    call throws before anything is written.  An infinite value, as left by
    [x = 1e308 * 10;], is written as [inf], which has no decimals. *)
Lemma save_env_refuses_empty_and_writes_inf :
  (forall signs answers opened,
     save_env signs answers opened (mkState [] [] ∅ 6)
     = (Throw (nl +:+ "save env: No variables or constants to save." +:+ nl),
        mkState [] [] ∅ 6))
  /\ (forall H : cmath,
        names (statement 10
                 (from_tokens [Token.of_name "x"; Token.of_char "=";
                               Token.of_double 1e308%float; Token.of_char "*";
                               Token.of_double 10%float; semicolon])).2
        = {["x" := Value.mk "x" infinity false]})
  /\ (forall signs,
        (save_env signs [1] true
           (mkState [] [] {["x" := Value.mk "x" infinity false]} 6)).1
        = Ret ("Precision = 6" +:+ nl +:+ "x = inf is_const = 0" +:+ nl))
  /\ (forall negative, ~ fixed_point_notation 6 (fixed 6 negative infinity)).
Proof.
  split; [done|]. split; [intros H; vm_compute; reflexivity|].
  split; [intros signs; vm_compute; reflexivity|].
  intros negative (sign & whole & decimals & Heq & _ & _ & _ & Hlen & _).
  apply (f_equal String.length) in Heq.
  rewrite !length_app, Hlen in Heq.
  change (fixed 6 negative infinity) with "inf" in Heq. simpl in Heq. lia.
Qed.

(** [x = 1e308 * 10 - 1e308 * 10;] leaves a NaN in the table.  It is
    saved as [-nan] when its sign bit is set and as [nan] otherwise. *)
Example save_env_writes_nan :
  (forall H : cmath,
     names (statement 10
              (mkState [Token.of_name "x"]
                 (Scanned <$> [Token.of_char "=";
                               Token.of_double 1e308%float; Token.of_char "*";
                               Token.of_double 10%float; Token.of_char "-";
                               Token.of_double 1e308%float; Token.of_char "*";
                               Token.of_double 10%float; semicolon])
                 ∅ 6)).2
     = {["x" := Value.mk "x" nan false]})
  /\ (forall signs,
        (save_env signs [1] true
           (mkState [] [] {["x" := Value.mk "x" nan false]} 6)).1
        = Ret ("Precision = 6" +:+ nl
               +:+ "x = " +:+ (if signs "x" then "-nan" else "nan")
               +:+ " is_const = 0" +:+ nl)).
Proof.
  split; [intros H; vm_compute; reflexivity|].
  intros signs. vm_compute. by destruct (signs _).
Qed.

(** ** Loading: the names tried for a renamed entry *)

Lemma file_name_inj name (j k : Z) :
  0 <= j -> 0 <= k -> file_name name j = file_name name k -> j = k.
Proof.
  intros Hj Hk. unfold file_name. intros Heq.
  apply (inj (String.app name)), (inj (String.app "_file")) in Heq.
  destruct (Z.ltb_spec 0 j), (Z.ltb_spec 0 k).
  - by apply (inj pretty) in Heq.
  - by destruct (to_string_digits j Hj) as [_ []].
  - by destruct (to_string_digits k Hk) as [_ []].
  - lia.
Qed.

#[global] Instance file_name_of_nat_inj name :
  Inj (=) (=) (fun i : nat => file_name name (Z.of_nat i)).
Proof. intros i j Heq. apply file_name_inj in Heq; lia. Qed.

(** A table cannot hold all of the first [size + 1] candidates. *)
Lemma not_all_candidates_declared (m : gmap string Value.t) name :
  ~ forall i : nat, (i <= size m)%nat -> is_Some (m !! file_name name (Z.of_nat i)).
Proof.
  intros Hall.
  set (candidates := (fun i : nat => file_name name (Z.of_nat i)) <$> seq 0 (S (size m))).
  assert (NoDup candidates) as Hnodup.
  { apply (NoDup_fmap_2 _), NoDup_seq. }
  assert (candidates ⊆+ (map_to_list m).*1) as Hsub.
  { apply NoDup_submseteq; [done|]. intros key Hkey.
    apply list_elem_of_fmap in Hkey as (i & -> & Hi).
    apply elem_of_seq in Hi.
    destruct (Hall i ltac:(lia)) as [v Hv].
    apply list_elem_of_fmap. exists (file_name name (Z.of_nat i), v).
    split; [done|]. by apply elem_of_map_to_list. }
  apply submseteq_length in Hsub.
  unfold candidates in Hsub.
  rewrite !length_fmap, length_seq, length_map_to_list in Hsub. lia.
Qed.

(** Among the candidates there is a first one that is not declared, and
    it comes within the first [size + 1]. *)
Lemma first_free_candidate (m : gmap string Value.t) name :
  exists i : nat,
    (i <= size m)%nat
    /\ m !! file_name name (Z.of_nat i) = None
    /\ forall j : nat, (j < i)%nat -> is_Some (m !! file_name name (Z.of_nat j)).
Proof.
  assert (forall n : nat,
    (forall i : nat, (i < n)%nat -> is_Some (m !! file_name name (Z.of_nat i)))
    \/ exists i : nat, (i < n)%nat
         /\ m !! file_name name (Z.of_nat i) = None
         /\ forall j : nat, (j < i)%nat ->
              is_Some (m !! file_name name (Z.of_nat j))) as Hsearch.
  { induction n as [|n [IH|IH]].
    - left. lia.
    - destruct (m !! file_name name (Z.of_nat n)) eqn:Hn.
      + left. intros i Hi. destruct (decide (i = n)) as [->|]; [by rewrite Hn|].
        apply IH. lia.
      + right. exists n. split; [lia|]. split; [done|]. exact IH.
    - right. destruct IH as (i & Hi & Hfree & Hless).
      exists i. split; [lia|done]. }
  destruct (Hsearch (S (size m))) as [Hall|(i & Hi & Hfree & Hless)].
  - destruct (not_all_candidates_declared m name).
    intros i Hi. apply Hall. lia.
  - exists i. split; [lia|done].
Qed.

Lemma fresh_file_name_finds name (d : nat) :
  forall (i fuel : nat) st,
    (forall j : nat, (i <= j < i + d)%nat ->
       is_Some (names st !! file_name name (Z.of_nat j))) ->
    names st !! file_name name (Z.of_nat (i + d)) = None ->
    (d < fuel)%nat ->
    fresh_file_name fuel name (Z.of_nat i) st
    = (Ret (file_name name (Z.of_nat (i + d))), st).
Proof.
  induction d as [|d IH]; intros i [|n] st Hless Hfree Hfuel; try lia.
  - simpl. fold (file_name name (Z.of_nat i)).
    unfold bind, is_declared. rewrite Nat.add_0_r in *.
    rewrite Hfree. rewrite bool_decide_eq_false_2; [done|]. by intros [].
  - simpl. fold (file_name name (Z.of_nat i)).
    unfold bind at 1. unfold is_declared at 1.
    rewrite bool_decide_eq_true_2 by (apply Hless; lia).
    replace (Z.of_nat i + 1) with (Z.of_nat (S i)) by lia.
    replace (i + S d)%nat with (S i + d)%nat in * by lia.
    apply IH; [|done|lia]. intros j Hj. apply Hless. lia.
Qed.

Section LoadFacts.
Context `{num_get}.

Lemma load_line_conflict fuel line name value is_const answers st :
  read_entry line = (name, Some value, Some is_const) ->
  name <> "" ->
  is_Some (names st !! name) ->
  load_line fuel line answers st
  = resolve_conflict fuel name value is_const answers st.
Proof.
  intros Hread Hname Hdecl. unfold load_line. rewrite Hread.
  rewrite bool_decide_eq_false_2 by done.
  unfold bind, is_declared. by rewrite bool_decide_eq_true_2.
Qed.

End LoadFacts.

(** [C4].  A line that reads as an entry for a name already declared is a
    conflict.  Answer 1 leaves the table as it is; answer 2 replaces the
    entry by the file's value and constness; answer 3 leaves the existing
    entry and defines the file's value under the first name among
    [name_file], [name_file1], [name_file2], ... that is not declared. *)
Theorem load_conflict_resolutions `{num_get} fuel line name value is_const st old rest :
  read_entry line = (name, Some value, Some is_const) ->
  name <> "" ->
  names st !! name = Some old ->
  (size (names st) < fuel)%nat ->
  let incoming key := Value.mk key value (negb (is_const =? 0)) in
  load_line fuel line (1 :: rest) st = (Ret rest, st)
  /\ load_line fuel line (2 :: rest) st
     = (Ret rest, with_names (<[name := incoming name]> (names st)) st)
  /\ exists i : nat,
       let new_name := file_name name (Z.of_nat i) in
       names st !! new_name = None
       /\ (forall j : nat, (j < i)%nat ->
             is_Some (names st !! file_name name (Z.of_nat j)))
       /\ load_line fuel line (3 :: rest) st
          = (Ret rest,
             with_names (<[new_name := incoming new_name]> (names st)) st)
       /\ (<[new_name := incoming new_name]> (names st)) !! name = Some old.
Proof.
  intros Hread Hname Hold Hfuel incoming.
  assert (is_Some (names st !! name)) as Hdecl by (by rewrite Hold).
  rewrite !(load_line_conflict _ _ _ _ _ _ _ Hread Hname Hdecl).
  split; [done|]. split; [done|].
  destruct (first_free_candidate (names st) name) as (i & Hi & Hfree & Hless).
  exists i. cbv zeta. split; [done|]. split; [done|].
  split.
  - simpl.
    rewrite (bind_Ret _ _ _ _ _
               (fresh_file_name_finds name i 0 fuel st
                  ltac:(intros j Hj; apply Hless; lia) Hfree ltac:(lia))).
    done.
  - rewrite lookup_insert_ne; [done|].
    intros Heq. rewrite Heq in Hfree. by rewrite Hfree in Hold.
Qed.

Lemma load_conflict_resolutions_witness :
  let st := mkState [] [] {["x" := Value.mk "x" 3%float false]} 6 in
  let line := "x = 5 is_const = 0" in
  @read_entry decimal_num_get line = ("x", Some 5%float, Some 0)
  /\ size (names st) = 1%nat
  /\ @load_line decimal_num_get 2 line [1] st = (Ret [], st)
  /\ @load_line decimal_num_get 2 line [2] st
     = (Ret [], mkState [] [] {["x" := Value.mk "x" 5%float false]} 6).
Proof.
  cbv zeta. split; [reflexivity|]. split; [reflexivity|].
  destruct (@load_conflict_resolutions decimal_num_get 2 "x = 5 is_const = 0"
              "x" 5%float 0
              (mkState [] [] {["x" := Value.mk "x" 3%float false]} 6)
              (Value.mk "x" 3%float false) [] eq_refl
              ltac:(discriminate) eq_refl ltac:(vm_compute; lia))
    as (Hkeep & Hoverwrite & _).
  split; [exact Hkeep|].
  refine (eq_trans Hoverwrite _). vm_compute. reflexivity.
Defined.

(** The scenario of the specification, and the same with [x_file] and
    [x_file1] already taken. *)
Example load_conflict_on_x :
  let x3 := Value.mk "x" 3%float false in
  let st := mkState [] [] {["x" := x3]} 6 in
  let file := "Precision = 6" +:+ nl +:+ "x = 5 is_const = 0" +:+ nl in
  let load answers from := names (@load_env decimal_num_get 9 (Some file) answers from).2 in
  load [2; 1] st = {["x" := x3]}
  /\ load [2; 2] st = {["x" := Value.mk "x" 5%float false]}
  /\ load [2; 3] st = <["x_file" := Value.mk "x_file" 5%float false]> {["x" := x3]}
  /\ load [2; 3]
       (with_names (<["x_file" := x3]> (<["x_file1" := x3]> {["x" := x3]})) st)
     = <["x_file2" := Value.mk "x_file2" 5%float false]>
         (<["x_file" := x3]> (<["x_file1" := x3]> {["x" := x3]})).
Proof. vm_compute. repeat split; reflexivity. Qed.

(** The second choice is the one place where a const entry is replaced. *)
Example load_overwrites_a_constant :
  let st := mkState [] [] {["x" := Value.mk "x" 3%float true]} 6 in
  let file := "Precision = 6" +:+ nl +:+ "x = 5 is_const = 0" +:+ nl in
  names (@load_env decimal_num_get 9 (Some file) [2; 2] st).2
  = {["x" := Value.mk "x" 5%float false]}.
Proof. vm_compute. reflexivity. Qed.

(** ** Loading: which lines are skipped *)

Section Skipping.
Context `{num_get}.




End Skipping.




(** * Further properties *)

(** ** Statements that declare *)

(** [X1].  Evaluating an expression only reads: whether it returns or
    throws, the table of names and the precision are afterwards what they
    were before.  The same holds for terms, primaries and function calls. *)
Theorem evaluation_changes_no_global `{cmath} (fuel : nat) (st : State) :
  let unchanged (st' : State) :=
    names st' = names st /\ current_precision st' = current_precision st in
  unchanged (expression fuel st).2
  /\ unchanged (term fuel st).2
  /\ unchanged (primary fuel st).2
  /\ unchanged (function_name fuel st).2.
Proof.
  destruct (evaluator_keeps_globals fuel) as (He & _ & Ht & _ & Hp & Hf).
  cbv zeta. split; [apply He|]. split; [apply Ht|]. split; [apply Hp|apply Hf].
Qed.

Section Declarations.
Context `{cmath}.

(** The two tokens a statement looks at are put back in the order read. *)
Lemma statement_name_equals fuel st name i :
  (length (buffer st) <= 1)%nat ->
  pending st = Scanned (Token.of_name name) :: Scanned (Token.of_char "=") :: i ->
  statement fuel st
  = assign fuel (mkState [Token.of_name name; Token.of_char "="] i
                   (names st) (current_precision st)).
Proof.
  intros Hb Hp. destruct st as [b inp nm pr]. unfold pending in Hp. simpl in *.
  destruct b as [|t [|t' b]]; simpl in *; [| |lia]; by simplify_eq.
Qed.

(** [const] has been read and the name is next. *)
Lemma statement_const fuel st name i :
  (length (buffer st) <= 1)%nat ->
  pending st = Scanned (Token.of_id Token.const_token)
               :: Scanned (Token.of_name name) :: i ->
  statement fuel st
  = (declared <- is_declared name ;;
     when declared (error2 name " has already been defined") ;;
     t <- get ;;
     when (negb (Token.is_symbol t "=")) (error2 "= missing in assign of " name) ;;
     d <- expression fuel ;;
     define_name name d true ;;
     ret d) (resume i st).
Proof.
  intros Hb Hp. destruct st as [b inp nm pr]. unfold pending in Hp. simpl in *.
  destruct b as [|t [|t' b]]; simpl in *; [| |lia]; by simplify_eq.
Qed.

Lemma assign_evaluates fuel name i nm pr :
  match nm !! name with
  | Some v => Value.is_const v = false
  | None => True
  end ->
  assign fuel (mkState [Token.of_name name; Token.of_char "="] i nm pr)
  = (d <- expression fuel ;;
     declared <- is_declared name ;;
     (if declared then set_value name d else define_name name d false) ;;
     ret d) (mkState [] i nm pr).
Proof.
  intros Hv. unfold assign, bind at 1, get at 1. simpl.
  unfold bind at 1. simpl.
  unfold bind at 1, is_constant at 1. simpl.
  assert (match nm !! name with Some v => Value.is_const v | None => false end = false)
    as -> by (destruct (nm !! name); done).
  simpl. unfold bind at 1, get at 1. simpl.
  unfold bind at 1. simpl. done.
Qed.

End Declarations.

(** [X3].  A statement [name = expression] for a name that is not declared
    evaluates the expression, defines the name as a variable with that value
    and returns it; looking the name up afterwards gives that value.  When
    the expression does not return, the statement ends the same way and
    nothing is defined.  The statement starts with at most one token in
    the queue, as it does when [calculate()] has put back the token it
    looked at. *)
Theorem assignment_defines_a_new_name `{cmath} fuel st name i :
  (length (buffer st) <= 1)%nat ->
  pending st = Scanned (Token.of_name name) :: Scanned (Token.of_char "=") :: i ->
  names st !! name = None ->
  let rhs := expression fuel (resume i st) in
  statement fuel st
  = match rhs.1 with
    | Ret d =>
        (Ret d, with_names (<[name := Value.mk name d false]> (names st)) rhs.2)
    | _ => rhs
    end
  /\ names rhs.2 = names st
  /\ forall d, rhs.1 = Ret d -> (get_value name (statement fuel st).2).1 = Ret d.
Proof.
  intros Hb Hi Hfree rhs.
  destruct (expression_keeps_globals fuel (resume i st)) as [Hnames _].
  fold rhs in Hnames. simpl in Hnames.
  assert (statement fuel st
          = match rhs.1 with
            | Ret d =>
                (Ret d,
                 with_names (<[name := Value.mk name d false]> (names st)) rhs.2)
            | _ => rhs
            end) as Hstatement.
  { rewrite (statement_name_equals _ _ _ _ Hb Hi).
    rewrite assign_evaluates by (by rewrite Hfree).
    change (mkState [] i (names st) (current_precision st)) with (resume i st).
    unfold bind at 1. fold rhs.
    destruct rhs as [[d|what| |] st3] eqn:Hrhs; simpl in *; try done.
    unfold bind at 1, is_declared at 1.
    rewrite Hnames, Hfree.
    rewrite bool_decide_eq_false_2 by (by intros []).
    unfold bind, define_name, ret. simpl. by rewrite Hnames. }
  split; [done|]. split; [done|].
  intros d Hd. rewrite Hstatement, Hd.
  unfold get_value. simpl. by rewrite lookup_insert_eq.
Qed.

Lemma assignment_defines_a_new_name_witness :
  let i := Scanned <$> [Token.of_double 2%float; Token.of_char "*";
                        Token.of_double 21%float; semicolon] in
  let st := mkState [Token.of_name "x"] (Scanned (Token.of_char "=") :: i)
              {["y" := Value.mk "y" 1%float false]} 6 in
  (length (buffer st) <= 1)%nat /\ names st !! "x" = None
  /\ @statement sample_cmath 10 st
     = (Ret 42%float,
        mkState [semicolon] []
          (<["x" := Value.mk "x" 42%float false]>
             {["y" := Value.mk "y" 1%float false]}) 6).
Proof.
  cbv zeta. split; [simpl; lia|]. split; [reflexivity|].
  refine (eq_trans
            (proj1 (@assignment_defines_a_new_name sample_cmath 10
                      (mkState [Token.of_name "x"]
                         (Scanned (Token.of_char "=")
                          :: (Scanned <$> [Token.of_double 2%float; Token.of_char "*";
                                           Token.of_double 21%float; semicolon]))
                         {["y" := Value.mk "y" 1%float false]} 6)
                      "x" _ ltac:(simpl; lia) eq_refl eq_refl)) _).
  vm_compute. reflexivity.
Defined.

(** [X5].  [const name = expression] defines a constant when the name is not
    declared.  When the name is declared, as a constant or as a variable,
    the statement throws "name has already been defined" without reading
    further, and the table stays as it is.  [const] is the token in the
    queue, or the queue is empty. *)
Theorem const_declares_a_name_once `{cmath} fuel st name i :
  (length (buffer st) <= 1)%nat ->
  pending st = Scanned (Token.of_id Token.const_token)
               :: Scanned (Token.of_name name) :: i ->
  (is_Some (names st !! name) ->
   statement fuel st
   = (Throw (name +:+ " has already been defined"), resume i st))
  /\ (names st !! name = None ->
      forall i', i = Scanned (Token.of_char "=") :: i' ->
      let rhs := expression fuel (resume i' st) in
      statement fuel st
      = match rhs.1 with
        | Ret d =>
            (Ret d, with_names (<[name := Value.mk name d true]> (names st)) rhs.2)
        | _ => rhs
        end).
Proof.
  intros Hb Hi. rewrite (statement_const _ _ _ _ Hb Hi).
  split.
  - intros Hdecl. unfold bind at 1, is_declared at 1. simpl.
    by rewrite bool_decide_eq_true_2.
  - intros Hfree i' -> rhs.
    unfold bind at 1, is_declared at 1. simpl. rewrite Hfree.
    rewrite bool_decide_eq_false_2 by (by intros []).
    unfold bind at 1. simpl.
    unfold bind at 1, get at 1. simpl.
    unfold bind at 1. simpl.
    change (with_input i' (resume (Scanned (Token.of_char "=") :: i') st))
      with (resume i' st).
    destruct (expression_keeps_globals fuel (resume i' st)) as [Hnames _].
    unfold bind at 1. fold rhs. fold rhs in Hnames.
    destruct rhs as [[d|what| |] st3]; simpl in *; try done.
    unfold bind, define_name, ret. simpl. by rewrite Hnames.
Qed.

Lemma const_declares_a_name_once_witness :
  let i := Scanned <$> [Token.of_char "="; Token.of_double 3.14%float; semicolon] in
  let queued := [Token.of_id Token.const_token] in
  let input := Scanned (Token.of_name "pi") :: i in
  let taken := {["pi" := Value.mk "pi" 3%float false]} in
  @statement sample_cmath 10 (mkState queued input taken 6)
  = (Throw "pi has already been defined", mkState [] i taken 6)
  /\ @statement sample_cmath 10 (mkState queued input ∅ 6)
     = (Ret 3.14%float,
        mkState [semicolon] [] {["pi" := Value.mk "pi" 3.14%float true]} 6).
Proof.
  cbv zeta. split.
  - refine (eq_trans
              (proj1 (@const_declares_a_name_once sample_cmath 10
                        (mkState [Token.of_id Token.const_token]
                           (Scanned (Token.of_name "pi")
                            :: (Scanned <$> [Token.of_char "=";
                                             Token.of_double 3.14%float; semicolon]))
                           {["pi" := Value.mk "pi" 3%float false]} 6)
                        "pi" _ ltac:(simpl; lia) eq_refl) _) _);
      [by eexists|reflexivity].
  - refine (eq_trans
              (proj2 (@const_declares_a_name_once sample_cmath 10
                        (mkState [Token.of_id Token.const_token]
                           (Scanned (Token.of_name "pi")
                            :: (Scanned <$> [Token.of_char "=";
                                             Token.of_double 3.14%float; semicolon]))
                           ∅ 6)
                        "pi" _ ltac:(simpl; lia) eq_refl)
                 eq_refl _ eq_refl) _).
    vm_compute. reflexivity.
Defined.

(** [X4].  Assigning to a constant is refused before the right-hand side is
    read: the statement throws "name constant cannot be modified", ['=']
    and what follows it are still to be read, and the table is unchanged.
    The name is the token in the queue, or the queue is empty. *)
Theorem constants_refuse_assignment `{cmath} fuel st name v i :
  (length (buffer st) <= 1)%nat ->
  pending st = Scanned (Token.of_name name) :: Scanned (Token.of_char "=") :: i ->
  names st !! name = Some v ->
  Value.is_const v = true ->
  statement fuel st
  = (Throw (name +:+ " constant cannot be modified"),
     mkState [Token.of_char "="] i (names st) (current_precision st)).
Proof.
  intros Hb Hi Hv Hconst.
  rewrite (statement_name_equals _ _ _ _ Hb Hi).
  unfold assign, bind at 1, get at 1. simpl.
  unfold bind at 1. simpl.
  unfold bind at 1, is_constant at 1. simpl. rewrite Hv, Hconst. done.
Qed.

Lemma constants_refuse_assignment_witness :
  let pi := Value.mk "pi" 3.14%float true in
  let i := Scanned <$> [Token.of_double 1%float; Token.of_char "/";
                        Token.of_double 0%float; semicolon] in
  @statement sample_cmath 10
    (mkState [Token.of_name "pi"] (Scanned (Token.of_char "=") :: i)
       {["pi" := pi]} 6)
  = (Throw "pi constant cannot be modified",
     mkState [Token.of_char "="] i {["pi" := pi]} 6).
Proof.
  refine (eq_trans
            (@constants_refuse_assignment sample_cmath 10
               (mkState [Token.of_name "pi"]
                  (Scanned (Token.of_char "=")
                   :: (Scanned <$> [Token.of_double 1%float; Token.of_char "/";
                                    Token.of_double 0%float; semicolon]))
                  {["pi" := Value.mk "pi" 3.14%float true]} 6)
               "pi" (Value.mk "pi" 3.14%float true) _ ltac:(simpl; lia) eq_refl
               eq_refl eq_refl) _).
  reflexivity.
Defined.

(** ** Names in expressions *)

Section Substitution.
Context `{cmath}.
Variable m0 : gmap string Value.t.

#[local] Abbreviation mirrors := (mirrors m0).

Lemma mirrors_ret {A} (a : A) : mirrors (ret a) (ret a).
Proof. by intros st Hst. Qed.

Lemma mirrors_error {A} s : mirrors (@error A s) (@error A s).
Proof. by intros st Hst. Qed.

Lemma mirrors_error2 {A} s s2 : mirrors (@error2 A s s2) (@error2 A s s2).
Proof. by intros st Hst. Qed.

Lemma mirrors_out_of_fuel {A} : mirrors (@out_of_fuel A) (@out_of_fuel A).
Proof. by intros st Hst. Qed.

Lemma mirrors_when c (m : M unit) : mirrors m m -> mirrors (when c m) (when c m).
Proof. destruct c; [done|]. intros _. apply mirrors_ret. Qed.

Lemma mirrors_bind {A B} (m m' : M A) (k k' : A -> M B) :
  mirrors m m' -> (forall a, mirrors (k a) (k' a)) ->
  mirrors (bind m k) (bind m' k').
Proof.
  intros Hm Hk st Hst. unfold bind.
  destruct (Hm st Hst) as [-> Hnames].
  destruct (m st) as [[a| | |] st1]; simpl in *; try done.
  by apply Hk.
Qed.

Lemma mirrors_get_bind {B} (k k' : Token.t -> M B) :
  (forall t, mirrors (k t) (k' (value_token m0 t))) ->
  mirrors (bind get k) (bind get k').
Proof.
  intros Hk st Hst. unfold bind, get, with_values. rewrite Hst.
  destruct st as [b i nm pr]. simpl in *. subst nm.
  destruct b as [|t b]; [destruct i as [|[t|what] i]|]; simpl; try done.
  - apply (Hk t (mkState [] i m0 pr) eq_refl).
  - apply (Hk t (mkState b i m0 pr) eq_refl).
Qed.

Lemma mirrors_unget t : mirrors (unget t) (unget (value_token m0 t)).
Proof.
  intros st Hst. unfold unget, with_values. simpl. rewrite Hst.
  by rewrite fmap_app.
Qed.

Lemma mirrors_get_value s : mirrors (get_value s) (get_value s).
Proof.
  intros st Hst. unfold get_value, with_values. simpl.
  by destruct (names st !! s).
Qed.

Lemma is_symbol_value_token t c :
  Token.is_symbol (value_token m0 t) c = Token.is_symbol t c.
Proof.
  unfold value_token. case_bool_decide as Hk; [|done].
  destruct (m0 !! Token.name t); [|done].
  unfold Token.is_symbol. simpl. by rewrite Hk.
Qed.

Lemma is_function_value_token t :
  Token.is_function (value_token m0 t) = Token.is_function t.
Proof.
  unfold value_token. case_bool_decide as Hk; [|done].
  destruct (m0 !! Token.name t); [|done].
  unfold Token.is_function. simpl. by rewrite Hk.
Qed.

(** A token is left alone, or it is a declared name. *)
Lemma value_token_cases t :
  value_token m0 t = t
  \/ exists v, Token.kind t = Token.name_token /\ m0 !! Token.name t = Some v
               /\ value_token m0 t = Token.of_double (Value.value v).
Proof.
  unfold value_token. case_bool_decide as Hk; [|by left].
  destruct (m0 !! Token.name t) as [v|] eqn:Hv; [|by left].
  right. by exists v.
Qed.

Lemma mirrors_declared s v : m0 !! s = Some v -> mirrors (get_value s) (ret (Value.value v)).
Proof.
  intros Hv st Hst. unfold get_value, ret. by rewrite Hst, Hv.
Qed.

Ltac mirrors_step :=
  first
    [ apply mirrors_ret | apply mirrors_error | apply mirrors_error2
    | apply mirrors_out_of_fuel | apply mirrors_unget | apply mirrors_get_value
    | apply mirrors_when
    | match goal with IH : _ |- _ => apply IH end
    | apply mirrors_get_bind; intros ?;
      rewrite ?is_symbol_value_token, ?is_function_value_token
    | apply mirrors_bind; [|intros ?]
    | match goal with
      | |- mirrors (if ?b then _ else _) (if ?b then _ else _) => destruct b
      | |- mirrors (match ?x with _ => _ end) (match ?x with _ => _ end) =>
          destruct x
      end ].

Lemma evaluator_mirrors fuel :
  mirrors (expression fuel) (expression fuel)
  /\ (forall left, mirrors (expression_loop fuel left) (expression_loop fuel left))
  /\ mirrors (term fuel) (term fuel)
  /\ (forall left, mirrors (term_loop fuel left) (term_loop fuel left))
  /\ mirrors (primary fuel) (primary fuel)
  /\ mirrors (function_name fuel) (function_name fuel).
Proof.
  induction fuel as [|n (IHe & IHel & IHt & IHtl & IHp & IHf)].
  { split; [|split; [|split; [|split; [|split]]]]; intros;
      apply mirrors_out_of_fuel. }
  split; [|split; [|split; [|split; [|split]]]]; intros.
  - rewrite expression_S. repeat mirrors_step.
  - rewrite expression_loop_S.
    apply mirrors_get_bind. intros t.
    rewrite !is_symbol_value_token.
    repeat mirrors_step.
  - rewrite term_S. repeat mirrors_step.
  - rewrite term_loop_S.
    apply mirrors_get_bind. intros t.
    rewrite !is_symbol_value_token.
    repeat mirrors_step.
  - rewrite primary_S.
    apply mirrors_get_bind. intros t.
    rewrite !is_symbol_value_token, is_function_value_token.
    destruct (Token.is_function t) eqn:Hf; [repeat mirrors_step|].
    destruct (value_token_cases t) as [-> | (v & Hk & Hv & ->)].
    + repeat mirrors_step.
    + simpl. rewrite Hk. simpl.
      by apply mirrors_declared.
  - rewrite function_name_S.
    apply mirrors_get_bind. intros t.
    rewrite is_function_value_token.
    destruct (Token.is_function t) eqn:Hf; simpl.
    + assert (value_token m0 t = t) as ->.
      { unfold value_token. rewrite bool_decide_eq_false_2; [done|].
        unfold Token.is_function in Hf. apply bool_decide_eq_true in Hf.
        by rewrite Hf. }
      repeat mirrors_step.
    + by intros st Hst.
Qed.

End Substitution.

(** [X2].  In an expression a declared name is worth the number stored for
    it: replacing, in what is still to be read, every declared name by the
    number token of its value changes neither what [expression()] returns or
    throws nor what it consumes. *)
Theorem declared_names_stand_for_their_values `{cmath} (fuel : nat) (st : State) :
  expression fuel (with_values st)
  = ((expression fuel st).1, with_values (expression fuel st).2).
Proof.
  by destruct (evaluator_mirrors (names st) fuel) as ([Heq _]%(fun H => H st eq_refl) & _).
Qed.

(** ** Parentheses that are not closed *)

Section Parentheses.
Context `{cmath}.

Lemma expression_of_derivation e v fuel st tok rest :
  (length (buffer st) <= 1)%nat ->
  pending st = (Scanned <$> tokens_of_expression e) ++ Scanned tok :: rest ->
  ends_expression tok ->
  (depth_of_expression e <= fuel)%nat ->
  value_of_expression e = Some v ->
  expression fuel st = (Ret v, lookahead tok rest st).
Proof.
  intros Hb Hp Hend Hfuel Hv.
  destruct derivations_evaluate as (_ & _ & _ & _ & He).
  specialize (He e fuel st tok rest Hb Hp Hend Hfuel).
  by rewrite Hv in He.
Qed.

Lemma get_lookahead tok rest st :
  get (lookahead tok rest st) = (Ret tok, resume rest st).
Proof. done. Qed.

End Parentheses.

(** [X6].  An expression in parentheses that is followed by anything but
    [')'] is refused.  After ['('] the evaluator throws "'(' expected";
    after the name of a function and ['('], where a [','] may also follow,
    it throws "')' expected".  In both cases the token found in place of
    [')'] has been consumed. *)
Theorem a_parenthesis_must_be_closed `{cmath} e v fuel st tok rest :
  (length (buffer st) <= 1)%nat ->
  ends_expression tok ->
  Token.is_symbol tok ")" = false ->
  (depth_of_expression e <= fuel)%nat ->
  value_of_expression e = Some v ->
  (pending st
   = Scanned (Token.of_char "(")
     :: (Scanned <$> tokens_of_expression e) ++ Scanned tok :: rest ->
   primary (S fuel) st = (Throw "'(' expected", resume rest st))
  /\ (forall fname f,
        Token.is_symbol tok "," = false ->
        pending st
        = Scanned (Token.of_function fname f) :: Scanned (Token.of_char "(")
          :: (Scanned <$> tokens_of_expression e) ++ Scanned tok :: rest ->
        primary (S (S fuel)) st = (Throw "')' expected", resume rest st)).
Proof.
  intros Hb Hend Hclose Hfuel Hv. split.
  - intros Hp. rewrite primary_S.
    rewrite (bind_Ret _ _ _ _ _ (get_pending _ _ _ Hb Hp)). simpl.
    rewrite (bind_Ret _ _ _ _ _
               (expression_of_derivation e v fuel (resume _ st) tok rest
                  ltac:(simpl; lia) eq_refl Hend Hfuel Hv)).
    rewrite lookahead_resume.
    rewrite (bind_Ret _ _ _ _ _ (get_lookahead tok rest st)).
    by rewrite Hclose.
  - intros fname f Hcomma Hp.
    set (inner := (Scanned <$> tokens_of_expression e) ++ Scanned tok :: rest) in *.
    assert (primary (S (S fuel)) st
            = function_name (S fuel)
                (lookahead (Token.of_function fname f)
                   (Scanned (Token.of_char "(") :: inner) st)) as ->.
    { rewrite primary_S.
      by rewrite (bind_Ret _ _ _ _ _ (get_pending _ _ _ Hb Hp)). }
    rewrite function_name_S.
    rewrite (bind_Ret _ _ _ _ _ (get_lookahead _ _ st)).
    change (Token.is_function (Token.of_function fname f)) with true.
    cbn [negb when]. rewrite ret_bind.
    rewrite (bind_Ret _ _ _ _ _
               (get_pending (resume (Scanned (Token.of_char "(") :: inner) st)
                  (Token.of_char "(") inner ltac:(simpl; lia) eq_refl)).
    change (Token.is_symbol (Token.of_char "(") "(") with true.
    cbn [negb when]. rewrite ret_bind.
    rewrite (bind_Ret _ _ _ _ _
               (expression_of_derivation e v fuel
                  (resume inner (resume (Scanned (Token.of_char "(") :: inner) st))
                  tok rest ltac:(simpl; lia) eq_refl Hend Hfuel Hv)).
    rewrite !lookahead_resume.
    rewrite (bind_Ret _ _ _ _ _ (get_lookahead tok rest st)).
    rewrite Hclose, Hcomma. done.
Qed.

Lemma a_parenthesis_must_be_closed_witness :
  let e := MkExpression (MkTerm (Literal 1%float) NoFactor)
             (AddTerm Plus (MkTerm (Literal 2%float) NoFactor) NoTerm) in
  let tokens := Token.of_char "(" :: tokens_of_expression e ++ [semicolon] in
  @primary sample_cmath 10 (from_tokens tokens)
  = (Throw "'(' expected", from_tokens [])
  /\ @primary sample_cmath 11 (from_tokens (sin_token :: tokens))
     = (Throw "')' expected", from_tokens []).
Proof.
  assert (ends_expression semicolon) as Hend by (intros c _; reflexivity).
  cbv zeta.
  destruct (@a_parenthesis_must_be_closed sample_cmath
              (MkExpression (MkTerm (Literal 1%float) NoFactor)
                 (AddTerm Plus (MkTerm (Literal 2%float) NoFactor) NoTerm))
              3%float 9
              (from_tokens [Token.of_char "("; Token.of_double 1%float; Token.of_char "+";
                            Token.of_double 2%float; semicolon])
              semicolon [] ltac:(simpl; lia) Hend eq_refl ltac:(simpl; lia) eq_refl)
    as [Hparen _].
  destruct (@a_parenthesis_must_be_closed sample_cmath
              (MkExpression (MkTerm (Literal 1%float) NoFactor)
                 (AddTerm Plus (MkTerm (Literal 2%float) NoFactor) NoTerm))
              3%float 9
              (from_tokens [sin_token; Token.of_char "("; Token.of_double 1%float;
                            Token.of_char "+"; Token.of_double 2%float; semicolon])
              semicolon [] ltac:(simpl; lia) Hend eq_refl ltac:(simpl; lia) eq_refl)
    as [_ Hcall].
  split; [exact (Hparen eq_refl)|exact (Hcall "sin" (Some c_sin) eq_refl eq_refl)].
Defined.

(** ** What every command keeps *)

Section Advances.
Variable R : State -> State -> Prop.
Hypothesis R_preorder : PreOrder R.
Hypothesis R_globals :
  forall st st', names st' = names st ->
                 current_precision st' = current_precision st -> R st st'.
Hypothesis R_insert :
  forall st n v, R st (with_names (<[n := v]> (names st)) st).

Lemma advances_bind {A B} (m : M A) (k : A -> M B) :
  advances R m -> (forall a, advances R (k a)) -> advances R (bind m k).
Proof.
  intros Hm Hk st. unfold bind. specialize (Hm st).
  destruct (m st) as [[a| | |] st1]; simpl in *; try done.
  etrans; [exact Hm|apply Hk].
Qed.

Lemma advances_globals {A} (m : M A) : keeps_globals m -> advances R m.
Proof. intros Hm st. destruct (Hm st). by apply R_globals. Qed.

Lemma advances_if {A} (b : bool) (m1 m2 : M A) :
  advances R m1 -> advances R m2 -> advances R (if b then m1 else m2).
Proof. by destruct b. Qed.

Lemma advances_define_name s d c : advances R (define_name s d c).
Proof. intros st. apply R_insert. Qed.

Lemma advances_set_value s d : advances R (set_value s d).
Proof.
  intros st. unfold set_value, bind.
  destruct (names st !! s) as [v|]; simpl; [|reflexivity].
  destruct (Value.is_const v); simpl; [reflexivity|apply R_insert].
Qed.

Ltac advances_step :=
  first
    [ apply advances_define_name | apply advances_set_value
    | apply advances_globals;
      solve [ apply expression_keeps_globals | repeat keeps_step ]
    | apply advances_if
    | apply advances_bind; [|intros ?] ].

Section Statements.
Context `{cmath}.

Lemma advances_assign fuel : advances R (assign fuel).
Proof. unfold assign. repeat advances_step. Qed.

Lemma advances_constant_assign fuel : advances R (constant_assign fuel).
Proof. unfold constant_assign. repeat advances_step. Qed.

Lemma advances_statement fuel : advances R (statement fuel).
Proof.
  unfold statement. apply advances_bind; [advances_step|intros t].
  destruct (Token.kind t);
    repeat first [ apply advances_assign | apply advances_constant_assign
                 | advances_step ].
Qed.

End Statements.

Hypothesis R_precision :
  forall st p, 0 <= p <= 20 -> R st (with_precision p st).

Lemma advances_set_precision_int p : advances R (set_precision_int p).
Proof.
  intros st. unfold set_precision_int, bind, when, out_of_range.
  destruct (Z.ltb_spec p 0); simpl; [reflexivity|].
  destruct (Z.ltb_spec 20 p); simpl; [reflexivity|].
  apply R_precision. lia.
Qed.

Lemma advances_set_precision : advances R set_precision.
Proof.
  unfold set_precision.
  apply advances_bind; [advances_step|intros t].
  apply advances_bind; [advances_step|intros _].
  destruct (static_cast_int (Token.value t)) as [digits|];
    [|by apply advances_globals].
  apply (advances_set_precision_int digits).
Qed.

Lemma advances_save_env signs answers opened :
  advances R (save_env signs answers opened).
Proof.
  intros st. unfold save_env.
  repeat case_match; simpl; reflexivity.
Qed.

Section Loading.
Context `{num_get}.

Lemma advances_fresh_file_name fuel name attempts :
  advances R (fresh_file_name fuel name attempts).
Proof.
  revert attempts. induction fuel as [|n IH]; intros attempts; simpl.
  - by apply advances_globals.
  - apply advances_bind; [advances_step|intros declared].
    destruct declared; [apply IH|by apply advances_globals].
Qed.

Lemma advances_resolve_conflict fuel name value is_const answers :
  advances R (resolve_conflict fuel name value is_const answers).
Proof.
  induction answers as [|option rest IH]; simpl; [by apply advances_globals|].
  repeat case_match; try apply IH.
  - by apply advances_globals.
  - apply advances_bind; [|intros _; by apply advances_globals].
    intros st. apply R_insert.
  - apply advances_bind; [apply advances_fresh_file_name|intros new_name].
    apply advances_bind; [apply advances_define_name|intros _].
    by apply advances_globals.
Qed.

Lemma advances_load_line fuel line answers : advances R (load_line fuel line answers).
Proof.
  unfold load_line. destruct (read_entry line) as [[name value] is_const].
  case_bool_decide; [by apply advances_globals|].
  destruct value as [value|], is_const as [is_const|];
    try (by apply advances_globals).
  apply advances_bind; [advances_step|intros declared].
  destruct declared; simpl.
  - apply advances_resolve_conflict.
  - apply advances_bind; [apply advances_define_name|intros _].
    by apply advances_globals.
Qed.

Lemma advances_load_lines fuel lines answers : advances R (load_lines fuel lines answers).
Proof.
  revert answers. induction lines as [|line lines IH]; intros answers; simpl.
  - by apply advances_globals.
  - apply advances_bind; [apply advances_load_line|intros answers'; apply IH].
Qed.

Lemma advances_apply_file_precision p answers :
  advances R (apply_file_precision p answers).
Proof.
  induction answers as [|option rest IH]; simpl; [by apply advances_globals|].
  repeat case_match; try apply IH.
  - apply advances_bind; [apply advances_set_precision_int|intros _].
    by apply advances_globals.
  - by apply advances_globals.
Qed.

Lemma advances_load_env fuel file answers : advances R (load_env fuel file answers).
Proof.
  unfold load_env. destruct file as [text|]; [|by apply advances_globals].
  destruct (getlines text) as [|header lines]; [by apply advances_globals|].
  destruct (read_header header) as [p|]; [|by apply advances_globals].
  apply advances_bind; [apply advances_apply_file_precision|intros answers'].
  apply advances_load_lines.
Qed.

End Loading.
End Advances.

#[global] Instance declared_stay_preorder : PreOrder declared_stay.
Proof.
  split; [intros st n Hn; exact Hn|].
  intros st1 st2 st3 H12 H23 n Hn. apply H23, H12, Hn.
Qed.

#[global] Instance range_is_kept_preorder : PreOrder range_is_kept.
Proof.
  split; [intros st Hr; exact Hr|].
  intros st1 st2 st3 H12 H23 Hr. apply H23, H12, Hr.
Qed.

Lemma declared_stay_globals st st' :
  names st' = names st -> current_precision st' = current_precision st ->
  declared_stay st st'.
Proof. intros Hn _ n. by rewrite Hn. Qed.

Lemma declared_stay_insert st n v :
  declared_stay st (with_names (<[n := v]> (names st)) st).
Proof.
  intros k Hk. simpl. destruct (decide (n = k)) as [->|Hne].
  - rewrite lookup_insert_eq. by eexists.
  - by rewrite lookup_insert_ne.
Qed.

Lemma declared_stay_precision st p :
  0 <= p <= 20 -> declared_stay st (with_precision p st).
Proof. by intros _ n. Qed.

#[global] Instance same_precision_preorder : PreOrder same_precision.
Proof.
  split; [by intros st|].
  intros st1 st2 st3 H12 H23. unfold same_precision in *. congruence.
Qed.

Lemma same_precision_globals st st' :
  names st' = names st -> current_precision st' = current_precision st ->
  same_precision st st'.
Proof. by intros _ Hp. Qed.

Lemma same_precision_insert st n v :
  same_precision st (with_names (<[n := v]> (names st)) st).
Proof. done. Qed.

Lemma range_is_kept_globals st st' :
  names st' = names st -> current_precision st' = current_precision st ->
  range_is_kept st st'.
Proof. intros _ Hp. unfold range_is_kept, precision_in_range. by rewrite Hp. Qed.

Lemma range_is_kept_insert st n v :
  range_is_kept st (with_names (<[n := v]> (names st)) st).
Proof. by intros Hr. Qed.

Lemma range_is_kept_precision st p :
  0 <= p <= 20 -> range_is_kept st (with_precision p st).
Proof. by intros Hp _. Qed.

(** [X7].  No command removes a name: what is declared before a statement, a
    [set precision], a [save env] or a [load env] is declared after it,
    however the command ends. *)
Theorem names_are_never_removed `{cmath} `{num_get} (st : State) (n : string) :
  is_Some (names st !! n) ->
  (forall fuel, is_Some (names (statement fuel st).2 !! n))
  /\ is_Some (names (set_precision st).2 !! n)
  /\ (forall signs answers opened,
        is_Some (names (save_env signs answers opened st).2 !! n))
  /\ (forall fuel file answers,
        is_Some (names (load_env fuel file answers st).2 !! n)).
Proof.
  intros Hn. split; [|split; [|split]].
  - intros fuel.
    by apply (advances_statement declared_stay _ declared_stay_globals
                declared_stay_insert fuel st).
  - by apply (advances_set_precision declared_stay _ declared_stay_globals
                declared_stay_precision st).
  - intros signs answers opened.
    by apply (advances_save_env declared_stay _ signs answers opened st).
  - intros fuel file answers.
    by apply (advances_load_env declared_stay _ declared_stay_globals
                declared_stay_insert declared_stay_precision fuel file answers st).
Qed.

Lemma names_are_never_removed_witness :
  let file := "Precision = 6" +:+ nl +:+ "x = 5 is_const = 0" +:+ nl in
  let st := mkState [] [] {["x" := Value.mk "x" 3%float false]} 6 in
  is_Some (names st !! "x")
  /\ is_Some (names (@load_env decimal_num_get 9 (Some file) [2; 3] st).2 !! "x").
Proof.
  cbv zeta.
  assert (is_Some (names (mkState [] [] {["x" := Value.mk "x" 3%float false]} 6) !! "x"))
    as Hx by (by eexists).
  split; [exact Hx|].
  apply (@names_are_never_removed sample_cmath decimal_num_get _ "x" Hx).
Defined.

(** [X8].  A precision between 0 and 20 stays between 0 and 20: statements
    and [save env] leave the precision as it is, and [set precision] and
    [load env] change it only to a value they have checked. *)
Theorem precision_stays_in_range `{cmath} `{num_get} (st : State) :
  precision_in_range st ->
  (forall fuel, current_precision (statement fuel st).2 = current_precision st)
  /\ precision_in_range (set_precision st).2
  /\ (forall signs answers opened,
        current_precision (save_env signs answers opened st).2
        = current_precision st)
  /\ (forall fuel file answers,
        precision_in_range (load_env fuel file answers st).2).
Proof.
  intros Hr. split; [|split; [|split]].
  - intros fuel.
    apply (advances_statement same_precision _ same_precision_globals
             same_precision_insert fuel st).
  - by apply (advances_set_precision range_is_kept _ range_is_kept_globals
                range_is_kept_precision st).
  - intros signs answers opened.
    apply (advances_save_env same_precision _ signs answers opened st).
  - intros fuel file answers.
    by apply (advances_load_env range_is_kept _ range_is_kept_globals
                range_is_kept_insert range_is_kept_precision fuel file answers st).
Qed.

Lemma precision_stays_in_range_witness :
  let file := "Precision = 25" +:+ nl +:+ "x = 5 is_const = 0" +:+ nl in
  let st := mkState [] [] ∅ 6 in
  precision_in_range st
  /\ precision_in_range (@load_env decimal_num_get 9 (Some file) [1] st).2.
Proof.
  cbv zeta.
  assert (precision_in_range (mkState [] [] ∅ 6)) as Hr
    by (unfold precision_in_range; simpl; lia).
  split; [exact Hr|].
  apply (proj2 (proj2 (proj2
           (@precision_stays_in_range sample_cmath decimal_num_get _ Hr)))).
Defined.

(** ** Runs of characters *)

Lemma skipws_blank blanks s : blank blanks -> skipws (blanks +:+ s) = skipws s.
Proof.
  unfold blank. induction blanks as [|c blanks IH]; [done|].
  simpl. rewrite andb_true_iff. intros [Hc Hb].
  change (String c blanks +:+ s) with (String c (blanks +:+ s)).
  simpl. rewrite Hc. by apply IH.
Qed.

Lemma skipws_stops s : stops isspace s -> skipws s = s.
Proof. destruct s as [|c s]; [done|]. simpl. by intros ->. Qed.

Lemma span_app p w rest :
  all_chars p w = true -> stops p rest -> span p (w +:+ rest) = (w, rest).
Proof.
  intros Hw Hrest. induction w as [|c w IH].
  - destruct rest as [|c rest]; [done|]. simpl in *. by rewrite Hrest.
  - simpl in Hw. apply andb_true_iff in Hw as [Hc Hw].
    change (String c w +:+ rest) with (String c (w +:+ rest)).
    simpl. by rewrite Hc, (IH Hw).
Qed.

Lemma span_all p s : all_chars p (span p s).1 = true.
Proof.
  induction s as [|c s IH]; [done|].
  simpl. destruct (p c) eqn:Hc; [|done].
  destruct (span p s) as [w r]. simpl in *. by rewrite Hc.
Qed.

Lemma span_stops p s : stops p (span p s).2.
Proof.
  induction s as [|c s IH]; [done|].
  simpl. destruct (p c) eqn:Hc; [|done].
  by destruct (span p s) as [w r].
Qed.

Lemma span_whole p s : (span p s).1 +:+ (span p s).2 = s.
Proof.
  induction s as [|c s IH]; [done|].
  simpl. destruct (p c) eqn:Hc; [|done].
  destruct (span p s) as [w r]. simpl in *.
  change (String c w +:+ r) with (String c (w +:+ r)). by rewrite IH.
Qed.

Lemma read_while_app p w rest :
  all_chars p w = true -> stops p rest ->
  read_while p (w +:+ rest) = (w, mkStream rest (bool_decide (rest = ""))).
Proof. intros Hw Hrest. unfold read_while. by rewrite span_app. Qed.

Lemma stops_weaken (p q : ascii -> bool) rest :
  (forall c, p c = true -> q c = true) -> stops q rest -> stops p rest.
Proof.
  intros Hpq. destruct rest as [|c rest]; [done|]. simpl.
  destruct (p c) eqn:Hc; [|done]. rewrite (Hpq c Hc). done.
Qed.

Lemma isalpha_not_space c : isalpha c = true -> isspace c = false.
Proof. by destruct c as [[] [] [] [] [] [] [] []]. Qed.

Lemma isalpha_not_digit c : isalpha c = true -> isdigit c = false.
Proof. by destruct c as [[] [] [] [] [] [] [] []]. Qed.

Lemma isdigit_not_space c : isdigit c = true -> isspace c = false.
Proof. by destruct c as [[] [] [] [] [] [] [] []]. Qed.

Lemma isalpha_not_symbol c :
  isalpha c = true -> (c ∉ symbols) /\ c <> ";"%char /\ c <> "."%char.
Proof.
  intros Ha. unfold symbols. rewrite !not_elem_of_cons.
  repeat split; try apply not_elem_of_nil; by intros ->.
Qed.

Lemma isspace_not_alnum c : isspace c = true -> isalnum c = false.
Proof. by destruct c as [[] [] [] [] [] [] [] []]. Qed.

Lemma blank_stops_alnum s : blank s -> stops isalnum s.
Proof.
  destruct s as [|c s]; [done|]. unfold blank. simpl.
  rewrite andb_true_iff. intros [Hc _]. by apply isspace_not_alnum.
Qed.

(** ** The scanner on a word *)

Section ScannerFacts.
Context `{num_get}.

(** Scanning starts at the first character that is not white space. *)
Lemma scan_at ch rest c :
  failbit (cin c) = false ->
  skipws (unread (cin c)) = String ch rest ->
  isalpha ch = true ->
  scan c =
  let '(w, s1) := read_while isalnum rest in
  scan_word (String ch w) s1 (current_filename c).
Proof.
  intros Hgood Hskip Ha. unfold scan. rewrite Hgood, Hskip.
  destruct (isalpha_not_symbol _ Ha) as (Hs & Hp & Hd).
  rewrite !bool_decide_eq_false_2 by done.
  by rewrite (isalpha_not_digit _ Ha), Ha.
Qed.

Lemma scan_identifier_word blanks s rest filename :
  blank blanks -> identifier s -> stops isalnum rest ->
  scan (mkConsole (mkStream (blanks +:+ s +:+ rest) false) filename)
  = scan_word s (mkStream rest (bool_decide (rest = ""))) filename.
Proof.
  intros Hb Hs Hrest. destruct s as [|ch w]; [done|]. destruct Hs as [Ha Hw].
  rewrite (scan_at ch (w +:+ rest)); [|done| |done].
  - by rewrite read_while_app.
  - simpl. rewrite skipws_blank by done.
    change (String ch w +:+ rest) with (String ch (w +:+ rest)).
    simpl. by rewrite (isalpha_not_space _ Ha).
Qed.


(** What [scan_word] makes of a word, read off the kind of the token. *)
Lemma scan_word_kind s s1 filename tok c' :
  scan_word s s1 filename = (Ret tok, c') ->
  match Token.kind tok with
  | Token.name_token =>
      tok = Token.of_name s /\ ~ reserved s /\ c' = mkConsole s1 filename
  | Token.function_token =>
      exists f, (s, f) ∈ function_table /\ tok = Token.of_function s f
                /\ c' = mkConsole s1 filename
  | Token.quit => s = "quit"
  | Token.const_token => s = "const"
  | Token.help_token => s = "help"
  | Token.precision_token => s = "precision"
  | Token.set_precision_token => s = "set"
  | Token.show_env_token => s = "show"
  | Token.save_env_token => s = "save"
  | Token.load_env_token => s = "load"
  | Token.none | Token.print | Token.number | Token.char_token => False
  end.
Proof.
  unfold scan_word.
  repeat (case_bool_decide; [subst s|]).
  all: try (intros [= <- <-]; simpl; try done).
  all: try (eexists; split; [|done]; unfold function_table;
            rewrite !elem_of_cons; tauto).
  - destruct (extract_string "" s1) as [next s2].
    case_bool_decide; intros Heq; by simplify_eq/=.
  - destruct (read_word_after_keyword "show" s1) as [[| | |] s2]; simpl;
      intros Heq; by simplify_eq/=.
  - destruct (read_word_after_keyword "save" s1) as [[| | |] s2]; simpl;
      try (intros Heq; by simplify_eq/=).
    destruct (read_filename "save" s2) as [[| | |] s3]; intros Heq; by simplify_eq/=.
  - destruct (read_word_after_keyword "load" s1) as [[| | |] s2]; simpl;
      try (intros Heq; by simplify_eq/=).
    destruct (read_filename "load" s2) as [[| | |] s3]; intros Heq; by simplify_eq/=.
  - split; [done|]. split; [|done].
    unfold reserved, keywords, function_table. simpl.
    rewrite !elem_of_cons, !elem_of_nil. tauto.
Qed.

(** A token that is neither a symbol, a [print] nor a number was made
    from a word. *)
Lemma scan_word_inv c tok c' :
  scan c = (Ret tok, c') ->
  Token.kind tok <> Token.char_token -> Token.kind tok <> Token.print ->
  Token.kind tok <> Token.number ->
  exists ch w,
    isalpha ch = true /\ all_chars isalnum w = true
    /\ exists s1, scan_word (String ch w) s1 (current_filename c) = (Ret tok, c').
Proof.
  unfold scan. destruct (failbit (cin c)); [done|].
  destruct (skipws (unread (cin c))) as [|ch rest]; [done|].
  repeat case_bool_decide; simpl; try (intros Heq; by simplify_eq/=).
  - destruct (get_double _); intros Heq; by simplify_eq/=.
  - destruct (isdigit ch).
    { destruct (get_double _); intros Heq; by simplify_eq/=. }
    destruct (isalpha ch) eqn:Ha; [|done].
    unfold read_while. pose proof (span_all isalnum rest) as Hall.
    destruct (span isalnum rest) as [w r]. intros Hw _ _ _.
    exists ch, w. split; [done|]. split; [done|]. by eexists.
Qed.

End ScannerFacts.

Lemma word_app w rest :
  all_chars nonblank w = true -> stops nonblank rest -> word (w +:+ rest) = (w, rest).
Proof.
  intros Hw Hrest. induction w as [|c w IH].
  - destruct rest as [|c rest]; [done|]. simpl in *.
    unfold nonblank in Hrest. apply negb_false_iff in Hrest. by rewrite Hrest.
  - simpl in Hw. apply andb_true_iff in Hw as [Hc Hw].
    change (String c w +:+ rest) with (String c (w +:+ rest)).
    simpl. unfold nonblank in Hc. apply negb_true_iff in Hc.
    by rewrite Hc, (IH Hw).
Qed.

Lemma blank_app_stops_alnum b s : blank b -> b <> "" -> stops isalnum (b +:+ s).
Proof.
  destruct b as [|c b]; [done|]. intros Hb _.
  apply (blank_stops_alnum (String c "")). unfold blank in *. simpl in *.
  apply andb_true_iff in Hb as [-> _]. done.
Qed.

Lemma app_not_empty b s : b <> "" -> b +:+ s <> "".
Proof. by destruct b. Qed.

Lemma extract_string_word var gap w rest :
  blank gap -> all_chars nonblank w = true -> w <> "" -> stops nonblank rest ->
  extract_string var (mkStream (gap +:+ w +:+ rest) false)
  = (w, mkStream rest false).
Proof.
  intros Hgap Hw Hne Hrest. unfold extract_string. cbn [failbit unread].
  rewrite skipws_blank by done.
  destruct w as [|ch w]; [done|].
  rewrite skipws_stops.
  2:{ simpl in *. apply andb_true_iff in Hw as [Hc _].
      by apply negb_true_iff in Hc. }
  change (String ch w +:+ rest) with (String ch (w +:+ rest)).
  cbv beta iota.
  change (String ch (w +:+ rest)) with (String ch w +:+ rest).
  by rewrite word_app.
Qed.

Section ScannerTheorems.
Context `{num_get}.

Lemma scan_word_name s s1 filename :
  ~ reserved s -> scan_word s s1 filename = (Ret (Token.of_name s), mkConsole s1 filename).
Proof.
  intros Hres. unfold scan_word.
  repeat (case_bool_decide;
          [exfalso; apply Hres; subst s; unfold reserved, keywords, function_table;
           simpl; rewrite !elem_of_cons; tauto|]).
  done.
Qed.

Lemma scan_word_function fname f s1 filename :
  (fname, f) ∈ function_table ->
  scan_word fname s1 filename = (Ret (Token.of_function fname f), mkConsole s1 filename).
Proof.
  unfold function_table. rewrite !elem_of_cons, elem_of_nil.
  intros Hin. repeat destruct Hin as [Hin|Hin]; try done; by simplify_eq.
Qed.

Lemma function_table_identifier fname f :
  (fname, f) ∈ function_table -> identifier fname.
Proof.
  unfold function_table. rewrite !elem_of_cons, elem_of_nil.
  intros Hin. repeat destruct Hin as [Hin|Hin]; try done; by simplify_eq.
Qed.

End ScannerTheorems.

(** [X10].  A name token of the scanner carries an identifier, a letter
    followed by letters and digits, that is neither a keyword nor the name
    of a function; its other members are those of [Token(const string&)]. *)
Theorem scanned_names_are_free_identifiers `{num_get} c tok c' :
  scan c = (Ret tok, c') ->
  Token.kind tok = Token.name_token ->
  tok = Token.of_name (Token.name tok)
  /\ identifier (Token.name tok)
  /\ ~ reserved (Token.name tok).
Proof.
  intros Hscan Hkind.
  destruct (scan_word_inv _ _ _ Hscan) as (ch & w & Ha & Hw & s1 & Hword);
    [by rewrite Hkind..|].
  apply scan_word_kind in Hword. rewrite Hkind in Hword.
  destruct Hword as (-> & Hres & _). done.
Qed.

Lemma scanned_names_are_free_identifiers_witness :
  let c := mkConsole (mkStream "  rate2 = 5;" false) "" in
  let tok := Token.of_name "rate2" in
  @scan decimal_num_get c = (Ret tok, mkConsole (mkStream " = 5;" false) "")
  /\ Token.kind tok = Token.name_token
  /\ identifier (Token.name tok)
  /\ ~ reserved (Token.name tok).
Proof.
  cbv zeta.
  assert (@scan decimal_num_get (mkConsole (mkStream "  rate2 = 5;" false) "")
          = (Ret (Token.of_name "rate2"), mkConsole (mkStream " = 5;" false) ""))
    as Hscan by reflexivity.
  split; [exact Hscan|]. split; [reflexivity|].
  apply (@scanned_names_are_free_identifiers decimal_num_get _ _ _ Hscan eq_refl).
Defined.

(** [X11].  An identifier that is not reserved is scanned as a whole: white
    space before it is skipped, the token is the name token of the
    identifier, and reading resumes at the character that ends it.  When it
    ends the input, the stream is left failed. *)
Theorem identifiers_are_scanned_whole `{num_get} blanks s rest filename :
  blank blanks -> identifier s -> ~ reserved s -> stops isalnum rest ->
  scan (mkConsole (mkStream (blanks +:+ s +:+ rest) false) filename)
  = (Ret (Token.of_name s),
     mkConsole (mkStream rest (bool_decide (rest = ""))) filename).
Proof.
  intros Hb Hs Hres Hrest.
  rewrite scan_identifier_word by done. by apply scan_word_name.
Qed.

Lemma identifiers_are_scanned_whole_witness :
  blank " " /\ identifier "x1" /\ ~ reserved "x1" /\ stops isalnum "+y"
  /\ @scan decimal_num_get (mkConsole (mkStream " x1+y" false) "")
     = (Ret (Token.of_name "x1"), mkConsole (mkStream "+y" false) "").
Proof.
  assert (~ reserved "x1") as Hres.
  { unfold reserved, keywords, function_table. simpl.
    rewrite !elem_of_cons, !elem_of_nil. intros [Hk|Hf].
    - repeat destruct Hk as [Hk|Hk]; done.
    - repeat destruct Hf as [Hf|Hf]; done. }
  split; [reflexivity|]. split; [by split|]. split; [exact Hres|].
  split; [reflexivity|].
  apply (@identifiers_are_scanned_whole decimal_num_get " " "x1" "+y" "");
    [reflexivity|by split|exact Hres|reflexivity].
Defined.

(** [X12].  The function tokens of the scanner are those of the table: a
    name of the table is scanned into its function token, with the pointer
    the table gives, and the scanner makes no other function token. *)
Theorem function_tokens_are_the_table `{num_get} :
  (forall fname f blanks rest filename,
     (fname, f) ∈ function_table -> blank blanks -> stops isalnum rest ->
     scan (mkConsole (mkStream (blanks +:+ fname +:+ rest) false) filename)
     = (Ret (Token.of_function fname f),
        mkConsole (mkStream rest (bool_decide (rest = ""))) filename))
  /\ (forall c tok c',
        scan c = (Ret tok, c') ->
        Token.kind tok = Token.function_token ->
        exists fname f,
          (fname, f) ∈ function_table /\ tok = Token.of_function fname f).
Proof.
  split.
  - intros fname f blanks rest filename Hin Hb Hrest.
    rewrite scan_identifier_word; [|done|by eapply function_table_identifier|done].
    by apply scan_word_function.
  - intros c tok c' Hscan Hkind.
    destruct (scan_word_inv _ _ _ Hscan) as (ch & w & Ha & Hw & s1 & Hword);
      [by rewrite Hkind..|].
    apply scan_word_kind in Hword. rewrite Hkind in Hword.
    destruct Hword as (f & Hin & -> & _). eauto.
Qed.

Lemma function_tokens_are_the_table_witness :
  ("log10", Some c_log10) ∈ function_table
  /\ blank "" /\ stops isalnum "(100)"
  /\ @scan decimal_num_get (mkConsole (mkStream "log10(100)" false) "")
     = (Ret (Token.of_function "log10" (Some c_log10)),
        mkConsole (mkStream "(100)" false) "").
Proof.
  assert (("log10", Some c_log10) ∈ function_table) as Hin
    by (unfold function_table; rewrite !elem_of_cons; tauto).
  split; [exact Hin|]. split; [reflexivity|]. split; [reflexivity|].
  apply (proj1 (@function_tokens_are_the_table decimal_num_get)
           "log10" (Some c_log10) "" "(100)" "" Hin); reflexivity.
Defined.

(** [X13].  After [set] the scanner reads the next word delimited by white
    space and makes the [set precision] token only if that word is exactly
    [precision]; any other word, for instance [precision;], is consumed and
    the scanner throws. *)
Theorem set_reads_the_next_word `{num_get} blanks gap w rest filename :
  blank blanks -> blank gap -> gap <> "" ->
  all_chars nonblank w = true -> w <> "" -> stops nonblank rest ->
  scan (mkConsole (mkStream (blanks +:+ "set" +:+ gap +:+ w +:+ rest) false) filename)
  = (if bool_decide (w = "precision")
     then Ret (Token.of_id Token.set_precision_token)
     else Throw "Expected 'precision' after 'set'",
     mkConsole (mkStream rest false) filename).
Proof.
  intros Hb Hgap Hne Hw Hwne Hrest.
  rewrite (scan_identifier_word blanks "set"); [|done|by split|].
  2:{ by apply blank_app_stops_alnum. }
  rewrite bool_decide_eq_false_2 by (by apply app_not_empty).
  unfold scan_word.
  rewrite !bool_decide_eq_false_2 by done.
  rewrite bool_decide_eq_true_2 by done.
  rewrite extract_string_word by done.
  by case_bool_decide.
Qed.

Lemma set_reads_the_next_word_witness :
  let scan_text text := @scan decimal_num_get (mkConsole (mkStream text false) "") in
  scan_text "set precision 5;"
    = (Ret (Token.of_id Token.set_precision_token), mkConsole (mkStream " 5;" false) "")
  /\ scan_text "set precision; 1"
    = (Throw "Expected 'precision' after 'set'", mkConsole (mkStream " 1" false) "").
Proof.
  split.
  - apply (@set_reads_the_next_word decimal_num_get "" " " "precision" " 5;" "");
      done.
  - apply (@set_reads_the_next_word decimal_num_get "" " " "precision;" " 1" "");
      done.
Defined.

(** ** The commands on the environment *)

Lemma read_word_after_keyword_word keyword gap u rest :
  blank gap -> gap <> "" -> all_chars isalpha u = true -> u <> "" ->
  stops isalpha rest ->
  read_word_after_keyword keyword (mkStream (gap +:+ u +:+ rest) false)
  = (if bool_decide (u = "env") then Ret u
     else Throw (nl +:+ "Expected 'env' after '" +:+ keyword +:+ "'" +:+ nl),
     mkStream rest (bool_decide (rest = ""))).
Proof.
  intros Hgap Hne Hu Hune Hrest.
  unfold read_word_after_keyword. cbn [failbit unread].
  rewrite bool_decide_eq_false_2 by (by apply app_not_empty).
  rewrite skipws_blank by done.
  destruct u as [|ch u]; [done|].
  simpl in Hu. apply andb_true_iff in Hu as [Hch Hu].
  change (String ch u +:+ rest) with (String ch (u +:+ rest)).
  cbn [skipws]. rewrite (isalpha_not_space _ Hch), Hch.
  rewrite (read_while_app isalpha u rest) by done.
  by case_bool_decide.
Qed.

Lemma read_word_after_keyword_env keyword gap rest :
  blank gap -> gap <> "" -> stops isalpha rest ->
  read_word_after_keyword keyword (mkStream (gap +:+ "env" +:+ rest) false)
  = (Ret "env", mkStream rest (bool_decide (rest = ""))).
Proof.
  intros Hgap Hne Hrest.
  by rewrite (read_word_after_keyword_word keyword gap "env" rest).
Qed.

Lemma read_word_after_keyword_other keyword gap u rest :
  blank gap -> gap <> "" -> all_chars isalpha u = true -> u <> "" -> u <> "env" ->
  stops isalpha rest ->
  read_word_after_keyword keyword (mkStream (gap +:+ u +:+ rest) false)
  = (Throw (nl +:+ "Expected 'env' after '" +:+ keyword +:+ "'" +:+ nl),
     mkStream rest (bool_decide (rest = ""))).
Proof.
  intros Hgap Hne Hu Hune Henv Hrest.
  rewrite read_word_after_keyword_word by done.
  by rewrite bool_decide_eq_false_2.
Qed.

Lemma read_filename_accepts command gap f rest :
  blank gap -> gap <> "" -> is_filename f -> stops filename_char rest ->
  read_filename command (mkStream (gap +:+ f +:+ rest) false)
  = (Ret f, mkStream rest (bool_decide (rest = ""))).
Proof.
  intros Hgap Hne Hf Hrest. unfold read_filename. cbn [failbit unread].
  rewrite bool_decide_eq_false_2 by (by apply app_not_empty).
  rewrite skipws_blank by done.
  destruct f as [|ch w]; [done|]. destruct Hf as [Hch Hw].
  change (String ch w +:+ rest) with (String ch (w +:+ rest)).
  cbn [skipws]. rewrite (isalpha_not_space _ Hch), Hch.
  by rewrite (read_while_app filename_char w rest).
Qed.

Lemma read_filename_refuses command gap ch rest :
  blank gap -> gap <> "" -> isalpha ch = false -> isspace ch = false ->
  read_filename command (mkStream (gap +:+ String ch rest) false)
  = (Throw (nl +:+ "Expected filename after '" +:+ command +:+ "'" +:+ nl),
     mkStream rest false).
Proof.
  intros Hgap Hne Hch Hsp. unfold read_filename. cbn [failbit unread].
  rewrite bool_decide_eq_false_2 by (by apply app_not_empty).
  rewrite skipws_blank by done.
  cbn [skipws]. by rewrite Hsp, Hch.
Qed.

Lemma isalpha_filename_char c : isalpha c = true -> filename_char c = true.
Proof. unfold filename_char. by intros ->. Qed.

Lemma isalpha_isalnum c : isalpha c = true -> isalnum c = true.
Proof. unfold isalnum. by intros ->. Qed.

(** [X14].  [save env] and [load env] read the file name that follows, a
    letter and then letters, digits, ['_'], ['.'] and ['-'], store it in
    [current_filename] and yield their token; reading resumes after the
    name.  When what follows [env] does not start with a letter the scanner
    throws, its first character consumed and [current_filename] unchanged. *)
Theorem file_commands_record_the_filename `{num_get}
    command blanks gap1 gap2 filename :
  command = "save" \/ command = "load" ->
  blank blanks -> blank gap1 -> gap1 <> "" -> blank gap2 -> gap2 <> "" ->
  let text after_env := blanks +:+ command +:+ gap1 +:+ "env" +:+ gap2 +:+ after_env in
  let token :=
    Token.of_id (if bool_decide (command = "save") then Token.save_env_token
                 else Token.load_env_token) in
  (forall f rest,
     is_filename f -> stops filename_char rest ->
     scan (mkConsole (mkStream (text (f +:+ rest)) false) filename)
     = (Ret token, mkConsole (mkStream rest (bool_decide (rest = ""))) f))
  /\ (forall ch rest,
        isalpha ch = false -> isspace ch = false ->
        scan (mkConsole (mkStream (text (String ch rest)) false) filename)
        = (Throw (nl +:+ "Expected filename after '" +:+ command +:+ "'" +:+ nl),
           mkConsole (mkStream rest false) filename)).
Proof.
  intros Hcommand Hb Hgap1 Hne1 Hgap2 Hne2 text token.
  assert (identifier command) as Hid by (by destruct Hcommand as [-> | ->]).
  assert (forall after_env, stops isalnum (gap1 +:+ "env" +:+ gap2 +:+ after_env))
    as Hstops by (intros; by apply blank_app_stops_alnum).
  assert (forall after_env,
    scan (mkConsole (mkStream (text after_env) false) filename)
    = scan_word command
        (mkStream (gap1 +:+ "env" +:+ gap2 +:+ after_env) false) filename)
    as Hscan.
  { intros after_env. unfold text.
    rewrite (scan_identifier_word blanks command) by done.
    by rewrite bool_decide_eq_false_2 by (by apply app_not_empty). }
  assert (forall after_env,
    read_word_after_keyword command
      (mkStream (gap1 +:+ "env" +:+ gap2 +:+ after_env) false)
    = (Ret "env", mkStream (gap2 +:+ after_env) false)) as Hword.
  { intros after_env.
    rewrite read_word_after_keyword_env; [|done|done|].
    - by rewrite bool_decide_eq_false_2 by (by apply app_not_empty).
    - eapply stops_weaken; [apply isalpha_isalnum|].
      by apply blank_app_stops_alnum. }
  split.
  - intros f rest Hf Hrest. rewrite Hscan. unfold scan_word, token.
    destruct Hcommand as [-> | ->];
      rewrite !bool_decide_eq_false_2 by done;
      rewrite bool_decide_eq_true_2 by done;
      rewrite Hword; cbn [and_then];
      by rewrite read_filename_accepts.
  - intros ch rest Hch Hsp. rewrite Hscan. unfold scan_word.
    destruct Hcommand as [-> | ->];
      rewrite !bool_decide_eq_false_2 by done;
      rewrite bool_decide_eq_true_2 by done;
      rewrite Hword; cbn [and_then];
      by rewrite read_filename_refuses.
Qed.

Lemma file_commands_record_the_filename_witness :
  let scan_text text := @scan decimal_num_get (mkConsole (mkStream text false) "old") in
  scan_text "save env my_env-1.dat;"
    = (Ret (Token.of_id Token.save_env_token), mkConsole (mkStream ";" false) "my_env-1.dat")
  /\ scan_text "load env 1.dat;"
    = (Throw (nl +:+ "Expected filename after 'load'" +:+ nl),
       mkConsole (mkStream ".dat;" false) "old").
Proof.
  split.
  - apply (proj1 (@file_commands_record_the_filename decimal_num_get
                    "save" "" " " " " "old" ltac:(by left) eq_refl eq_refl
                    ltac:(done) eq_refl ltac:(done))
             "my_env-1.dat" ";"); [by split|reflexivity].
  - apply (proj2 (@file_commands_record_the_filename decimal_num_get
                    "load" "" " " " " "old" ltac:(by right) eq_refl eq_refl
                    ltac:(done) eq_refl ltac:(done))
             "1"%char ".dat;"); reflexivity.
Defined.

(** [X15].  [show], [save] and [load] are commands only when the next word
    is [env]: [show env] yields its token and leaves [current_filename] as
    it was, and any of the three followed by another word of letters throws,
    that word consumed. *)
Theorem commands_need_the_word_env `{num_get} blanks gap rest filename :
  blank blanks -> blank gap -> gap <> "" -> stops isalpha rest ->
  scan (mkConsole (mkStream (blanks +:+ "show" +:+ gap +:+ "env" +:+ rest) false) filename)
  = (Ret (Token.of_id Token.show_env_token),
     mkConsole (mkStream rest (bool_decide (rest = ""))) filename)
  /\ forall command u,
       command ∈ ["show"; "save"; "load"] ->
       all_chars isalpha u = true -> u <> "" -> u <> "env" ->
       scan (mkConsole (mkStream (blanks +:+ command +:+ gap +:+ u +:+ rest) false) filename)
       = (Throw (nl +:+ "Expected 'env' after '" +:+ command +:+ "'" +:+ nl),
          mkConsole (mkStream rest (bool_decide (rest = ""))) filename).
Proof.
  intros Hb Hgap Hne Hrest. split.
  - rewrite (scan_identifier_word blanks "show"); [|done|by split|].
    2:{ by apply blank_app_stops_alnum. }
    rewrite bool_decide_eq_false_2 by (by apply app_not_empty).
    unfold scan_word.
    rewrite !bool_decide_eq_false_2 by done.
    rewrite bool_decide_eq_true_2 by done.
    by rewrite read_word_after_keyword_env.
  - intros command u Hcommand Hu Hune Henv.
    assert (identifier command) as Hid.
    { rewrite !elem_of_cons, elem_of_nil in Hcommand.
      by destruct Hcommand as [-> | [-> | [-> | []]]]. }
    rewrite (scan_identifier_word blanks command); [|done|done|].
    2:{ by apply blank_app_stops_alnum. }
    rewrite bool_decide_eq_false_2 by (by apply app_not_empty).
    unfold scan_word.
    rewrite !elem_of_cons, elem_of_nil in Hcommand.
    destruct Hcommand as [-> | [-> | [-> | []]]];
      rewrite !bool_decide_eq_false_2 by done;
      rewrite bool_decide_eq_true_2 by done;
      by rewrite read_word_after_keyword_other.
Qed.

Lemma commands_need_the_word_env_witness :
  let scan_text text := @scan decimal_num_get (mkConsole (mkStream text false) "") in
  scan_text "show env;"
    = (Ret (Token.of_id Token.show_env_token), mkConsole (mkStream ";" false) "")
  /\ scan_text "save environment;"
    = (Throw (nl +:+ "Expected 'env' after 'save'" +:+ nl),
       mkConsole (mkStream ";" false) "").
Proof.
  split.
  - apply (proj1 (@commands_need_the_word_env decimal_num_get "" " " ";" ""
                    eq_refl eq_refl ltac:(done) eq_refl)).
  - apply (proj2 (@commands_need_the_word_env decimal_num_get "" " " ";" ""
                    eq_refl eq_refl ltac:(done) eq_refl)
             "save" "environment");
      [rewrite !elem_of_cons; tauto|reflexivity|done|done].
Defined.

(** ** The first character *)

Section FirstCharacter.
Context `{num_get}.

Lemma scan_word_not_bad_token s s1 filename :
  (scan_word s s1 filename).1 <> Throw "Bad token".
Proof.
  unfold scan_word.
  repeat (case_bool_decide; [try done|]); try done.
  - destruct (extract_string "" s1) as [next s2]. by case_bool_decide.
  - unfold read_word_after_keyword.
    repeat (case_match; simplify_eq/=; try done).
  - unfold read_word_after_keyword, read_filename.
    repeat (case_match; simplify_eq/=; try done).
  - unfold read_word_after_keyword, read_filename.
    repeat (case_match; simplify_eq/=; try done).
Qed.

End FirstCharacter.

(** [X9].  The first character that is not white space decides what the
    scanner makes.  One of [( ) + - * / % = ,] is returned as a symbol and
    [';'] as the [print] token, that character alone being consumed; a digit
    or a point starts a number; a letter starts a word, which never comes
    out as a symbol, a [print] or a number.  Any other character is consumed
    and "Bad token" is thrown, which happens in no other case. *)
Theorem first_character_decides `{num_get} c ch rest :
  failbit (cin c) = false ->
  skipws (unread (cin c)) = String ch rest ->
  let after := mkConsole (mkStream rest false) (current_filename c) in
  let other :=
    (ch ∉ symbols) /\ ch <> ";"%char /\ ch <> "."%char
    /\ isdigit ch = false /\ isalpha ch = false in
  (ch ∈ symbols -> scan c = (Ret (Token.of_char ch), after))
  /\ (ch = ";"%char -> scan c = (Ret (Token.of_id Token.print), after))
  /\ (ch = "."%char \/ isdigit ch = true ->
      exists val, (scan c).1 = Ret (Token.of_double val))
  /\ (isalpha ch = true ->
      forall tok c',
        scan c = (Ret tok, c') ->
        Token.kind tok ∉ [Token.none; Token.print; Token.number; Token.char_token])
  /\ (other -> scan c = (Throw "Bad token", after))
  /\ ((scan c).1 = Throw "Bad token" -> other).
Proof.
  intros Hgood Hskip after other.
  assert (ch ∈ symbols -> ch <> ";"%char /\ ch <> "."%char
                          /\ isdigit ch = false /\ isalpha ch = false) as Hsym.
  { unfold symbols. rewrite !elem_of_cons, elem_of_nil. intros Hin.
    repeat destruct Hin as [Hin|Hin]; try done; by subst ch. }
  split; [|split; [|split; [|split; [|split]]]].
  - intros Hin. unfold scan. rewrite Hgood, Hskip.
    by rewrite bool_decide_eq_true_2.
  - intros ->. unfold scan. by rewrite Hgood, Hskip.
  - intros Hnum. unfold scan. rewrite Hgood, Hskip.
    rewrite bool_decide_eq_false_2.
    2:{ intros Hin. destruct (Hsym Hin) as (_ & ? & ? & _).
        destruct Hnum; congruence. }
    rewrite bool_decide_eq_false_2 by (destruct Hnum as [-> | Hd]; [done|by intros ->]).
    assert (bool_decide (ch = "."%char) || isdigit ch = true) as ->.
    { destruct Hnum as [-> | ->]; [done|apply orb_true_r]. }
    destruct (get_double (String ch rest)) as [val r|val]; by exists val.
  - intros Ha tok c' Hscan.
    rewrite (scan_at ch rest c Hgood Hskip Ha) in Hscan.
    destruct (read_while isalnum rest) as [w s1].
    apply scan_word_kind in Hscan.
    rewrite !not_elem_of_cons.
    destruct (Token.kind tok); try done;
      repeat split; try done; apply not_elem_of_nil.
  - intros (Hin & Hp & Hd & Hdigit & Ha).
    unfold scan. rewrite Hgood, Hskip.
    rewrite !bool_decide_eq_false_2 by done.
    by rewrite Hdigit, Ha.
  - unfold scan. rewrite Hgood, Hskip. unfold other.
    case_bool_decide as Hin; [done|].
    case_bool_decide as Hp; [done|].
    case_bool_decide as Hd; simpl.
    { destruct (get_double _); done. }
    destruct (isdigit ch) eqn:Hdigit.
    { destruct (get_double _); done. }
    destruct (isalpha ch) eqn:Ha; [|done].
    destruct (read_while isalnum rest) as [w s1].
    intros Hbad.
    by destruct (scan_word_not_bad_token (String ch w) s1 (current_filename c)).
Qed.

Lemma first_character_decides_witness :
  let c := mkConsole (mkStream "  #x" false) "" in
  failbit (cin c) = false
  /\ skipws (unread (cin c)) = String "#" "x"
  /\ @scan decimal_num_get c = (Throw "Bad token", mkConsole (mkStream "x" false) "").
Proof.
  cbv zeta. split; [reflexivity|]. split; [reflexivity|].
  destruct (@first_character_decides decimal_num_get
              (mkConsole (mkStream "  #x" false) "") "#" "x" eq_refl eq_refl)
    as (_ & _ & _ & _ & Hbad & _).
  apply Hbad.
  repeat split; try done.
  unfold symbols. rewrite !not_elem_of_cons. repeat split; try done.
  apply not_elem_of_nil.
Defined.

(** ** Recovery *)

Lemma drain_quit before t after :
  Forall not_quit before -> Token.kind t = Token.quit ->
  drain (before ++ t :: after) = (true, after).
Proof.
  intros Hbefore Ht. induction Hbefore as [|t' before Ht' _ IH]; simpl.
  - by rewrite bool_decide_eq_true_2.
  - by rewrite bool_decide_eq_false_2.
Qed.

Lemma drain_no_quit b : Forall not_quit b -> drain b = (false, []).
Proof.
  induction 1 as [|t b Ht _ IH]; simpl; [done|].
  by rewrite bool_decide_eq_false_2.
Qed.

Lemma skip_statement_semicolon text rest :
  all_chars not_semicolon text = true ->
  skip_statement (text +:+ String ";" rest) = mkStream rest false.
Proof.
  induction text as [|ch text IH]; simpl; [done|].
  rewrite andb_true_iff. intros [Hch Htext].
  change (String ch text +:+ String ";" rest) with (String ch (text +:+ String ";" rest)).
  simpl. unfold not_semicolon in Hch. apply negb_true_iff in Hch.
  rewrite Hch. by apply IH.
Qed.

Lemma skip_statement_end text :
  all_chars not_semicolon text = true -> skip_statement text = mkStream "" true.
Proof.
  induction text as [|ch text IH]; simpl; [done|].
  rewrite andb_true_iff. intros [Hch Htext].
  unfold not_semicolon in Hch. apply negb_true_iff in Hch.
  rewrite Hch. by apply IH.
Qed.

(** [X17].  [ignore()] drops the queued tokens up to and including the first
    [quit] and, if there is one, leaves [cin] alone.  Otherwise the queue
    ends up empty and the input is discarded up to and including the next
    [';'], so that reading resumes right behind it; without a [';'] all the
    input is discarded and the stream is left failed. *)
Theorem ignore_discards_the_statement :
  (forall before t after s,
     Forall not_quit before -> Token.kind t = Token.quit ->
     ignore (before ++ t :: after) s = (after, s))
  /\ (forall b text rest,
        Forall not_quit b -> all_chars not_semicolon text = true ->
        ignore b (mkStream (text +:+ String ";" rest) false)
        = ([], mkStream rest false))
  /\ (forall b text,
        Forall not_quit b -> all_chars not_semicolon text = true ->
        ignore b (mkStream text false) = ([], mkStream "" true))
  /\ (forall b s,
        Forall not_quit b -> failbit s = true -> ignore b s = ([], s)).
Proof.
  split; [|split; [|split]].
  - intros before t after s Hbefore Ht. unfold ignore.
    by rewrite drain_quit.
  - intros b text rest Hb Htext. unfold ignore.
    rewrite drain_no_quit by done. simpl.
    by rewrite skip_statement_semicolon.
  - intros b text Hb Htext. unfold ignore.
    rewrite drain_no_quit by done. simpl.
    by rewrite skip_statement_end.
  - intros b s Hb Hs. unfold ignore.
    rewrite drain_no_quit by done. by rewrite Hs.
Qed.

Lemma ignore_discards_the_statement_witness :
  ignore [Token.of_char "*"; Token.of_id Token.quit; Token.of_char "+"]
    (mkStream "2; 3;" false)
  = ([Token.of_char "+"], mkStream "2; 3;" false)
  /\ ignore [Token.of_char "*"] (mkStream " 2 +; 3;" false)
     = ([], mkStream " 3;" false).
Proof.
  split.
  - apply (proj1 ignore_discards_the_statement [Token.of_char "*"]
             (Token.of_id Token.quit) [Token.of_char "+"]);
      [repeat constructor; done|reflexivity].
  - apply (proj1 (proj2 ignore_discards_the_statement) [Token.of_char "*"]
             " 2 +" " 3;");
      [repeat constructor; done|reflexivity].
Defined.

(** ** Typed input *)

Section TypedNumbers.
Context `{num_get}.

(** A sign is a token of its own. *)
Lemma scan_sign blanks sign rest filename :
  blank blanks ->
  sign = "-"%char \/ sign = "+"%char ->
  scan (mkConsole (mkStream (blanks +:+ String sign rest) false) filename)
  = (Ret (Token.of_char sign), mkConsole (mkStream rest false) filename).
Proof.
  intros Hb Hsign. unfold scan. cbn [cin failbit unread current_filename].
  rewrite skipws_blank by done.
  rewrite skipws_stops by (by destruct Hsign as [-> | ->]).
  by destruct Hsign as [-> | ->].
Qed.

(** A digit or a point starts a number, which [cin >> val] reads. *)
Lemma scan_number blanks ch rest filename val r :
  blank blanks ->
  ch = "."%char \/ isdigit ch = true ->
  get_double (String ch rest) = Converted val r ->
  scan (mkConsole (mkStream (blanks +:+ String ch rest) false) filename)
  = (Ret (Token.of_double val), mkConsole (mkStream r false) filename).
Proof.
  intros Hb Hnum Hget. unfold scan. cbn [cin failbit unread current_filename].
  rewrite skipws_blank by done.
  rewrite skipws_stops
    by (destruct Hnum as [-> | Hd]; [done|by apply isdigit_not_space]).
  rewrite bool_decide_eq_false_2.
  2:{ unfold symbols. rewrite !not_elem_of_cons.
      repeat split; try apply not_elem_of_nil;
        intros ->; by destruct Hnum. }
  rewrite bool_decide_eq_false_2 by (intros ->; by destruct Hnum).
  assert (bool_decide (ch = "."%char) || isdigit ch = true) as ->.
  { destruct Hnum as [-> | ->]; [done|apply orb_true_r]. }
  by rewrite Hget.
Qed.

End TypedNumbers.

(** [C10], as amended.  [set precision] reads the token that follows it.
    A sign is a token of its own, so a number typed with a sign is refused
    with "Expected a number after 'set precision'".  For a number typed
    without a sign, let [N] be the integer its value converts to, which
    drops the decimals: when [N] is above 20 (or below 0) the command
    throws "Precision must be between 0 and 20", and when [N] lies in
    [0, 20] the precision becomes [N].  Whenever the command throws, the
    precision in force stays what it was. *)
Theorem set_precision_range `{num_get}
    blanks ch rest filename rounds table precision :
  blank blanks ->
  let typed :=
    mkState []
      (scans (S rounds)
         (mkConsole (mkStream (blanks +:+ String ch rest) false) filename))
      table precision in
  let next text :=
    mkState [] (scans rounds (mkConsole (mkStream text false) filename))
      table precision in
  (ch = "-"%char \/ ch = "+"%char ->
   set_precision typed
   = (Throw "Expected a number after 'set precision'", next rest))
  /\ (ch = "."%char \/ isdigit ch = true ->
      forall val r N,
        get_double (String ch rest) = Converted val r ->
        static_cast_int val = Some N ->
        (N < 0 \/ 20 < N ->
         set_precision typed
         = (Throw "Precision must be between 0 and 20", next r))
        /\ (0 <= N <= 20 ->
            set_precision typed = (Ret tt, with_precision N (next r)))).
Proof.
  intros Hb typed next. split.
  - intros Hsign.
    assert (get typed = (Ret (Token.of_char ch), next rest)) as Hget.
    { unfold typed, get. cbn [buffer input scans].
      by rewrite (scan_sign _ _ _ _ Hb Hsign). }
    by apply (set_precision_on_token _ _ _ Hget).
  - intros Hnum val r N Hval Hcast.
    assert (get typed = (Ret (Token.of_double val), next r)) as Hget.
    { unfold typed, get. cbn [buffer input scans].
      by rewrite (scan_number _ _ _ _ _ _ Hb Hnum Hval). }
    by apply (set_precision_on_token _ _ _ Hget).
Qed.

Lemma set_precision_range_witness :
  let typed text :=
    mkState [] (@scans decimal_num_get 2 (mkConsole (mkStream text false) "")) ∅ 6 in
  set_precision (typed " 21;")
  = (Throw "Precision must be between 0 and 20", mkState [] [Scanned semicolon] ∅ 6)
  /\ set_precision (typed " 12;")
     = (Ret tt, mkState [] [Scanned semicolon] ∅ 12).
Proof.
  cbv zeta. split.
  - refine (eq_trans
              (proj1 (proj2 (@set_precision_range decimal_num_get
                               " " "2" "1;" "" 1 ∅ 6 eq_refl)
                        ltac:(by right) 21%float ";" 21 eq_refl eq_refl)
                 ltac:(lia)) _).
    reflexivity.
  - refine (eq_trans
              (proj2 (proj2 (@set_precision_range decimal_num_get
                               " " "1" "2;" "" 1 ∅ 6 eq_refl)
                        ltac:(by right) 12%float ";" 12 eq_refl eq_refl)
                 ltac:(lia)) _).
    reflexivity.
Defined.

(** [C10] as stated fails on typed input.  [-1] lies outside [0, 20], and
    [set precision -1] fails, but not for the range: it is the sign that
    is refused.  [20.9] lies outside [0, 20], and [set precision 20.9]
    sets the precision to 20.  [5.5] lies inside, and the precision
    becomes 5. *)
Lemma set_precision_sign_and_decimals :
  let typed text :=
    mkState [] (@scans decimal_num_get 3 (mkConsole (mkStream text false) "")) ∅ 6 in
  set_precision (typed " -1;")
  = (Throw "Expected a number after 'set precision'",
     mkState [] (Scanned <$> [Token.of_double 1%float; semicolon]) ∅ 6)
  /\ (set_precision (typed " -1;")).1 <> Throw "Precision must be between 0 and 20"
  /\ set_precision (typed " 20.9;") = (Ret tt, mkState [] [Scanned semicolon] ∅ 20)
  /\ set_precision (typed " 5.5;") = (Ret tt, mkState [] [Scanned semicolon] ∅ 5).
Proof.
  cbv zeta. split; [vm_compute; reflexivity|].
  split; [vm_compute; discriminate|].
  split; vm_compute; reflexivity.
Qed.

(** [X16].  A sign is never part of a number: the scanner returns ['-'] and
    ['+'] as symbols.  So when [set precision] is followed by a signed
    number the command finds a symbol where it wants a number and throws
    "Expected a number after 'set precision'"; the digits are still to be
    read. *)
Theorem a_signed_precision_is_not_a_number `{num_get}
    blanks sign rest filename rounds table precision :
  blank blanks ->
  sign = "-"%char \/ sign = "+"%char ->
  set_precision
    (mkState []
       (scans (S rounds)
          (mkConsole (mkStream (blanks +:+ String sign rest) false) filename))
       table precision)
  = (Throw "Expected a number after 'set precision'",
     mkState [] (scans rounds (mkConsole (mkStream rest false) filename))
       table precision).
Proof.
  intros Hb Hsign.
  assert (scan (mkConsole (mkStream (blanks +:+ String sign rest) false) filename)
          = (Ret (Token.of_char sign), mkConsole (mkStream rest false) filename))
    as Hscan.
  { unfold scan. cbn [cin failbit unread current_filename].
    rewrite skipws_blank by done.
    rewrite skipws_stops by (by destruct Hsign as [-> | ->]).
    by destruct Hsign as [-> | ->]. }
  cbn [scans]. rewrite Hscan. done.
Qed.

Lemma a_signed_precision_is_not_a_number_witness :
  @scans decimal_num_get 3 (mkConsole (mkStream " -1;" false) "")
  = Scanned <$> [Token.of_char "-"; Token.of_double 1%float; semicolon]
  /\ set_precision
       (mkState [] (@scans decimal_num_get 3 (mkConsole (mkStream " -1;" false) "")) ∅ 6)
     = (Throw "Expected a number after 'set precision'",
        mkState [] (Scanned <$> [Token.of_double 1%float; semicolon]) ∅ 6).
Proof.
  split; [reflexivity|].
  refine (eq_trans
            (@a_signed_precision_is_not_a_number decimal_num_get " " "-" "1;" "" 2 ∅ 6
               eq_refl ltac:(by left)) _).
  reflexivity.
Defined.

(** A statement as it is typed: the characters are scanned, the
    assignment is evaluated, and [';'] and what follows it are left for
    the caller. *)
Example typed_assignment :
  let st := mkState []
              (@scans decimal_num_get 11
                 (mkConsole (mkStream "x = (2 + 3) * 4; quit" false) ""))
              ∅ 6 in
  let r := @statement sample_cmath 12 st in
  r.1 = Ret 20%float
  /\ buffer r.2 = [semicolon]
  /\ input r.2 = [Scanned (Token.of_id Token.quit)]
  /\ (get_value "x" r.2).1 = Ret 20%float.
Proof. vm_compute. done. Qed.

(** A character that starts no token ends the statement with
    "Bad token". *)
Example typed_bad_token :
  let typed := @scans decimal_num_get 5
                 (mkConsole (mkStream "7 $ 2;" false) "") in
  typed = [Scanned (Token.of_double 7%float); Rejected "Bad token"]
  /\ (@statement sample_cmath 12 (mkState [] typed ∅ 6)).1 = Throw "Bad token".
Proof. vm_compute. done. Qed.

(** ** Loading: the header *)

Section Header.
Context `{num_get}.

Lemma apply_file_precision_repeats P junk answers :
  Forall not_offered junk ->
  apply_file_precision P (junk ++ answers) = apply_file_precision P answers.
Proof.
  induction 1 as [|option junk [H1 H2] _ IH]; simpl; [done|].
  rewrite (proj2 (Z.eqb_neq option 1)) by done.
  by rewrite (proj2 (Z.eqb_neq option 2)) by done.
Qed.

End Header.

(** [X18].  [load env] on a file that cannot be opened throws and changes
    nothing; an empty file is accepted without a question.  Otherwise the
    menu about the precision of the header is repeated until the answer is 1
    or 2.  With 2 the entries are loaded under the precision in force. With
    1 the precision of the header is checked first: inside [0, 20] it is set
    and the entries are loaded, outside the command throws before any entry
    is read. *)
Theorem load_env_starts_with_the_header `{num_get} fuel st :
  (forall answers,
     load_env fuel None answers st
     = (Throw (nl +:+ "load env: Could not open file for reading" +:+ nl), st))
  /\ (forall answers, load_env fuel (Some "") answers st = (Ret tt, st))
  /\ forall text header lines P junk answers,
       getlines text = header :: lines ->
       read_header header = Some P ->
       Forall not_offered junk ->
       load_env fuel (Some text) (junk ++ 2 :: answers) st
       = load_lines fuel lines answers st
       /\ (0 <= P <= 20 ->
           load_env fuel (Some text) (junk ++ 1 :: answers) st
           = load_lines fuel lines answers (with_precision P st))
       /\ (P < 0 \/ 20 < P ->
           load_env fuel (Some text) (junk ++ 1 :: answers) st
           = (Throw "Precision must be between 0 and 20", st)).
Proof.
  split; [done|]. split; [done|].
  intros text header lines P junk answers Hlines Hheader Hjunk.
  unfold load_env. rewrite Hlines, Hheader.
  rewrite !apply_file_precision_repeats by done.
  split; [done|]. split.
  - intros HP. simpl. unfold set_precision_int, out_of_range.
    rewrite (proj2 (Z.ltb_ge P 0)) by lia.
    by rewrite (proj2 (Z.ltb_ge 20 P)) by lia.
  - intros HP. simpl. unfold set_precision_int, out_of_range.
    assert ((P <? 0) || (20 <? P) = true) as ->; [|done].
    apply orb_true_iff. destruct HP; [left|right]; by apply Z.ltb_lt.
Qed.

Lemma load_env_starts_with_the_header_witness :
  let text := "Precision = 25" +:+ nl +:+ "x = 5 is_const = 0" +:+ nl in
  let st := mkState [] [] ∅ 6 in
  getlines text = ["Precision = 25"; "x = 5 is_const = 0"]
  /\ @read_header decimal_num_get "Precision = 25" = Some 25
  /\ @load_env decimal_num_get 1 (Some text) [7; 1] st
     = (Throw "Precision must be between 0 and 20", st)
  /\ names (@load_env decimal_num_get 1 (Some text) [7; 2] st).2
     = {["x" := Value.mk "x" 5%float false]}.
Proof.
  cbv zeta. split; [reflexivity|]. split; [reflexivity|].
  destruct (proj2 (proj2 (@load_env_starts_with_the_header decimal_num_get 1
                            (mkState [] [] ∅ 6)))
              ("Precision = 25" +:+ nl +:+ "x = 5 is_const = 0" +:+ nl)
              "Precision = 25" ["x = 5 is_const = 0"] 25 [7] []
              eq_refl eq_refl)
    as (Hkeep & _ & Hthrow).
  { repeat constructor; done. }
  split; [apply Hthrow; lia|].
  change [7; 2] with ([7] ++ [2]). rewrite Hkeep. reflexivity.
Defined.

(** ** Saving and loading back *)

Lemma fixed_starts p negative x :
  0 <= p -> exists c s, fixed p negative x = String c s /\ isspace c = false.
Proof.
  intros Hp. unfold fixed.
  assert (forall (sgn : bool) scaled tail, 0 <= scaled ->
    exists c s,
      (if sgn then "-" else "") +:+ to_string (scaled / 10 ^ p) +:+ tail = String c s
      /\ isspace c = false) as Himage.
  { intros [] scaled tail Hs.
    - eexists _, _. split; [reflexivity|done].
    - destruct (to_string_digits (scaled / 10 ^ p)) as [Hd Hne].
      { apply Z.div_pos; [done|]. by apply Z.pow_pos_nonneg. }
      destruct (to_string (scaled / 10 ^ p)) as [|c s]; [done|].
      exists c, (s +:+ tail). split; [done|].
      simpl in Hd. apply andb_true_iff in Hd as [Hc _].
      by apply isdigit_not_space. }
  destruct (Prim2SF x) as [sgn|sgn| |sgn m e].
  - by apply Himage.
  - destruct sgn; eexists _, _; (split; [reflexivity|done]).
  - destruct negative; eexists _, _; (split; [reflexivity|done]).
  - apply Himage. case_match.
    + assert (0 <= 2 ^ e) by (apply Z.pow_nonneg; lia).
      assert (0 <= 10 ^ p) by (apply Z.pow_nonneg; lia). nia.
    + apply round_half_even_nonneg.
      * assert (0 <= 10 ^ p) by (apply Z.pow_nonneg; lia). nia.
      * apply Z.pow_pos_nonneg; lia.
Qed.

Lemma extract_number_from {A} (get : string -> conversion A) var gap c rest v r :
  blank gap -> isspace c = false ->
  get (String c rest) = Converted v r ->
  extract_number get var (mkStream (gap +:+ String c rest) false)
  = (Some v, mkStream r false).
Proof.
  intros Hgap Hc Hget. unfold extract_number. cbn [failbit unread].
  rewrite skipws_blank by done.
  rewrite skipws_stops by done.
  by rewrite Hget.
Qed.

Lemma extract_number_at {A} (get : string -> conversion A) var gap c s tail v r :
  blank gap -> isspace c = false ->
  get (String c s +:+ tail) = Converted v r ->
  extract_number get var (mkStream (gap +:+ String c s +:+ tail) false)
  = (Some v, mkStream r false).
Proof. exact (extract_number_from get var gap c (s +:+ tail) v r). Qed.

Lemma extract_string_first var w rest :
  all_chars nonblank w = true -> w <> "" -> stops nonblank rest ->
  extract_string var (mkStream (w +:+ rest) false) = (w, mkStream rest false).
Proof.
  intros Hw Hne Hrest.
  exact (extract_string_word var "" w rest eq_refl Hw Hne Hrest).
Qed.

(** The second and the fifth field of a line written by [save env]. *)
Lemma extract_string_equals var rest :
  extract_string var (mkStream (" = " +:+ rest) false)
  = ("=", mkStream (" " +:+ rest) false).
Proof. exact (extract_string_word var " " "=" (" " +:+ rest) eq_refl eq_refl
                ltac:(done) eq_refl). Qed.

Lemma nonblank_not_newline c : nonblank c = true -> not_newline c = true.
Proof. by destruct c as [[] [] [] [] [] [] [] []]. Qed.

Section LoadingBack.
Context `{num_get}.
Variables (signs : string -> bool) (P : Z) (reread : float -> float).
Hypothesis get_zero : get_int "0" = Converted 0 "".
Hypothesis get_one : get_int "1" = Converted 1 "".

Lemma read_entry_of_entry_text k v :
  0 <= P -> is_word k -> converts_back P (signs k) reread v ->
  read_entry (entry_text signs P (k, v))
  = (k, Some (reread (Value.value v)), Some (if Value.is_const v then 1 else 0)).
Proof.
  intros HP [Hne Hk] Hback. unfold read_entry, entry_text. cbn [fst snd].
  set (tail := " is_const = " +:+ (if Value.is_const v then "1" else "0")).
  rewrite extract_string_first by done.
  rewrite extract_string_equals.
  destruct (fixed_starts P (signs k) (Value.value v) HP) as (c & s & Hfixed & Hc).
  rewrite Hfixed.
  rewrite (extract_number_at get_double None " " c s tail
             (reread (Value.value v)) tail); [|done|done|].
  2:{ rewrite <- Hfixed. exact Hback. }
  unfold tail.
  change (" is_const = " +:+ (if Value.is_const v then "1" else "0"))
    with (" " +:+ "is_const" +:+ " = " +:+ (if Value.is_const v then "1" else "0")).
  rewrite (extract_string_word "" " " "is_const") by done.
  rewrite extract_string_equals.
  destruct (Value.is_const v).
  - by rewrite (extract_number_from get_int None " " "1" "" 1 "").
  - by rewrite (extract_number_from get_int None " " "0" "" 0 "").
Qed.

Lemma load_lines_defines fuel (l : list (string * Value.t)) answers st :
  0 <= P -> NoDup l.*1 ->
  (forall k v, (k, v) ∈ l ->
     is_word k /\ converts_back P (signs k) reread v /\ names st !! k = None) ->
  load_lines fuel (entry_text signs P <$> l) answers st
  = (Ret tt, with_names (list_to_map (read_back reread <$> l) ∪ names st) st).
Proof.
  intros HP. revert st. induction l as [|[k v] l IH]; intros st Hnodup Hl.
  - simpl. rewrite (left_id ∅ _). by destruct st.
  - apply NoDup_cons in Hnodup as [Hk Hnodup].
    destruct (Hl k v ltac:(left)) as (Hword & Hback & Hfree).
    cbn [fmap list_fmap load_lines].
    assert (load_line fuel (entry_text signs P (k, v)) answers st
            = (Ret answers,
               with_names (<[k := (read_back reread (k, v)).2]> (names st)) st)) as Hline.
    { unfold load_line. rewrite read_entry_of_entry_text by done.
      rewrite bool_decide_eq_false_2 by apply Hword.
      unfold bind at 1, is_declared at 1. rewrite Hfree.
      rewrite bool_decide_eq_false_2 by (by intros []).
      unfold read_back. simpl. by destruct (Value.is_const v). }
    rewrite (bind_Ret _ _ _ _ _ Hline).
    rewrite IH; [|done|].
    + f_equal. unfold with_names. simpl. f_equal.
      rewrite <- insert_union_r.
      * by rewrite insert_union_l.
      * apply not_elem_of_list_to_map_1.
        rewrite <- list_fmap_compose.
        by replace (fst ∘ read_back reread) with (fst : string * Value.t -> string).
    + intros k' v' Hin. destruct (Hl k' v' ltac:(by right)) as (? & ? & ?).
      split; [done|]. split; [done|]. simpl.
      rewrite lookup_insert_ne; [done|].
      intros ->. apply Hk. apply list_elem_of_fmap. by exists (k', v').
Qed.

Lemma getlines_write_env (m : gmap string Value.t) :
  (forall k, is_Some (m !! k) -> is_word k) ->
  getlines (write_env signs P m)
  = ("Precision = " +:+ to_string P) :: (entry_text signs P <$> iterate m).
Proof.
  intros Hkeys. unfold write_env.
  rewrite <- (app_assoc_string "Precision = " (to_string P)).
  rewrite getlines_line
    by (rewrite all_chars_app; apply to_string_not_newline).
  f_equal. unfold entry_line.
  rewrite <- (getlines_lines (entry_text signs P <$> iterate m)).
  - by rewrite <- list_fmap_compose.
  - apply Forall_fmap, Forall_forall. intros [k v] Hin.
    apply entry_text_not_newline. simpl.
    apply iterate_lookup in Hin.
    destruct (Hkeys k) as [_ Hk]; [by rewrite Hin|].
    by apply (all_chars_impl nonblank); [apply nonblank_not_newline|].
Qed.

Lemma read_header_precision :
  get_int (to_string P) = Converted P "" ->
  0 <= P ->
  read_header ("Precision = " +:+ to_string P) = Some P.
Proof.
  intros Hget HP. unfold read_header.
  change ("Precision = " +:+ to_string P)
    with ("Precision" +:+ " = " +:+ to_string P).
  rewrite (extract_string_first "" "Precision") by done.
  rewrite extract_string_equals.
  destruct (to_string_digits P HP) as [Hd Hne].
  destruct (to_string P) as [|c s] eqn:Hs; [done|].
  rewrite (extract_number_from get_int None " " c s P ""); [done|done| |done].
  simpl in Hd. apply andb_true_iff in Hd as [Hc _]. by apply isdigit_not_space.
Qed.

End LoadingBack.

Lemma read_back_keys reread (l : list (string * Value.t)) :
  (read_back reread <$> l).*1 = l.*1.
Proof.
  rewrite <- list_fmap_compose. apply list_fmap_ext. by intros _ [k v] _.
Qed.

(** [X19].  What [save env] writes, [load env] reads back.  Take a table
    whose keys are words and whose written values the number reader
    converts, to [reread x] for a value [x], and any sign bits.  Loading the saved text into an
    empty table asks only the question about the precision, and yields the
    same names with the same constness, each value being the one reread.
    With answer 2 the precision stays; with answer 1 it becomes the
    precision of the file. *)
Theorem saved_environment_loads_back `{num_get} (signs : string -> bool)
    (reread : float -> float)
    (st st0 : State) (answers rest : list Z) (P : Z) (fuel : nat) :
  size (names st) <> 0%nat ->
  select_save_precision answers = Some P ->
  (forall k, is_Some (names st !! k) -> is_word k) ->
  (forall k v, names st !! k = Some v -> converts_back P (signs k) reread v) ->
  get_int (to_string P) = Converted P "" ->
  get_int "0" = Converted 0 "" ->
  get_int "1" = Converted 1 "" ->
  names st0 = ∅ ->
  let text := write_env signs P (names st) in
  save_env signs answers true st = (Ret text, st)
  /\ exists loaded,
       load_env fuel (Some text) (2 :: rest) st0 = (Ret tt, with_names loaded st0)
       /\ load_env fuel (Some text) (1 :: rest) st0
          = (Ret tt, with_names loaded (with_precision P st0))
       /\ forall k,
            loaded !! k
            = (fun v => Value.mk k (reread (Value.value v)) (Value.is_const v))
              <$> names st !! k.
Proof.
  intros Hsize Hsel Hkeys Hback HgetP Hget0 Hget1 Hempty text. unfold text.
  assert (0 <= P <= 20) as HP
    by (destruct (select_save_precision_presets _ _ Hsel) as [->|[->| ->]]; lia).
  set (l := iterate (names st)).
  assert (forall st1, names st1 = ∅ ->
    load_lines fuel (entry_text signs P <$> l) rest st1
    = (Ret tt, with_names (list_to_map (read_back reread <$> l)) st1)) as Hload.
  { intros st1 Hst1.
    rewrite (load_lines_defines signs P reread Hget0 Hget1);
      [|lia|apply iterate_keys_once|].
    - by rewrite Hst1, (right_id ∅ _).
    - intros k v Hin. apply iterate_lookup in Hin.
      split; [apply Hkeys; by rewrite Hin|]. split; [by eapply Hback|].
      by rewrite Hst1. }
  split.
  { unfold save_env. rewrite bool_decide_eq_false_2 by done. by rewrite Hsel. }
  exists (list_to_map (read_back reread <$> l)).
  split; [|split].
  - unfold load_env. rewrite getlines_write_env by done.
    rewrite read_header_precision by (done || lia).
    simpl. by apply Hload.
  - unfold load_env. rewrite getlines_write_env by done.
    rewrite read_header_precision by (done || lia).
    simpl. unfold set_precision_int, out_of_range.
    rewrite (proj2 (Z.ltb_ge P 0)) by lia.
    rewrite (proj2 (Z.ltb_ge 20 P)) by lia.
    simpl. unfold bind at 1. simpl. by apply Hload.
  - intros k. destruct (names st !! k) as [v|] eqn:Hk; simpl.
    + apply elem_of_list_to_map_1.
      * rewrite read_back_keys. apply iterate_keys_once.
      * apply list_elem_of_fmap. exists (k, v). split; [done|].
        by apply iterate_lookup.
    + apply not_elem_of_list_to_map_1. rewrite read_back_keys.
      intros Hin. apply list_elem_of_fmap in Hin as ([k' v] & -> & Hin).
      apply iterate_lookup in Hin. simpl in Hk. by rewrite Hin in Hk.
Qed.

Lemma saved_environment_loads_back_witness :
  let table := <["x" := Value.mk "x" 3%float false]>
                 (<["pi" := Value.mk "pi" 3.14%float true]> ∅) in
  let st := mkState [] [] table 6 in
  let st0 := mkState [] [] ∅ 6 in
  let text := "Precision = 12" +:+ nl
              +:+ "pi = 3.140000000000 is_const = 1" +:+ nl
              +:+ "x = 3.000000000000 is_const = 0" +:+ nl in
  save_env (fun _ => true) [2] true st = (Ret text, st)
  /\ exists loaded,
       @load_env decimal_num_get 1 (Some text) [1] st0
       = (Ret tt, with_names loaded (with_precision 12 st0))
       /\ loaded !! "pi" = Some (Value.mk "pi" 3.14%float true)
       /\ loaded !! "x" = Some (Value.mk "x" 3%float false)
       /\ loaded !! "y" = None.
Proof.
  cbv zeta.
  destruct (@saved_environment_loads_back decimal_num_get (fun _ => true)
              (fun x => x)
              (mkState [] []
                 (<["x" := Value.mk "x" 3%float false]>
                    (<["pi" := Value.mk "pi" 3.14%float true]> ∅)) 6)
              (mkState [] [] ∅ 6) [2] [] 12 1)
    as (Hsave & loaded & _ & Hload & Hlookup);
    [done|reflexivity| | |reflexivity|reflexivity|reflexivity|reflexivity|].
  - intros k [v Hk]. simpl in Hk.
    apply lookup_insert_Some in Hk as [[<- _]|[_ Hk]]; [by split|].
    apply lookup_insert_Some in Hk as [[<- _]|[_ Hk]]; [by split|].
    by rewrite lookup_empty in Hk.
  - intros k v Hk. simpl in Hk.
    apply lookup_insert_Some in Hk as [[<- <-]|[_ Hk]]; [reflexivity|].
    apply lookup_insert_Some in Hk as [[<- <-]|[_ Hk]]; [reflexivity|].
    by rewrite lookup_empty in Hk.
  - split; [exact Hsave|].
    exists loaded. split; [exact Hload|].
    split; [exact (Hlookup "pi")|]. split; [exact (Hlookup "x")|exact (Hlookup "y")].
Defined.
